(** * Speed Extractor: a shallow embedding of [SpeedExtractor.py]

    The add-on has four operators.  [OBJECT_OT_GetSpeed] samples the
    position of the active object over the scene's frame range, optionally
    smooths the speeds, and writes one line per record to a text block.
    The two transfer operators and [OBJECT_OT_DisplaySpeed] read that text
    back.  Python values are modelled as follows:

    - [int] is [Z];
    - [float] is an IEEE 754 binary64 value, [spec_float] with the
      operations of the Standard Library's [SpecFloat] at precision 53;
    - [str] is [string], a character being a code point below 256;
    - [dict] and [bpy.data.texts] are [gmap]s;
    - a raised exception is the [Raise] branch of [result].

    The host is the record [bpy].  Its calls are taken to succeed and to do
    what the add-on asks of them; what [print] writes is left out.  The
    panel's [draw] is the list of the calls it makes on its layout. *)

From Stdlib Require Import ZArith Lia List Bool Ascii String SpecFloat.
From Stdlib Require Import DecimalString DecimalZ DecimalPos.
From stdpp Require Import base option list gmap strings.

Local Open Scope Z_scope.

(** ** Exceptions *)

Inductive exn : Type :=
  | ValueError
  | IndexError
  | ZeroDivisionError
  | OverflowError
  | AttributeError.

Inductive result (A : Type) : Type :=
  | Ok (a : A)
  | Raise (e : exn).
Arguments Ok {A} a.
Arguments Raise {A} e.

Global Instance result_bind : MBind result := fun A B k r =>
  match r with
  | Ok a => k a
  | Raise e => Raise e
  end.

Definition is_ok {A : Type} (r : result A) : bool :=
  match r with Ok _ => true | Raise _ => false end.

(** A list comprehension whose element expression may raise: elements are
    evaluated left to right and the first exception escapes. *)
Fixpoint rmap {A B : Type} (f : A -> result B) (l : list A) : result (list B) :=
  match l with
  | [] => Ok []
  | a :: l' => b ← f a; bs ← rmap f l'; Ok (b :: bs)
  end.

(** ** Python floats *)

Module PyFloat.

Definition prec : Z := 53.
Definition emax : Z := 1024.

Definition fadd := SFadd prec emax.
Definition fsub := SFsub prec emax.
Definition fmul := SFmul prec emax.
Definition fdiv := SFdiv prec emax.
Definition fsqrt := SFsqrt prec emax.

Definition is_zero (x : spec_float) : bool :=
  match x with S754_zero _ => true | _ => false end.

Definition is_finite (x : spec_float) : bool :=
  match x with S754_zero _ | S754_finite _ _ _ => true | _ => false end.

(** The integer [z] written as an unrounded significand with exponent 0. *)
Definition exact_int (z : Z) : spec_float :=
  match z with
  | Z0 => S754_zero false
  | Zpos p => S754_finite false p 0
  | Zneg p => S754_finite true p 0
  end.

(** [float(z)] for an int: round to nearest, ties to even;
    [OverflowError] above the largest finite value. *)
Definition of_int (z : Z) : result spec_float :=
  match binary_normalize prec emax z 0 false with
  | S754_infinity _ => Raise OverflowError
  | f => Ok f
  end.

(** [a / b] on two ints: the correctly rounded quotient. *)
Definition int_true_div (a b : Z) : result spec_float :=
  if b =? 0 then Raise ZeroDivisionError
  else match fdiv (exact_int a) (exact_int b) with
       | S754_infinity _ => Raise OverflowError
       | f => Ok f
       end.

(** [x / y] on two floats. *)
Definition true_div (x y : spec_float) : result spec_float :=
  if is_zero y then Raise ZeroDivisionError else Ok (fdiv x y).

(** [x ** 2]: the libm power at exponent 2, an exact product rounded
    once; a finite base whose square is not finite is [OverflowError]. *)
Definition square (x : spec_float) : result spec_float :=
  let y := fmul x x in
  if is_finite x && negb (is_finite y) then Raise OverflowError else Ok y.

(** [math.sqrt(x)]: [ValueError] on a negative argument. *)
Definition math_sqrt (x : spec_float) : result spec_float :=
  match x with
  | S754_finite true _ _ | S754_infinity true => Raise ValueError
  | _ => Ok (fsqrt x)
  end.

(** Nearest integer to [p / q] for [q > 0], ties to the even one. *)
Definition round_half_even (p q : Z) : Z :=
  let d := p / q in
  let r := p mod q in
  match 2 * r ?= q with
  | Lt => d
  | Gt => d + 1
  | Eq => if Z.even d then d else d + 1
  end.

Definition cond_opp (s : bool) (z : Z) : Z := if s then - z else z.

(** [round(x)] with no digits argument. *)
Definition round (x : spec_float) : result Z :=
  match x with
  | S754_zero _ => Ok 0
  | S754_infinity _ => Raise OverflowError
  | S754_nan => Raise ValueError
  | S754_finite s m e =>
      Ok (cond_opp s (if 0 <=? e then Zpos m * 2 ^ e
                      else round_half_even (Zpos m) (2 ^ (- e))))
  end.

(** [int(x)]: truncation towards zero. *)
Definition to_int (x : spec_float) : result Z :=
  match x with
  | S754_zero _ => Ok 0
  | S754_infinity _ => Raise OverflowError
  | S754_nan => Raise ValueError
  | S754_finite s m e =>
      Ok (cond_opp s (if 0 <=? e then Zpos m * 2 ^ e
                      else Zpos m / 2 ^ (- e)))
  end.

End PyFloat.

(** ** Python built-ins on ints and lists *)

(** A [for] loop over a list whose body may raise. *)
Fixpoint for_each {A S : Type} (body : A -> S -> result S) (l : list A) (s : S)
  : result S :=
  match l with
  | [] => Ok s
  | a :: l' => s' ← body a s; for_each body l' s'
  end.

Definition len {A : Type} (l : list A) : Z := Z.of_nat (length l).

(** Number of elements of [range(start, stop, step)] for [step <> 0]. *)
Definition range_len (start stop step : Z) : Z :=
  if 0 <? step
  then (if start <? stop then (stop - start - 1) / step + 1 else 0)
  else (if stop <? start then (start - stop - 1) / (- step) + 1 else 0).

(** [range(start, stop, step)]; the element at index [i] is
    [start + i * step].  A zero step is [ValueError]. *)
Definition range3 (start stop step : Z) : result (list Z) :=
  if step =? 0 then Raise ValueError
  else Ok (map (fun i : nat => start + Z.of_nat i * step)
               (seq 0 (Z.to_nat (range_len start stop step)))).

(** [range(start, stop)] and [range(n)]. *)
Definition range2 (start stop : Z) : list Z :=
  map (fun i : nat => start + Z.of_nat i) (seq 0 (Z.to_nat (stop - start))).
Definition range1 (n : Z) : list Z := range2 0 n.

(** [l[i]] for [0 <= i]. *)
Definition index {A : Type} (l : list A) (i : Z) : result A :=
  if i <? 0 then Raise IndexError
  else match l !! Z.to_nat i with
       | Some a => Ok a
       | None => Raise IndexError
       end.

(** [l[a:b]]: a negative bound counts from the end, and both bounds are
    clamped to the list. *)
Definition slice {A : Type} (l : list A) (a b : Z) : list A :=
  let n := len l in
  let clamp i := if i <? 0 then Z.max 0 (i + n) else Z.min i n in
  take (Z.to_nat (clamp b - clamp a)) (drop (Z.to_nat (clamp a)) l).

Definition sum (l : list Z) : Z := fold_left Z.add l 0.

(** [str(z)] and the [{z}] of an f-string. *)
Definition str_of_int (z : Z) : string := NilZero.string_of_int (Z.to_int z).

(** ** Python strings *)

Module PyStr.

Definition code (c : ascii) : Z := Z.of_N (N_of_ascii c).

(** [c.isspace()] for a code point below 256. *)
Definition is_space (c : ascii) : bool :=
  let n := code c in
  ((9 <=? n) && (n <=? 13)) || ((28 <=? n) && (n <=? 32))
  || (n =? 133) || (n =? 160).

Fixpoint lstrip (s : string) : string :=
  match s with
  | String c s' => if is_space c then lstrip s' else s
  | EmptyString => EmptyString
  end.

Fixpoint rstrip (s : string) : string :=
  match s with
  | String c s' =>
      match rstrip s' with
      | EmptyString => if is_space c then EmptyString else String c EmptyString
      | r => String c r
      end
  | EmptyString => EmptyString
  end.

(** [s.strip()]. *)
Definition strip (s : string) : string := rstrip (lstrip s).

(** [s.split(sep)] for a one-character separator: never the empty list. *)
Fixpoint split (sep : ascii) (s : string) : list string :=
  match s with
  | EmptyString => [EmptyString]
  | String c s' =>
      if Ascii.eqb c sep then EmptyString :: split sep s'
      else match split sep s' with
           | h :: t => String c h :: t
           | [] => [String c EmptyString]
           end
  end.

Definition digit_value (c : ascii) : option Z :=
  let n := code c in
  if (48 <=? n) && (n <=? 57) then Some (n - 48) else None.

(** The rest of a digit part: digits, each optionally preceded by one
    underscore.  Returns the accumulated value, the digit count and the
    unread suffix. *)
Fixpoint digits_tail (acc count : Z) (s : string) : Z * Z * string :=
  match s with
  | EmptyString => (acc, count, s)
  | String c s' =>
      match digit_value c with
      | Some d => digits_tail (10 * acc + d) (count + 1) s'
      | None =>
          if Ascii.eqb c "_" then
            match s' with
            | String c' s'' =>
                match digit_value c' with
                | Some d => digits_tail (10 * acc + d) (count + 1) s''
                | None => (acc, count, s)
                end
            | EmptyString => (acc, count, s)
            end
          else (acc, count, s)
      end
  end.

(** A digit part continuing the digits already read into [acc]. *)
Definition digitpart (acc : Z) (s : string) : option (Z * Z * string) :=
  match s with
  | String c s' =>
      match digit_value c with
      | Some d => Some (digits_tail (10 * acc + d) 1 s')
      | None => None
      end
  | EmptyString => None
  end.

(** An optional sign. *)
Definition sign (s : string) : bool * string :=
  match s with
  | String "-" s' => (true, s')
  | String "+" s' => (false, s')
  | _ => (false, s)
  end.

(** [int(s)] in base 10. *)
Definition int_of_str (s : string) : result Z :=
  let '(neg, digits) := sign (strip s) in
  match digitpart 0 digits with
  | Some (v, _, EmptyString) => Ok (PyFloat.cond_opp neg v)
  | _ => Raise ValueError
  end.

Definition lower (c : ascii) : ascii :=
  let n := code c in
  if (65 <=? n) && (n <=? 90) then ascii_of_N (Z.to_N (n + 32)) else c.

Fixpoint lowercase (s : string) : string :=
  match s with
  | String c s' => String (lower c) (lowercase s')
  | EmptyString => EmptyString
  end.

(** The exponent part of a float literal: empty, or [e] or [E], an optional
    sign and a digit part up to the end. *)
Definition exponent (s : string) : option Z :=
  match s with
  | EmptyString => Some 0
  | String c s' =>
      if Ascii.eqb (lower c) "e" then
        let '(neg, digits) := sign s' in
        match digitpart 0 digits with
        | Some (v, _, EmptyString) => Some (PyFloat.cond_opp neg v)
        | _ => None
        end
      else None
  end.

(** The binary64 value nearest to [(-1)^neg * m * 10^e] for [0 <= m]. *)
Definition decimal_value (neg : bool) (m e : Z) : spec_float :=
  if 0 <=? e
  then binary_normalize PyFloat.prec PyFloat.emax
         (PyFloat.cond_opp neg (m * 10 ^ e)) 0 neg
  else match m with
       | Z0 => S754_zero neg
       | _ => PyFloat.fdiv (PyFloat.exact_int (PyFloat.cond_opp neg m))
                           (PyFloat.exact_int (10 ^ (- e)))
       end.

(** [float(s)]. *)
Definition float_of_str (s : string) : result spec_float :=
  let '(neg, body) := sign (strip s) in
  let word := lowercase body in
  if (word =? "inf")%string || (word =? "infinity")%string
  then Ok (S754_infinity neg)
  else if (word =? "nan")%string then Ok S754_nan
  else
    let '(m, int_digits, rest) :=
      match digitpart 0 body with
      | Some r => r
      | None => (0, 0, body)
      end in
    let '(m, frac_digits, rest) :=
      match rest with
      | String "." rest' =>
          match digitpart m rest' with
          | Some r => r
          | None => (m, 0, rest')
          end
      | _ => (m, 0, rest)
      end in
    if int_digits + frac_digits =? 0 then Raise ValueError
    else match exponent rest with
         | Some e => Ok (decimal_value neg m (e - frac_digits))
         | None => Raise ValueError
         end.

End PyStr.

(** ** Host data *)

(** [mathutils.Vector]. *)
Module Vector.
Record t : Type := { x : spec_float; y : spec_float; z : spec_float }.
End Vector.

(** [SpeedDataProcessorProperties]. *)
Record Properties : Type := {
  text_block_name : string;
  apply_averaging : bool;
  averaging_window : Z;
  use_interval : bool;
  interval : Z;
  text_before : string;
  text_after : string
}.

(** A speed record is the tuple [(frame_start, frame_end, speed)]. *)
Definition SpeedRecord : Type := Z * Z * Z.

Definition frameStart (r : SpeedRecord) : Z := r.1.1.
Definition frameEnd (r : SpeedRecord) : Z := r.1.2.
Definition speed_of (r : SpeedRecord) : Z := r.2.

(** An F-curve keyframe as handed to [keyframe_points.insert]: the frame,
    the value, and the interpolation mode set on the returned point. *)
Record Keyframe : Type := {
  key_frame : Z;
  key_value : spec_float;
  key_interpolation : string
}.

Record FCurve : Type := { data_path : string; keyframe_points : list Keyframe }.

Record Action : Type := { action_name : string; fcurves : list FCurve }.

Module Node.
Record t : Type := {
  type : string;
  name : string;
  label : string;
  location : Z * Z
}.
End Node.

(** [animation_data.action] refers to an entry of [bpy.data.actions]. *)
Record AnimData : Type := { action : option nat }.

Record NodeTree : Type := {
  nodes : list Node.t;
  animation_data : option AnimData
}.

Record Material : Type := { use_nodes : bool; node_tree : option NodeTree }.

Record Modifier : Type := {
  modifier_type : string;
  node_group : option NodeTree
}.

(** The data of a text object. *)
Module TextCurve.
Record t : Type := { body : string; size : Z; align_x : string }.
End TextCurve.

Module Object.
Record t : Type := {
  (** [location] after [scene.frame_set(frame)] *)
  location : Z -> Vector.t;
  active_material : option Material;
  modifiers : list Modifier;
  (** [data] when the object is a text object *)
  data : option TextCurve.t;
  (** keyframes put on [data.body] by [keyframe_insert] *)
  body_keyframes : list (Z * string)
}.
End Object.

(** A function on [bpy.app.handlers.frame_change_post].  [update_text] is
    the closure made by [OBJECT_OT_DisplaySpeed.execute], which captures
    the dictionary [speed_data]; any other handler is foreign. *)
Inductive Handler : Type :=
  | update_text (speed_data : gmap Z Z)
  | foreign_handler (id : nat).

(** The part of the host that the operators read and write. *)
Record bpy : Type := {
  texts : gmap string string;
  objects : gmap string Object.t;
  actions : list Action;
  context_object : option string;
  frame_start : Z;
  frame_end : Z;
  frame_current : Z;
  fps : Z;
  speed_data_processor : Properties;
  frame_change_post : list Handler
}.

Definition set_texts (t : gmap string string) (b : bpy) : bpy :=
  {| texts := t; objects := objects b; actions := actions b;
     context_object := context_object b; frame_start := frame_start b;
     frame_end := frame_end b; frame_current := frame_current b;
     fps := fps b; speed_data_processor := speed_data_processor b;
     frame_change_post := frame_change_post b |}.

Definition set_objects (o : gmap string Object.t) (b : bpy) : bpy :=
  {| texts := texts b; objects := o; actions := actions b;
     context_object := context_object b; frame_start := frame_start b;
     frame_end := frame_end b; frame_current := frame_current b;
     fps := fps b; speed_data_processor := speed_data_processor b;
     frame_change_post := frame_change_post b |}.

Definition set_actions (a : list Action) (b : bpy) : bpy :=
  {| texts := texts b; objects := objects b; actions := a;
     context_object := context_object b; frame_start := frame_start b;
     frame_end := frame_end b; frame_current := frame_current b;
     fps := fps b; speed_data_processor := speed_data_processor b;
     frame_change_post := frame_change_post b |}.

Definition set_context_object (o : option string) (b : bpy) : bpy :=
  {| texts := texts b; objects := objects b; actions := actions b;
     context_object := o; frame_start := frame_start b;
     frame_end := frame_end b; frame_current := frame_current b;
     fps := fps b; speed_data_processor := speed_data_processor b;
     frame_change_post := frame_change_post b |}.

Definition set_frame_current (f : Z) (b : bpy) : bpy :=
  {| texts := texts b; objects := objects b; actions := actions b;
     context_object := context_object b; frame_start := frame_start b;
     frame_end := frame_end b; frame_current := f;
     fps := fps b; speed_data_processor := speed_data_processor b;
     frame_change_post := frame_change_post b |}.

Definition set_frame_change_post (h : list Handler) (b : bpy) : bpy :=
  {| texts := texts b; objects := objects b; actions := actions b;
     context_object := context_object b; frame_start := frame_start b;
     frame_end := frame_end b; frame_current := frame_current b;
     fps := fps b; speed_data_processor := speed_data_processor b;
     frame_change_post := h |}.

(** [context.object]. *)
Definition active_object (b : bpy) : option Object.t :=
  name ← context_object b; objects b !! name.

(** What an operator's [execute] leaves behind: the set it returns or the
    exception that escapes, its [self.report] calls, and the host. *)
Inductive Status : Type := FINISHED | CANCELLED.
Inductive ReportType : Type := INFO | ERROR.

Record Outcome : Type := {
  returned : result Status;
  reported : list (ReportType * string);
  host : bpy
}.

(** ** [OBJECT_OT_GetSpeed] *)

(** State of the sampling loop: [prev_location] and [speed_data]. *)
Record Sampling : Type := {
  prev_location : option Vector.t;
  speed_data : list SpeedRecord
}.

(** The speed between two sampled positions, as the loop body computes it:
    [round((sqrt(dx**2 + dy**2) / (interval / fps)) * 100)]. *)
Definition measure_speed (interval fps : Z) (prev location : Vector.t)
  : result Z :=
  let dx := PyFloat.fsub (Vector.x location) (Vector.x prev) in
  let dy := PyFloat.fsub (Vector.y location) (Vector.y prev) in
  dx2 ← PyFloat.square dx;
  dy2 ← PyFloat.square dy;
  horizontal_distance ← PyFloat.math_sqrt (PyFloat.fadd dx2 dy2);
  time ← PyFloat.int_true_div interval fps;
  per_second ← PyFloat.true_div horizontal_distance time;
  hundred ← PyFloat.of_int 100;
  PyFloat.round (PyFloat.fmul per_second hundred).

(** One iteration of the loop, after [scene.frame_set(frame)]. *)
Definition sample_frame (interval fps : Z) (location_at : Z -> Vector.t)
    (frame : Z) (acc : Sampling) : result Sampling :=
  let location := location_at frame in
  data ← match prev_location acc with
         | None => Ok (speed_data acc)
         | Some prev =>
             speed ← measure_speed interval fps prev location;
             Ok (speed_data acc ++ [(frame - interval, frame, speed)])
         end;
  Ok {| prev_location := Some location; speed_data := data |}.

(** The loop over the sampled frames.  The second component is the scene's
    current frame when the loop ends or an exception escapes. *)
Fixpoint sample_frames (interval fps : Z) (location_at : Z -> Vector.t)
    (frames : list Z) (current : Z) (acc : Sampling) : result Sampling * Z :=
  match frames with
  | [] => (Ok acc, current)
  | frame :: rest =>
      match sample_frame interval fps location_at frame acc with
      | Ok acc' => sample_frames interval fps location_at rest frame acc'
      | Raise e => (Raise e, frame)
      end
  end.

(** The frames of [range(start_frame, end_frame + 1, interval)]. *)
Definition sampled_frames (start_frame end_frame interval : Z)
  : result (list Z) :=
  range3 start_frame (end_frame + 1) interval.

(** Lines 81 to 97: the records of a run, and the frame the scene is left at. *)
Definition sampling_pass (start_frame end_frame interval fps : Z)
    (location_at : Z -> Vector.t) (current : Z)
  : result (list SpeedRecord) * Z :=
  match sampled_frames start_frame end_frame interval with
  | Raise e => (Raise e, current)
  | Ok frames =>
      let '(r, current') :=
        sample_frames interval fps location_at frames current
          {| prev_location := None; speed_data := [] |} in
      (acc ← r; Ok (speed_data acc), current')
  end.

(** Lines 99 to 107: the moving average. *)
Definition average_at (averaging_window : Z) (speed_data : list SpeedRecord)
    (i : Z) : result SpeedRecord :=
  let window_start := Z.max 0 (i - averaging_window / 2) in
  let window_end := Z.min (len speed_data) (i + averaging_window / 2 + 1) in
  let window := slice speed_data window_start window_end in
  avg_speed ← PyFloat.int_true_div (sum (map speed_of window)) (len window);
  d ← index speed_data i;
  rounded ← PyFloat.round avg_speed;
  Ok (frameStart d, frameEnd d, rounded).

Definition averaging_pass (averaging_window : Z) (speed_data : list SpeedRecord)
  : result (list SpeedRecord) :=
  for_each (fun i averaged_data =>
              r ← average_at averaging_window speed_data i;
              Ok (averaged_data ++ [r]))
           (range1 (len speed_data)) [].

(** Lines 109 and 110: one [write] per record. *)
Definition format_record (r : SpeedRecord) : string :=
  str_of_int (frameStart r) +:+ "," +:+ str_of_int (frameEnd r) +:+ ","
    +:+ str_of_int (speed_of r) +:+ String "010" "".

Definition write_records (speed_data : list SpeedRecord) (text : string)
  : string :=
  fold_left (fun t r => t +:+ format_record r) speed_data text.

(** [execute].  [bpy.data.texts.new] is taken to give the block the name
    it is asked for. *)
Definition GetSpeed_execute (b : bpy) : Outcome :=
  let props := speed_data_processor b in
  match active_object b with
  | None =>
      {| returned := Ok CANCELLED;
         reported := [(ERROR, "No object selected")]; host := b |}
  | Some obj =>
      let start_frame := frame_start b in
      let end_frame := frame_end b in
      let interval := if use_interval props then interval props else 1 in
      (* create or clear the text block *)
      let b1 :=
        match texts b !! text_block_name props with
        | Some _ => set_texts (<[text_block_name props := ""]> (texts b)) b
        | None => set_texts (<[text_block_name props := ""]> (texts b)) b
        end in
      let '(sampled, current) :=
        sampling_pass start_frame end_frame interval (fps b)
          (Object.location obj) (frame_current b1) in
      let b2 := set_frame_current current b1 in
      match
        speed_data ← sampled;
        if apply_averaging props
        then averaging_pass (averaging_window props) speed_data
        else Ok speed_data
      with
      | Raise e => {| returned := Raise e; reported := []; host := b2 |}
      | Ok speed_data =>
          {| returned := Ok FINISHED;
             reported := [(INFO, "Speed data recorded")];
             host := set_texts
                       (alter (write_records speed_data)
                          (text_block_name props) (texts b2)) b2 |}
      end
  end.

(** ** Reading the text block back *)

Definition newline : ascii := "010".

(** [[line.split(',') for line in text.strip().split('\n')]]. *)
Definition frame_data_of (speed_data_text : string) : list (list string) :=
  map (PyStr.split ",") (PyStr.split newline (PyStr.strip speed_data_text)).

(** [[int(data[1]) for data in frame_data]]. *)
Definition frame_numbers_of (frame_data : list (list string)) : result (list Z) :=
  rmap (fun data => field ← index data 1; PyStr.int_of_str field) frame_data.

(** [[float(data[2]) for data in frame_data]]. *)
Definition speeds_of (frame_data : list (list string))
  : result (list spec_float) :=
  rmap (fun data => field ← index data 2; PyStr.float_of_str field) frame_data.

(** What the two transfer operators read: the frame numbers, then the
    speeds. *)
Definition read_series (speed_data_text : string)
  : result (list Z * list spec_float) :=
  let frame_data := frame_data_of speed_data_text in
  frame_numbers ← frame_numbers_of frame_data;
  speeds ← speeds_of frame_data;
  Ok (frame_numbers, speeds).

(** Line 268 to 270 of [parse_speed_data]: the three targets are unpacked
    from the lazy [map(float, ...)], which converts a fourth field, if
    any, before the unpacking fails; then the frames go through [int]. *)
Definition parse_line (line : string) : result (Z * Z * spec_float) :=
  floats ← rmap PyStr.float_of_str (take 4 (PyStr.split "," line));
  match floats with
  | [frame_start; frame_end; speed] =>
      frame_start ← PyFloat.to_int frame_start;
      frame_end ← PyFloat.to_int frame_end;
      Ok (frame_start, frame_end, speed)
  | _ => Raise ValueError
  end.

(** Lines 271 and 272: [speed_data[frame] = round(speed)] over the
    inclusive frame range of a record. *)
Definition expand_record (r : Z * Z * spec_float) (speed_data : gmap Z Z)
  : result (gmap Z Z) :=
  let '(frame_start, frame_end, speed) := r in
  for_each (fun frame d => rounded ← PyFloat.round speed;
                           Ok (<[frame := rounded]> d))
           (range2 frame_start (frame_end + 1)) speed_data.

Definition parse_lines (lines : list string) (speed_data : gmap Z Z)
  : result (gmap Z Z) :=
  for_each (fun line d => r ← parse_line line; expand_record r d)
           lines speed_data.

Definition parse_speed_data (text_block_name : string)
    (texts : gmap string string) : result (gmap Z Z) :=
  match texts !! text_block_name with
  | Some speed_data_text =>
      parse_lines (PyStr.split newline (PyStr.strip speed_data_text)) ∅
  | None => Ok ∅
  end.

(** [speed_data.get(current_frame, 0)]. *)
Definition lookup_speed (speed_data : gmap Z Z) (current_frame : Z) : Z :=
  default 0 (speed_data !! current_frame).

(** ** The transfer operators *)

Section Host.

(** The host's calls are taken to succeed.  Two of its policies are left
    open: the name the host gives a node that asks for [name] in a tree
    whose other nodes are called [taken], and the tree a material gets when
    nodes are first switched on. *)
Variable unique_name : list string -> string -> string.
Variable default_node_tree : NodeTree.

Definition quote : ascii := "034".

Definition value_data_path (node_name : string) : string :=
  "nodes[" +:+ String quote node_name
    +:+ String quote "].outputs[0].default_value".

(** Lines 161 to 163: one [insert] per pair, each point set to constant
    interpolation. *)
Definition insert_keyframes (frame_numbers : list Z) (speeds : list spec_float)
  : list Keyframe :=
  fold_left (fun points '(frame, speed) =>
               points ++ [{| key_frame := frame; key_value := speed;
                             key_interpolation := "CONSTANT" |}])
            (zip frame_numbers speeds) [].

Definition add_fcurve (c : FCurve) (a : Action) : Action :=
  {| action_name := action_name a; fcurves := fcurves a ++ [c] |}.

(** Lines 145 to 163, and 209 to 227: the value node, the animation data,
    the action and its new curve. *)
Definition animate_value_node (new_action_name : string)
    (frame_numbers : list Z) (speeds : list spec_float)
    (tree : NodeTree) (acts : list Action) : NodeTree * list Action :=
  let value_node :=
    {| Node.type := "ShaderNodeValue";
       Node.name := unique_name (map Node.name (nodes tree)) "Speed Value";
       Node.label := "Speed Value";
       Node.location := (0, 0) |} in
  let anim :=
    match animation_data tree with
    | None => {| action := None |}
    | Some a => a
    end in
  let '(id, acts) :=
    match action anim with
    | Some id => (id, acts)
    | None =>
        (length acts,
         acts ++ [{| action_name := new_action_name; fcurves := [] |}])
    end in
  let fcurve :=
    {| data_path := value_data_path (Node.name value_node);
       keyframe_points := insert_keyframes frame_numbers speeds |} in
  ({| nodes := nodes tree ++ [value_node];
      animation_data := Some {| action := Some id |} |},
   alter (add_fcurve fcurve) id acts).

Definition set_active_material (m : Material) (o : Object.t) : Object.t :=
  {| Object.location := Object.location o;
     Object.active_material := Some m;
     Object.modifiers := Object.modifiers o;
     Object.data := Object.data o;
     Object.body_keyframes := Object.body_keyframes o |}.

Definition set_modifiers (ms : list Modifier) (o : Object.t) : Object.t :=
  {| Object.location := Object.location o;
     Object.active_material := Object.active_material o;
     Object.modifiers := ms;
     Object.data := Object.data o;
     Object.body_keyframes := Object.body_keyframes o |}.

Definition store_object (name : option string) (o : Object.t) (b : bpy) : bpy :=
  match name with
  | Some n => set_objects (<[n := o]> (objects b)) b
  | None => b
  end.

Definition TransferToShaderEditor_execute (b : bpy) : Outcome :=
  let props := speed_data_processor b in
  match texts b !! text_block_name props with
  | None =>
      {| returned := Ok CANCELLED;
         reported := [(ERROR, "No text block named '"
                                +:+ text_block_name props +:+ "' found")];
         host := b |}
  | Some speed_data_text =>
      let frame_data := frame_data_of speed_data_text in
      match active_object b with
      | None => {| returned := Raise AttributeError; reported := []; host := b |}
      | Some obj =>
          match Object.active_material obj with
          | None =>
              {| returned := Ok CANCELLED;
                 reported := [(ERROR, "Active object has no material")];
                 host := b |}
          | Some material =>
              (* material.use_nodes = True *)
              let tree := default default_node_tree (node_tree material) in
              let with_nodes t :=
                store_object (context_object b)
                  (set_active_material
                     {| use_nodes := true; node_tree := Some t |} obj) b in
              match
                frame_numbers ← frame_numbers_of frame_data;
                speeds ← speeds_of frame_data;
                Ok (frame_numbers, speeds)
              with
              | Raise e =>
                  {| returned := Raise e; reported := [];
                     host := with_nodes tree |}
              | Ok (frame_numbers, speeds) =>
                  let '(tree', acts) :=
                    animate_value_node "SpeedAction" frame_numbers speeds
                      tree (actions b) in
                  {| returned := Ok FINISHED;
                     reported :=
                       [(INFO, "Speed data transferred to Shader Editor")];
                     host := set_actions acts (with_nodes tree') |}
              end
          end
      end
  end.

(** The first modifier of type [NODES], with its position. *)
Fixpoint find_nodes_modifier (i : nat) (ms : list Modifier)
  : option (nat * Modifier) :=
  match ms with
  | [] => None
  | m :: ms' =>
      if (modifier_type m =? "NODES")%string then Some (i, m)
      else find_nodes_modifier (S i) ms'
  end.

Definition TransferToGeoNodes_execute (b : bpy) : Outcome :=
  let props := speed_data_processor b in
  match texts b !! text_block_name props with
  | None =>
      {| returned := Ok CANCELLED;
         reported := [(ERROR, "No text block named '"
                                +:+ text_block_name props +:+ "' found")];
         host := b |}
  | Some speed_data_text =>
      let frame_data := frame_data_of speed_data_text in
      match active_object b with
      | None => {| returned := Raise AttributeError; reported := []; host := b |}
      | Some obj =>
          match find_nodes_modifier 0 (Object.modifiers obj) with
          | None =>
              {| returned := Ok CANCELLED;
                 reported :=
                   [(ERROR, "Active object has no Geometry Nodes modifier")];
                 host := b |}
          | Some (i, modifier) =>
              match node_group modifier with
              | None =>
                  {| returned := Raise AttributeError; reported := [];
                     host := b |}
              | Some tree =>
                  match
                    frame_numbers ← frame_numbers_of frame_data;
                    speeds ← speeds_of frame_data;
                    Ok (frame_numbers, speeds)
                  with
                  | Raise e =>
                      {| returned := Raise e; reported := []; host := b |}
                  | Ok (frame_numbers, speeds) =>
                      let '(tree', acts) :=
                        animate_value_node "GeoNodesSpeedAction"
                          frame_numbers speeds tree (actions b) in
                      let modifier' :=
                        {| modifier_type := modifier_type modifier;
                           node_group := Some tree' |} in
                      {| returned := Ok FINISHED;
                         reported :=
                           [(INFO, "Speed data transferred to Geometry Nodes")];
                         host :=
                           set_actions acts
                             (store_object (context_object b)
                                (set_modifiers
                                   (<[i := modifier']> (Object.modifiers obj))
                                   obj) b) |}
                  end
              end
          end
      end
  end.

End Host.

(** ** [OBJECT_OT_DisplaySpeed] *)

Definition origin : Vector.t :=
  {| Vector.x := S754_zero false; Vector.y := S754_zero false;
     Vector.z := S754_zero false |}.

(** The object made by [bpy.ops.object.text_add] once it is renamed and
    its body, size and alignment are set. *)
Definition new_speed_text : Object.t :=
  {| Object.location := fun _ => origin;
     Object.active_material := None;
     Object.modifiers := [];
     Object.data := Some {| TextCurve.body := "0"; TextCurve.size := 1;
                            TextCurve.align_x := "CENTER" |};
     Object.body_keyframes := [] |}.

Definition DisplaySpeed_execute (b : bpy) : Outcome :=
  let props := speed_data_processor b in
  let b1 :=
    match objects b !! "SpeedText" with
    | None =>
        set_context_object (Some "SpeedText")
          (set_objects (<["SpeedText" := new_speed_text]> (objects b)) b)
    | Some _ => b
    end in
  match parse_speed_data (text_block_name props) (texts b1) with
  | Raise e => {| returned := Raise e; reported := []; host := b1 |}
  | Ok speed_data =>
      (* frame_change_post.clear(), then append(update_text) *)
      let handlers := [] ++ [update_text speed_data] in
      {| returned := Ok FINISHED;
         reported :=
           [(INFO, "Text object created and updated with speed data")];
         host := set_frame_change_post handlers b1 |}
  end.


(** ** [SpeedDataProcessorPanel] *)

(** The [bl_idname] of the four operators. *)
Definition GetSpeed_bl_idname : string := "object.get_speed".
Definition TransferToShaderEditor_bl_idname : string :=
  "object.transfer_to_shader_editor".
Definition TransferToGeoNodes_bl_idname : string :=
  "object.transfer_to_geonodes".
Definition DisplaySpeed_bl_idname : string := "object.display_speed".

(** A call on the panel's layout: [layout.prop(props, property)] or
    [layout.operator(idname, text=text)]. *)
Inductive LayoutItem : Type :=
  | layout_prop (property : string)
  | layout_operator (idname text : string).

(** [draw]: the calls it makes on [self.layout], in order. *)
Definition draw (props : Properties) : list LayoutItem :=
  let layout := [layout_prop "text_block_name"] in
  let layout := layout ++ [layout_prop "apply_averaging"] in
  let layout :=
    if apply_averaging props
    then layout ++ [layout_prop "averaging_window"]
    else layout in
  let layout := layout ++ [layout_prop "use_interval"] in
  let layout :=
    if use_interval props
    then layout ++ [layout_prop "interval"]
    else layout in
  let layout := layout ++ [layout_prop "text_before"] in
  let layout := layout ++ [layout_prop "text_after"] in
  let layout := layout ++ [layout_operator "object.get_speed" "Get Speed"] in
  let layout :=
    layout ++ [layout_operator "object.transfer_to_shader_editor"
                 "Transfer to Shader Editor"] in
  let layout :=
    layout ++ [layout_operator "object.transfer_to_geonodes"
                 "Transfer to GeoNodes"] in
  layout ++ [layout_operator "object.display_speed" "Display Speed as Text"].

(** ** The speeds a transfer prints *)

(** [max(l)] and [min(l)] on floats: the first item is kept until a later
    one compares greater, or less; the empty list is [ValueError]. *)
Definition py_max (l : list spec_float) : result spec_float :=
  match l with
  | [] => Raise ValueError
  | first :: rest =>
      Ok (fold_left (fun best item => if SFltb best item then item else best)
            rest first)
  end.

Definition py_min (l : list spec_float) : result spec_float :=
  match l with
  | [] => Raise ValueError
  | first :: rest =>
      Ok (fold_left (fun best item => if SFltb item best then item else best)
            rest first)
  end.

(** Lines 166 and 167, and 230 and 231: [max_speed] and [min_speed]. *)
Definition speed_extremes (speeds : list spec_float)
  : result (spec_float * spec_float) :=
  max_speed ← py_max speeds;
  min_speed ← py_min speeds;
  Ok (max_speed, min_speed).

(** * Vocabulary of the statements *)

(** ** The sampling pass *)

(** The stride of a run. *)
Definition stride (props : Properties) : Z :=
  if use_interval props then interval props else 1.

(** Number of records of a run over [[start, stop]] at stride [step]. *)
Definition record_count (start stop step : Z) : nat :=
  Z.to_nat (Z.max 0 ((stop - start) / step)).

(** [frames] continue an arithmetic progression of step [step] after
    [prev]. *)
Fixpoint stepped (step prev : Z) (frames : list Z) : Prop :=
  match frames with
  | [] => True
  | f :: rest => f = prev + step /\ stepped step f rest
  end.

(** The record the loop emits on reaching [frame]. *)
Definition record_at (interval fps : Z) (location_at : Z -> Vector.t)
    (frame : Z) : result SpeedRecord :=
  speed ← measure_speed interval fps (location_at (frame - interval))
            (location_at frame);
  Ok (frame - interval, frame, speed).

(** The records a run of [OBJECT_OT_GetSpeed] computes on object [obj]:
    the sampling pass, then the smoothing if it is switched on. *)
Definition computed_records (b : bpy) (obj : Object.t)
  : result (list SpeedRecord) :=
  let props := speed_data_processor b in
  speed_data ← (sampling_pass (frame_start b) (frame_end b) (stride props)
                  (fps b) (Object.location obj) (frame_current b)).1;
  if apply_averaging props
  then averaging_pass (averaging_window props) speed_data
  else Ok speed_data.

(** ** Integers in binary64 *)

(** An integer that a binary64 float holds exactly: its odd part fits the
    53-bit significand.  Every value of [round] on a float is one. *)
Definition binary64_int (z : Z) : Prop :=
  exists m e, z = m * 2 ^ e /\ Z.abs m < 2 ^ 53 /\ 0 <= e <= 971.

(** The three integers of a record are held exactly by binary64. *)
Definition binary64_record (r : SpeedRecord) : Prop :=
  binary64_int (frameStart r) /\ binary64_int (frameEnd r)
  /\ binary64_int (speed_of r).

(** A float whose significand has at most 53 bits and whose exponent is in
    range. *)
Definition bounded_float (f : spec_float) : Prop :=
  match f with
  | S754_finite _ m e => Zpos m < 2 ^ 53 /\ e <= 971
  | _ => True
  end.

(** The float [f] is finite and its value is exactly the integer [z]. *)
Definition holds_int (f : spec_float) (z : Z) : Prop :=
  match f with
  | S754_zero _ => z = 0
  | S754_finite s m e =>
      PyFloat.cond_opp s (Zpos m) * 2 ^ Z.max 0 e = z * 2 ^ Z.max 0 (- e)
  | _ => False
  end.

(** The float nearest to an integer, as [float] makes it. *)
Definition nearest_float (z : Z) : spec_float :=
  binary_normalize PyFloat.prec PyFloat.emax z 0 false.

(** ** The moving average *)

(** The elements at positions [i - h] to [i + h] that exist. *)
Definition centered_window (h : nat) (speeds : list Z) (i : nat) : list Z :=
  take (Nat.min (length speeds) (i + h + 1) - (i - h)) (drop (i - h) speeds).

(** [round(sum(l) / len(l))]. *)
Definition rounded_mean (l : list Z) : result Z :=
  avg ← PyFloat.int_true_div (sum l) (len l); PyFloat.round avg.

(** ** The text of a run *)

(** Every character of [s] satisfies [P]. *)
Fixpoint string_forall (P : ascii -> bool) (s : string) : bool :=
  match s with
  | EmptyString => true
  | String c s' => P c && string_forall P s'
  end.

(** The characters of a decimal integer: a digit or a minus sign. *)
Definition is_int_char (c : ascii) : bool :=
  match PyStr.digit_value c with Some _ => true | None => Ascii.eqb c "-" end.

(** The characters of a record line. *)
Definition line_char (c : ascii) : bool := is_int_char c || Ascii.eqb c ",".

(** The digits [d] read after the number [acc]. *)
Fixpoint uint_value (acc : Z) (d : Decimal.uint) : Z :=
  match d with
  | Decimal.Nil => acc
  | Decimal.D0 d => uint_value (10 * acc + 0) d
  | Decimal.D1 d => uint_value (10 * acc + 1) d
  | Decimal.D2 d => uint_value (10 * acc + 2) d
  | Decimal.D3 d => uint_value (10 * acc + 3) d
  | Decimal.D4 d => uint_value (10 * acc + 4) d
  | Decimal.D5 d => uint_value (10 * acc + 5) d
  | Decimal.D6 d => uint_value (10 * acc + 6) d
  | Decimal.D7 d => uint_value (10 * acc + 7) d
  | Decimal.D8 d => uint_value (10 * acc + 8) d
  | Decimal.D9 d => uint_value (10 * acc + 9) d
  end.

(** A record's line without its newline. *)
Definition record_line (r : SpeedRecord) : string :=
  str_of_int (frameStart r) +:+ "," +:+ str_of_int (frameEnd r) +:+ ","
    +:+ str_of_int (speed_of r).

(** Lines with a newline between each two. *)
Fixpoint joined (lines : list string) : string :=
  match lines with
  | [] => EmptyString
  | [l] => l
  | l :: ls => l +:+ String newline (joined ls)
  end.



(** The record [t] of a parsed series covers [frame]. *)
Definition covers (t : Z * Z * spec_float) (frame : Z) : Prop :=
  t.1.1 <= frame <= t.1.2.

(** ** The animation curve *)

(** The keyframe the transfer operators make of a frame and a speed. *)
Definition constant_key (frame : Z) (speed : spec_float) : Keyframe :=
  {| key_frame := frame; key_value := speed; key_interpolation := "CONSTANT" |}.

(** The action a tree is animated by, if any. *)
Definition tree_action (tree : NodeTree) : option nat :=
  anim ← animation_data tree; action anim.

(** How the actions of the host change when [curve] is added for [tree]:
    the action of the tree is reused when it has one, the curve going at
    the end of its curves and no action being made; a new action holding
    the curve is made when the tree has none. *)
Definition curve_added (new_action_name : string) (curve : FCurve)
    (tree : NodeTree) (id : nat) (acts acts' : list Action) : Prop :=
  match tree_action tree with
  | Some old =>
      id = old /\ length acts' = length acts
      /\ (forall a, acts !! old = Some a ->
            acts' !! old = Some (add_fcurve curve a))
      /\ (forall j, j <> old -> acts' !! j = acts !! j)
  | None =>
      id = length acts
      /\ acts' = acts ++ [{| action_name := new_action_name;
                             fcurves := [curve] |}]
  end.

(** The tree once [value_node] is added and it is animated by action [id]. *)
Definition with_value_node (tree : NodeTree) (value_node : Node.t) (id : nat)
  : NodeTree :=
  {| nodes := nodes tree ++ [value_node];
     animation_data := Some {| action := Some id |} |}.

(** ** Example hosts *)

(** The properties as registered. *)
Definition default_props : Properties :=
  {| text_block_name := "speed_data"; apply_averaging := false;
     averaging_window := 5; use_interval := false; interval := 1;
     text_before := ""; text_after := "" |}.

(** An object that moves 100 units along x each frame. *)
Definition runner : Object.t :=
  {| Object.location := fun frame =>
       {| Vector.x := nearest_float (100 * frame);
          Vector.y := S754_zero false; Vector.z := S754_zero false |};
     Object.active_material := None;
     Object.modifiers := [];
     Object.data := None;
     Object.body_keyframes := [] |}.

(** A scene over the frames [first] to [last] with [runner] active, no
    text block, and two frame-change handlers of other add-ons. *)
Definition example_host (first last rate : Z) : bpy :=
  {| texts := ∅;
     objects := {["Runner" := runner]};
     actions := [];
     context_object := Some "Runner";
     frame_start := first;
     frame_end := last;
     frame_current := first;
     fps := rate;
     speed_data_processor := default_props;
     frame_change_post := [foreign_handler 1; foreign_handler 2] |}.

(** An object with a material without nodes and a geometry-nodes modifier
    on an empty node group. *)
Definition painted_runner : Object.t :=
  {| Object.location := Object.location runner;
     Object.active_material := Some {| use_nodes := false; node_tree := None |};
     Object.modifiers :=
       [{| modifier_type := "NODES";
           node_group := Some {| nodes := []; animation_data := None |} |}];
     Object.data := None;
     Object.body_keyframes := [] |}.

(** A host with [painted_runner] active and the records of two steps in
    the text block. *)
Definition painted_host : bpy :=
  {| texts :=
       {["speed_data" := write_records [(0, 1, 240000); (1, 2, 240000)] ""]};
     objects := {["Runner" := painted_runner]};
     actions := [];
     context_object := Some "Runner";
     frame_start := 0;
     frame_end := 2;
     frame_current := 2;
     fps := 24;
     speed_data_processor := default_props;
     frame_change_post := [] |}.

(** ** The properties of a scene *)

Definition set_speed_data_processor (p : Properties) (b : bpy) : bpy :=
  {| texts := texts b; objects := objects b; actions := actions b;
     context_object := context_object b; frame_start := frame_start b;
     frame_end := frame_end b; frame_current := frame_current b;
     fps := fps b; speed_data_processor := p;
     frame_change_post := frame_change_post b |}.

(** [props.interval = k] and [props.averaging_window = w]. *)
Definition set_interval (k : Z) (p : Properties) : Properties :=
  {| text_block_name := text_block_name p;
     apply_averaging := apply_averaging p;
     averaging_window := averaging_window p;
     use_interval := use_interval p; interval := k;
     text_before := text_before p; text_after := text_after p |}.

Definition set_averaging_window (w : Z) (p : Properties) : Properties :=
  {| text_block_name := text_block_name p;
     apply_averaging := apply_averaging p;
     averaging_window := w;
     use_interval := use_interval p; interval := interval p;
     text_before := text_before p; text_after := text_after p |}.

(** The scene [example_host 0 5 24] sampled every second frame and
    smoothed over three records, the overlay reading [v = ... cm/s]. *)
Definition strided_host : bpy :=
  set_speed_data_processor
    {| text_block_name := "speed_data"; apply_averaging := true;
       averaging_window := 3; use_interval := true; interval := 2;
       text_before := "v = "; text_after := " cm/s" |}
    (example_host 0 5 24).

(** [runner] climbing one unit each frame as it moves. *)
Definition climber : Object.t :=
  {| Object.location := fun frame =>
       {| Vector.x := nearest_float (100 * frame);
          Vector.y := S754_zero false; Vector.z := nearest_float frame |};
     Object.active_material := None;
     Object.modifiers := [];
     Object.data := None;
     Object.body_keyframes := [] |}.

(** The exceptions of arithmetic: the ones a run of the sampler can end in. *)
Definition arithmetic_exn (e : exn) : Prop :=
  e = ValueError \/ e = ZeroDivisionError \/ e = OverflowError.

(** Two positions over the same point of the ground plane. *)
Definition same_plane (u v : Vector.t) : Prop :=
  Vector.x u = Vector.x v /\ Vector.y u = Vector.y v.

(** ** Signs of floats *)

(** [f] is a number whose sign bit is [s]. *)
Definition has_sign (s : bool) (f : spec_float) : Prop :=
  match f with
  | S754_nan => False
  | S754_zero s' | S754_infinity s' | S754_finite s' _ _ => s' = s
  end.

(** [f] is not a number, or its sign bit is clear. *)
Definition not_negative (f : spec_float) : Prop :=
  match f with
  | S754_nan => True
  | _ => has_sign false f
  end.

(** ** What a transfer may change *)

(** The actions [acts'] keep every action of [acts] in place, with its
    name and with its curves as the first curves, and add at most one. *)
Definition actions_extended (acts acts' : list Action) : Prop :=
  (length acts <= length acts' <= length acts + 1)%nat
  /\ forall (j : nat) (a : Action), acts !! j = Some a ->
       exists a', acts' !! j = Some a'
                  /\ action_name a' = action_name a
                  /\ fcurves a `prefix_of` fcurves a'.

(** The host [h] differs from [b] in the active object and the actions
    only, and the actions are extended. *)
Definition only_animated (b h : bpy) : Prop :=
  texts h = texts b
  /\ context_object h = context_object b
  /\ frame_start h = frame_start b /\ frame_end h = frame_end b
  /\ frame_current h = frame_current b /\ fps h = fps b
  /\ speed_data_processor h = speed_data_processor b
  /\ frame_change_post h = frame_change_post b
  /\ (forall name, context_object b <> Some name ->
        objects h !! name = objects b !! name)
  /\ actions_extended (actions b) (actions h).

(** No modifier of [obj] is a geometry-nodes modifier. *)
Definition no_nodes_modifier (obj : Object.t) : Prop :=
  Forall (fun m => modifier_type m <> "NODES") (Object.modifiers obj).

(** The node tree of the active object's material, or of its first
    geometry-nodes modifier, is animated by an action. *)
Definition material_animated (h : bpy) : Prop :=
  exists obj material tree,
    active_object h = Some obj
    /\ Object.active_material obj = Some material
    /\ node_tree material = Some tree /\ is_Some (tree_action tree).

Definition modifier_animated (h : bpy) : Prop :=
  exists obj i modifier tree,
    active_object h = Some obj
    /\ find_nodes_modifier 0 (Object.modifiers obj) = Some (i, modifier)
    /\ node_group modifier = Some tree /\ is_Some (tree_action tree).


(** ** More example hosts *)


(** [painted_host] with a line of two fields in the text block. *)
Definition unreadable_host : bpy :=
  set_texts {["speed_data" := "1,2"]} painted_host.


(** ** Reflections *)

(** [v] is [u] with x negated when [flip_x] is set and y negated when
    [flip_y] is set; z is free. *)
Definition reflected (flip_x flip_y : bool) (u v : Vector.t) : Prop :=
  Vector.x v = (if flip_x then SFopp (Vector.x u) else Vector.x u)
  /\ Vector.y v = (if flip_y then SFopp (Vector.y u) else Vector.y u).

(** Two differences with the same square. *)
Definition opposite_or_zero (d d' : spec_float) : Prop :=
  d' = SFopp d \/ d' = d.

(** [runner] moving the other way along x. *)
Definition backward_runner : Object.t :=
  {| Object.location := fun frame =>
       {| Vector.x := SFopp (nearest_float (100 * frame));
          Vector.y := S754_zero false; Vector.z := S754_zero false |};
     Object.active_material := None;
     Object.modifiers := [];
     Object.data := None;
     Object.body_keyframes := [] |}.

(** ** Magnitudes *)

(** [f] is a number of magnitude below [2 ^ K]. *)
Definition below (K : Z) (f : spec_float) : Prop :=
  match f with
  | S754_zero _ => True
  | S754_finite _ m e => Zdigits2 (Zpos m) + e <= K
  | _ => False
  end.

(** [f] is positive, finite, and at least [2 ^ (L - 1)]. *)
Definition positive_above (L : Z) (f : spec_float) : Prop :=
  match f with
  | S754_finite false m e => L <= Zdigits2 (Zpos m) + e
  | _ => False
  end.

(** From frame [first] to frame [last] the position of [obj] has x and y
    of magnitude below [2 ^ 400]. *)
Definition moderate_path (first last : Z) (obj : Object.t) : Prop :=
  forall frame, first <= frame <= last ->
    below 400 (Vector.x (Object.location obj frame))
    /\ below 400 (Vector.y (Object.location obj frame)).

(** * Properties *)

(** ** Loops and comprehensions *)

Lemma bind_Ok {A B : Type} (r : result A) (k : A -> result B) (b : B) :
  r ≫= k = Ok b -> exists a, r = Ok a /\ k a = Ok b.
Proof. destruct r as [a|e]; simpl; [eauto | discriminate]. Qed.

Lemma rmap_length {A B : Type} (f : A -> result B) (l : list A) (bs : list B) :
  rmap f l = Ok bs -> length bs = length l.
Proof.
  revert bs. induction l as [|a l IH]; simpl; intros bs H.
  - injection H as <-. reflexivity.
  - apply bind_Ok in H as (b & _ & H). apply bind_Ok in H as (bs' & Hbs & H).
    injection H as <-. simpl. f_equal. auto.
Qed.

Lemma rmap_lookup {A B : Type} (f : A -> result B) (l : list A) (bs : list B)
    (i : nat) (a : A) :
  rmap f l = Ok bs -> l !! i = Some a ->
  exists b, bs !! i = Some b /\ f a = Ok b.
Proof.
  revert bs i. induction l as [|a' l IH]; simpl; intros bs i H Hi; [done|].
  apply bind_Ok in H as (b & Hb & H). apply bind_Ok in H as (bs' & Hbs & H).
  injection H as <-. destruct i as [|i]; simpl in *.
  - injection Hi as ->. eauto.
  - eauto.
Qed.

Lemma rmap_is_ok {A B : Type} (f : A -> result B) (l : list A) :
  is_ok (rmap f l) = forallb (fun a => is_ok (f a)) l.
Proof.
  induction l as [|a l IH]; simpl; [reflexivity|].
  destruct (f a); simpl; [|reflexivity].
  rewrite <- IH. destruct (rmap f l); reflexivity.
Qed.

Lemma rmap_map {A B C : Type} (g : A -> B) (f : B -> result C) (l : list A) :
  rmap f (map g l) = rmap (fun a => f (g a)) l.
Proof. induction l as [|a l IH]; simpl; [|rewrite IH]; reflexivity. Qed.

(** A loop that appends one computed element per iteration is the
    comprehension over the same list. *)
Lemma for_each_append {A B : Type} (f : A -> result B) (l : list A)
    (s : list B) :
  for_each (fun a acc => b ← f a; Ok (acc ++ [b])) l s
  = (bs ← rmap f l; Ok (s ++ bs)).
Proof.
  revert s. induction l as [|a l IH]; intros s; simpl.
  - rewrite app_nil_r. reflexivity.
  - destruct (f a) as [b|e]; simpl; [|reflexivity].
    rewrite IH. destruct (rmap f l); simpl; [|reflexivity].
    rewrite <- app_assoc. reflexivity.
Qed.

(** ** The frames of a run *)

Lemma range_len_up (start stop step : Z) :
  1 <= step ->
  range_len start (stop + 1) step
  = if start <=? stop then (stop - start) / step + 1 else 0.
Proof.
  intros Hstep. unfold range_len.
  destruct (Z.ltb_spec 0 step); [|lia].
  destruct (Z.ltb_spec start (stop + 1)), (Z.leb_spec start stop); try lia.
  f_equal. f_equal. lia.
Qed.

Lemma sampled_frames_eq (start stop step : Z) :
  1 <= step ->
  sampled_frames start stop step
  = Ok (if start <=? stop
        then map (fun i : nat => start + Z.of_nat i * step)
               (seq 0 (S (record_count start stop step)))
        else []).
Proof.
  intros Hstep. unfold sampled_frames, range3, record_count.
  destruct (Z.eqb_spec step 0); [lia|].
  rewrite range_len_up by done.
  destruct (Z.leb_spec start stop); [|reflexivity].
  assert (0 <= (stop - start) / step) by (apply Z.div_pos; lia).
  do 3 f_equal. lia.
Qed.

Lemma stepped_map (step start : Z) (n : nat) :
  stepped step start
    (map (fun i : nat => start + Z.of_nat (S i) * step) (seq 0 n)).
Proof.
  revert start. induction n as [|n IH]; intros start; [done|].
  rewrite <- cons_seq, <- seq_shift, map_cons, map_map.
  change (Z.of_nat 1) with 1.
  replace (start + 1 * step) with (start + step) by lia.
  split; [reflexivity|].
  erewrite map_ext; [exact (IH (start + step))|].
  intros i. cbv beta. lia.
Qed.

Lemma sample_frames_spec (interval fps : Z) (location_at : Z -> Vector.t)
    (frames : list Z) (prev current : Z) (data : list SpeedRecord) :
  stepped interval prev frames ->
  (acc ← (sample_frames interval fps location_at frames current
            {| prev_location := Some (location_at prev);
               speed_data := data |}).1;
   Ok (speed_data acc))
  = (rs ← rmap (record_at interval fps location_at) frames; Ok (data ++ rs)).
Proof.
  revert prev current data.
  induction frames as [|f rest IH]; intros prev current data Hst; simpl.
  - rewrite app_nil_r. reflexivity.
  - destruct Hst as [-> Hst].
    unfold sample_frame, record_at; simpl.
    replace (prev + interval - interval) with prev by lia.
    destruct (measure_speed interval fps (location_at prev)
                (location_at (prev + interval))) as [v|e]; simpl;
      [|reflexivity].
    rewrite (IH (prev + interval)) by done.
    destruct (rmap _ rest); simpl; [|reflexivity].
    rewrite <- app_assoc. reflexivity.
Qed.

Lemma sampling_pass_spec (start stop interval fps : Z)
    (location_at : Z -> Vector.t) (current : Z) :
  1 <= interval ->
  (sampling_pass start stop interval fps location_at current).1
  = rmap (fun i : nat =>
            record_at interval fps location_at
              (start + Z.of_nat (S i) * interval))
         (seq 0 (record_count start stop interval)).
Proof.
  intros Hk. unfold sampling_pass. rewrite sampled_frames_eq by done.
  destruct (Z.leb_spec start stop) as [Hle|Hlt].
  - rewrite <- cons_seq, <- seq_shift, map_cons, map_map.
    cbn [sample_frames]. unfold sample_frame at 1.
    cbn [prev_location speed_data mbind result_bind].
    change (Z.of_nat 0) with 0.
    replace (start + 0 * interval) with start by lia.
    pose proof (sample_frames_spec interval fps location_at
      (map (fun i : nat => start + Z.of_nat (S i) * interval)
         (seq 0 (record_count start stop interval))) start start [])
      as Hspec.
    destruct (sample_frames _ _ _ _ _ _) as [r cur]. simpl in *.
    rewrite Hspec by apply stepped_map. clear Hspec.
    rewrite rmap_map. destruct (rmap _ _); reflexivity.
  - unfold record_count.
    assert ((stop - start) / interval < 0)
      by (apply Z.div_lt_upper_bound; lia).
    replace (Z.max 0 ((stop - start) / interval)) with 0 by lia.
    reflexivity.
Qed.

(** The run of the documentation: frames 0 to 4 at 24 frames a second,
    100 units along x each frame. *)
Example run_of_four_steps :
  sampling_pass 0 4 1 24 (Object.location runner) 0
  = (Ok [(0, 1, 240000); (1, 2, 240000); (2, 3, 240000); (3, 4, 240000)], 4).
Proof. vm_compute. reflexivity. Qed.



(** C2. At a stride of at least 1 the sampling pass yields
    [max(0, floor((stop - start) / k))] records whenever it returns, none
    when [start = stop]; and it returns whenever each speed of two
    consecutive samples can be computed. *)
Theorem sampling_pass_count (start stop k fps : Z)
    (location_at : Z -> Vector.t) (current : Z) :
  1 <= k ->
  (forall rs,
     (sampling_pass start stop k fps location_at current).1 = Ok rs ->
     len rs = Z.max 0 ((stop - start) / k) /\ (start = stop -> rs = []))
  /\ ((forall f, is_ok (measure_speed k fps (location_at (f - k))
                          (location_at f)) = true) ->
      is_ok (sampling_pass start stop k fps location_at current).1 = true).
Proof.
  intros Hk. rewrite sampling_pass_spec by exact Hk. split.
  - intros rs Hrs. apply rmap_length in Hrs. rewrite length_seq in Hrs.
    assert (Hlen : len rs = Z.max 0 ((stop - start) / k)).
    { unfold len, record_count in *. rewrite Hrs. lia. }
    split; [exact Hlen|].
    intros ->. rewrite Z.sub_diag, Z.div_0_l in Hlen by lia.
    destruct rs; [reflexivity | discriminate].
  - intros Hok. rewrite rmap_is_ok. apply forallb_forall. intros i _.
    unfold record_at.
    specialize (Hok (start + Z.of_nat (S i) * k)).
    destruct (measure_speed _ _ _ _); [reflexivity | discriminate].
Qed.

Lemma sampling_pass_count_witness :
  len [(0, 2, 0); (2, 4, 0)] = Z.max 0 ((5 - 0) / 2).
Proof.
  apply (proj1 (sampling_pass_count 0 5 2 24 (fun _ => origin) 0 ltac:(lia))).
  vm_compute. reflexivity.
Defined.

(** ** Integers that binary64 holds exactly *)

Lemma digits2_pos_log2 (p : positive) :
  Zpos (digits2_pos p) = Z.log2 (Zpos p) + 1.
Proof.
  induction p as [p IH|p IH|]; simpl; try reflexivity.
  - rewrite Pos2Z.inj_succ. destruct p; simpl in *; lia. 
  - rewrite Pos2Z.inj_succ. destruct p; simpl in *; lia.
Qed.

Lemma iter_pos_shr_exact (n : positive) (m : Z) :
  SpecFloat.iter_pos shr_1 n {| shr_m := m * 2 ^ Zpos n; shr_r := false; shr_s := false |}
  = {| shr_m := m; shr_r := false; shr_s := false |}.
Proof.
  assert (H1 : forall m, shr_1 {| shr_m := m * 2; shr_r := false; shr_s := false |}
               = {| shr_m := m; shr_r := false; shr_s := false |}).
  { intros [|q|q]; simpl; try reflexivity.
    - rewrite Pos.mul_comm. reflexivity.
    - rewrite Pos.mul_comm. reflexivity. }
  revert m. induction n as [n IH|n IH|]; intros m; cbn [SpecFloat.iter_pos].
  - replace (m * 2 ^ Zpos n~1) with (m * 2 ^ Zpos n * 2 ^ Zpos n * 2).
    + rewrite H1, IH, IH. reflexivity.
    + replace (Z.pos n~1) with (Z.pos n + Z.pos n + 1) by lia.
      rewrite !Z.pow_add_r by lia. change (2 ^ 1) with 2. ring.
  - replace (m * 2 ^ Zpos n~0) with (m * 2 ^ Zpos n * 2 ^ Zpos n).
    + rewrite IH, IH. reflexivity.
    + replace (Z.pos n~0) with (Z.pos n + Z.pos n) by lia.
      rewrite Z.pow_add_r by lia. ring.
  - change (2 ^ 1) with 2. apply H1.
Qed.

Lemma Zdigits2_log2 (z : Z) : 0 < z -> Zdigits2 z = Z.log2 z + 1.
Proof. destruct z as [|p|p]; try lia. intros _. apply digits2_pos_log2. Qed.

Lemma fexp_eq (e : Z) : fexp PyFloat.prec PyFloat.emax e = Z.max (e - 53) (-1074).
Proof. reflexivity. Qed.

Lemma shr_fexp_exact (m e n : Z) :
  0 < m -> 0 <= n ->
  fexp PyFloat.prec PyFloat.emax (Zdigits2 (m * 2 ^ n) + e) - e = n ->
  shr_fexp PyFloat.prec PyFloat.emax (m * 2 ^ n) e loc_Exact
  = ({| shr_m := m; shr_r := false; shr_s := false |}, e + n).
Proof.
  intros Hm Hn Hfexp. unfold shr_fexp. rewrite Hfexp.
  unfold shr, shr_record_of_loc. destruct n as [|q|q]; [| |lia].
  - rewrite Z.pow_0_r, Z.mul_1_r, Z.add_0_r. reflexivity.
  - rewrite iter_pos_shr_exact. reflexivity.
Qed.

Lemma binary_round_aux_exact (sx : bool) (p : positive) (k m0 e0 : Z) :
  Zpos p = m0 * 2 ^ e0 -> 0 < m0 < 2 ^ 53 -> 0 <= e0 <= 971 ->
  0 <= k -> - k <= fexp PyFloat.prec PyFloat.emax (Zdigits2 (Zpos p)) ->
  exists e, e = fexp PyFloat.prec PyFloat.emax (Zdigits2 (Zpos p)) /\ e <= e0 /\
  binary_round_aux PyFloat.prec PyFloat.emax sx (Zpos p * 2 ^ k) (- k) loc_Exact
  = S754_finite sx (Z.to_pos (m0 * 2 ^ (e0 - e))) e.
Proof.
  intros Hp Hm0 He0 Hk Hfexp.
  set (d := Zdigits2 (Zpos p)) in *.
  set (e := fexp PyFloat.prec PyFloat.emax d) in *.
  assert (Hd : d = Z.log2 m0 + e0 + 1).
  { unfold d. rewrite Zdigits2_log2 by lia. rewrite Hp.
    rewrite Z.log2_mul_pow2 by lia. lia. }
  assert (Hlog : Z.log2 m0 < 53) by (apply Z.log2_lt_pow2; lia).
  assert (Hlog0 : 0 <= Z.log2 m0) by apply Z.log2_nonneg.
  assert (Hee0 : e <= e0) by (unfold e; rewrite fexp_eq; lia).
  exists e. split; [reflexivity|]. split; [exact Hee0|].
  set (M := m0 * 2 ^ (e0 - e)).
  assert (HM : 0 < M) by (unfold M; apply Z.mul_pos_pos; [lia|apply Z.pow_pos_nonneg; lia]).
  assert (Hmx : Zpos p * 2 ^ k = M * 2 ^ (e + k)).
  { unfold M. rewrite Hp, <- !Z.mul_assoc, <- !Z.pow_add_r by lia.
    f_equal. f_equal. lia. }
  assert (HdM : Zdigits2 M = d - e).
  { unfold M. rewrite Zdigits2_log2 by exact HM.
    rewrite Z.log2_mul_pow2 by lia. lia. }
  assert (Hshr1 : shr_fexp PyFloat.prec PyFloat.emax (Zpos p * 2 ^ k) (- k) loc_Exact
                  = ({| shr_m := M; shr_r := false; shr_s := false |}, e)).
  { rewrite Hmx. replace e with (- k + (e + k)) at 2 by lia.
    apply shr_fexp_exact; [exact HM | lia |].
    rewrite <- Hmx. rewrite Zdigits2_log2 by lia.
    rewrite Z.log2_mul_pow2 by lia.
    replace (k + Z.log2 (Zpos p) + 1 + - k) with d
      by (unfold d; rewrite Zdigits2_log2 by lia; lia).
    fold e. lia. }
  assert (Hshr2 : shr_fexp PyFloat.prec PyFloat.emax M e loc_Exact
                  = ({| shr_m := M; shr_r := false; shr_s := false |}, e)).
  { replace M with (M * 2 ^ 0) at 1 by (rewrite Z.pow_0_r; lia).
    replace e with (e + 0) at 2 by lia.
    apply shr_fexp_exact; [exact HM | lia |].
    rewrite Z.pow_0_r, Z.mul_1_r, HdM.
    replace (d - e + e) with d by lia. fold e. lia. }
  unfold binary_round_aux. rewrite Hshr1.
  cbn [shr_m loc_of_shr_record round_nearest_even shr_r shr_s].
  rewrite Hshr2. cbn [shr_m].
  destruct M as [|q|q] eqn:EM; try lia.
  assert (Hle : (e <=? PyFloat.emax - PyFloat.prec) = true)
    by (apply Z.leb_le; unfold PyFloat.emax, PyFloat.prec; lia).
  rewrite Hle. reflexivity.
Qed.

Lemma round_exact (sx : bool) (p : positive) (m0 e0 e : Z) :
  Zpos p = m0 * 2 ^ e0 -> 0 < m0 -> 0 <= e0 -> e <= e0 ->
  PyFloat.round (S754_finite sx (Z.to_pos (m0 * 2 ^ (e0 - e))) e)
  = Ok (PyFloat.cond_opp sx (Zpos p))
  /\ PyFloat.to_int (S754_finite sx (Z.to_pos (m0 * 2 ^ (e0 - e))) e)
     = Ok (PyFloat.cond_opp sx (Zpos p)).
Proof.
  intros Hp Hm0 He0 Hee0.
  assert (HM : 0 < m0 * 2 ^ (e0 - e))
    by (apply Z.mul_pos_pos; [lia | apply Z.pow_pos_nonneg; lia]).
  unfold PyFloat.round, PyFloat.to_int. rewrite Z2Pos.id by exact HM.
  destruct (Z.leb_spec 0 e) as [He|He].
  - assert (Hv : m0 * 2 ^ (e0 - e) * 2 ^ e = Zpos p).
    { rewrite Hp, <- Z.mul_assoc, <- Z.pow_add_r by lia.
      replace (e0 - e + e) with e0 by lia. reflexivity. }
    rewrite Hv. split; reflexivity.
  - assert (Hq : 0 < 2 ^ (- e)) by (apply Z.pow_pos_nonneg; lia).
    assert (Hv : m0 * 2 ^ (e0 - e) = Zpos p * 2 ^ (- e)).
    { rewrite Hp, <- !Z.mul_assoc, <- Z.pow_add_r by lia.
      replace (e0 - e) with (e0 + - e) by lia. reflexivity. }
    rewrite Hv. unfold PyFloat.round_half_even.
    rewrite Z.div_mul, Z.mod_mul by lia.
    replace (2 * 0 ?= 2 ^ (- e)) with Lt by (symmetry; apply Z.compare_lt_iff; lia).
    split; reflexivity.
Qed.

Lemma binary64_int_pos (p : positive) :
  binary64_int (Zpos p) ->
  exists m0 e0, Zpos p = m0 * 2 ^ e0 /\ 0 < m0 < 2 ^ 53 /\ 0 <= e0 <= 971.
Proof.
  intros (m & e & Hz & Hm & He). exists m, e.
  assert (0 < 2 ^ e) by (apply Z.pow_pos_nonneg; lia).
  repeat split; try lia; try nia.
Qed.

Lemma binary64_int_small (z : Z) : Z.abs z < 2 ^ 53 -> binary64_int z.
Proof. intros H. exists z, 0. rewrite Z.pow_0_r. lia. Qed.

Lemma binary64_int_opp (z : Z) : binary64_int z -> binary64_int (- z).
Proof.
  intros (m & e & Hz & Hm & He). exists (- m), e.
  repeat split; lia.
Qed.

Lemma fexp_mono (a b : Z) : a <= b -> fexp PyFloat.prec PyFloat.emax a <= fexp PyFloat.prec PyFloat.emax b.
Proof. rewrite !fexp_eq. lia. Qed.

Lemma div_eucl_1 (a : Z) : Z.div_eucl a 1 = (a, 0).
Proof.
  pose proof (Z.div_1_r a) as Hd. pose proof (Z.mod_1_r a) as Hm.
  unfold Z.div, Z.modulo in *. destruct (Z.div_eucl a 1). simpl in *.
  subst. reflexivity.
Qed.

(** [p / 1] in binary64, for a representable [p], is [p] itself. *)
Lemma fdiv_one_exact (sx : bool) (p : positive) :
  binary64_int (Zpos p) ->
  exists f, PyFloat.fdiv (S754_finite sx p 0) (S754_finite false 1 0) = f
            /\ PyFloat.is_finite f = true /\ PyFloat.is_zero f = false
            /\ PyFloat.round f = Ok (PyFloat.cond_opp sx (Zpos p)).
Proof.
  intros Hrep. destruct (binary64_int_pos p Hrep) as (m0 & e0 & Hp & Hm0 & He0).
  unfold PyFloat.fdiv, SFdiv, SFdiv_core_binary.
  set (d := Zdigits2 (Zpos p)).
  change (Zdigits2 1) with 1.
  replace (d + 0 - (1 + 0)) with (d - 1) by lia.
  change (0 - 0) with 0.
  set (e' := Z.min (fexp PyFloat.prec PyFloat.emax (d - 1)) 0).
  assert (He' : e' <= 0) by (unfold e'; lia).
  assert (Hm' : match 0 - e' with
                | 0 => Zpos p
                | Zpos _ => Z.shiftl (Zpos p) (0 - e')
                | Zneg _ => 0
                end = Zpos p * 2 ^ (- e')).
  { destruct (0 - e') as [|q|q] eqn:E; try lia.
    - replace (- e') with 0 by lia. rewrite Z.pow_0_r. lia.
    - rewrite Z.shiftl_mul_pow2 by lia. do 2 f_equal. lia. }
  rewrite Hm', div_eucl_1.
  change (new_location 1 0) with loc_Exact.
  rewrite Bool.xorb_false_r.
  destruct (binary_round_aux_exact sx p (- e') m0 e0 Hp Hm0 He0)
    as (e & He & Hee0 & Heq); [lia | |].
  { fold d. pose proof (fexp_mono (d - 1) d). lia. }
  rewrite Z.opp_involutive in Heq. rewrite Heq. eexists; split; [reflexivity|].
  split; [reflexivity|]. split; [reflexivity|].
  apply round_exact; lia.
Qed.

Lemma int_true_div_one (z : Z) :
  binary64_int z -> PyFloat.int_true_div z 1 ≫= PyFloat.round = Ok z.
Proof.
  intros Hrep. unfold PyFloat.int_true_div. change (1 =? 0) with false. cbv iota.
  change (PyFloat.exact_int 1) with (S754_finite false 1 0).
  destruct z as [|p|p].
  - reflexivity.
  - destruct (fdiv_one_exact false p Hrep) as (f & Hf & Hfin & _ & Hr).
    cbn [PyFloat.exact_int]. rewrite Hf. destruct f; try discriminate; exact Hr.
  - apply binary64_int_opp in Hrep. cbn [Z.opp] in Hrep.
    destruct (fdiv_one_exact true p Hrep) as (f & Hf & Hfin & _ & Hr).
    cbn [PyFloat.exact_int]. rewrite Hf. destruct f; try discriminate; exact Hr.
Qed.

Lemma pos_iter_xO (p d : positive) :
  Zpos (Pos.iter xO p d) = Zpos p * 2 ^ Zpos d.
Proof.
  induction d as [|d IH] using Pos.peano_ind.
  - simpl. lia.
  - rewrite Pos.iter_succ, Pos2Z.inj_xO, IH, Pos2Z.inj_succ, Z.pow_succ_r by lia.
    ring.
Qed.


(** ** Rounded results fit the significand *)

Lemma shr_1_m (mrs : shr_record) :
  0 <= shr_m mrs -> shr_m (shr_1 mrs) = shr_m mrs / 2.
Proof.
  destruct mrs as [m r s]. cbn [shr_m]. intros Hm.
  rewrite <- Z.div2_div.
  destruct m as [|[p|p|]|p]; try lia; reflexivity.
Qed.

Lemma iter_pos_shr_m (n : positive) (mrs : shr_record) :
  0 <= shr_m mrs ->
  shr_m (SpecFloat.iter_pos shr_1 n mrs) = shr_m mrs / 2 ^ Zpos n.
Proof.
  revert mrs. induction n as [n IH|n IH|]; intros mrs Hm;
    cbn [SpecFloat.iter_pos].
  - assert (H1 : 0 <= shr_m (shr_1 mrs))
      by (rewrite shr_1_m by exact Hm; apply Z.div_pos; lia).
    assert (H2 : 0 <= shr_m (SpecFloat.iter_pos shr_1 n (shr_1 mrs)))
      by (rewrite IH by exact H1; apply Z.div_pos; lia).
    rewrite IH, IH, shr_1_m by assumption.
    rewrite !Z.div_div by lia. f_equal.
    replace (Zpos n~1) with (1 + Zpos n + Zpos n) by lia.
    rewrite !Z.pow_add_r by lia. lia.
  - assert (H2 : 0 <= shr_m (SpecFloat.iter_pos shr_1 n mrs))
      by (rewrite IH by exact Hm; apply Z.div_pos; lia).
    rewrite IH, IH by assumption.
    rewrite !Z.div_div by lia. f_equal.
    replace (Zpos n~0) with (Zpos n + Zpos n) by lia.
    rewrite !Z.pow_add_r by lia. lia.
  - rewrite shr_1_m by exact Hm. reflexivity.
Qed.

Lemma shr_record_of_loc_m (m : Z) (l : location) :
  shr_m (shr_record_of_loc m l) = m.
Proof. destruct l as [|[]]; reflexivity. Qed.

(** The significand left by [shr_fexp] has at most 53 bits. *)
Lemma shr_fexp_bounded (m e : Z) (l : location) :
  0 <= m ->
  0 <= shr_m (shr_fexp PyFloat.prec PyFloat.emax m e l).1 < 2 ^ 53.
Proof.
  intros Hm. unfold shr_fexp, shr.
  destruct (Z.eq_dec m 0) as [->|Hne].
  { destruct (fexp _ _ _ - e) as [|q|q]; cbn [fst];
      rewrite ?iter_pos_shr_m, ?shr_record_of_loc_m;
      rewrite ?shr_record_of_loc_m; try lia.
    rewrite Z.div_0_l; [lia|]. apply Z.pow_nonzero; lia. }
  assert (Hd : Zdigits2 m = Z.log2 m + 1) by (apply Zdigits2_log2; lia).
  pose proof (Z.log2_spec m ltac:(lia)) as [Hlo Hhi].
  pose proof (Z.log2_nonneg m) as Hlog.
  rewrite fexp_eq.
  destruct (Z.max (Zdigits2 m + e - 53) (-1074) - e) as [|q|q] eqn:E;
    cbn [fst]; rewrite ?iter_pos_shr_m, ?shr_record_of_loc_m;
    rewrite ?shr_record_of_loc_m; try lia.
  - split; [lia|]. apply Z.lt_le_trans with (2 ^ Z.succ (Z.log2 m)); [lia|].
    apply Z.pow_le_mono_r; lia.
  - split; [apply Z.div_pos; lia|].
    apply Z.div_lt_upper_bound; [lia|].
    rewrite <- Z.pow_add_r by lia.
    apply Z.lt_le_trans with (2 ^ Z.succ (Z.log2 m)); [lia|].
    apply Z.pow_le_mono_r; lia.
  - split; [lia|]. apply Z.lt_le_trans with (2 ^ Z.succ (Z.log2 m)); [lia|].
    apply Z.pow_le_mono_r; lia.
Qed.

Lemma binary_round_aux_bounded (sx : bool) (mx ex : Z) (lx : location) :
  0 <= mx ->
  bounded_float (binary_round_aux PyFloat.prec PyFloat.emax sx mx ex lx).
Proof.
  intros Hmx. unfold binary_round_aux.
  pose proof (shr_fexp_bounded mx ex lx Hmx) as H1.
  destruct (shr_fexp PyFloat.prec PyFloat.emax mx ex lx) as [mrs' e'].
  cbn [fst] in H1.
  set (m'' := round_nearest_even (shr_m mrs') (loc_of_shr_record mrs')).
  assert (Hm'' : 0 <= m'').
  { unfold m'', round_nearest_even.
    destruct (loc_of_shr_record mrs') as [|[]]; try lia.
    destruct (Z.even (shr_m mrs')); lia. }
  pose proof (shr_fexp_bounded m'' e' loc_Exact Hm'') as H2.
  destruct (shr_fexp PyFloat.prec PyFloat.emax m'' e' loc_Exact) as [mrs'' e''].
  cbn [fst] in H2.
  destruct (shr_m mrs'') as [|m|m]; cbn; try exact I.
  destruct (Z.leb_spec e'' (PyFloat.emax - PyFloat.prec)); cbn; [|exact I].
  unfold PyFloat.emax, PyFloat.prec in *. lia.
Qed.

Lemma round_half_even_bound (p q : Z) :
  0 <= p -> 0 < q -> 0 <= PyFloat.round_half_even p q <= p / q + 1.
Proof.
  intros Hp Hq. unfold PyFloat.round_half_even.
  assert (0 <= p / q) by (apply Z.div_pos; lia).
  destruct (2 * (p mod q) ?= q); try lia.
  destruct (Z.even (p / q)); lia.
Qed.

(** [round] of a bounded float is an integer binary64 holds exactly. *)
Lemma round_bounded (f : spec_float) (z : Z) :
  bounded_float f -> PyFloat.round f = Ok z -> binary64_int z.
Proof.
  destruct f as [s|s| |s m e]; cbn; try discriminate.
  - intros _ [= <-]. apply binary64_int_small. reflexivity.
  - intros [Hm He] [= <-].
    destruct (Z.leb_spec 0 e) as [He0|He0].
    + exists (PyFloat.cond_opp s (Zpos m)), e. repeat split; try lia.
      * destruct s; cbn; lia.
      * destruct s; cbn; lia.
    + apply binary64_int_small.
      assert (Hq : 2 <= 2 ^ (- e)).
      { change 2 with (2 ^ 1) at 1. apply Z.pow_le_mono_r; lia. }
      pose proof (round_half_even_bound (Zpos m) (2 ^ (- e))
                    ltac:(lia) ltac:(lia)) as Hr.
      assert (Zpos m / 2 ^ (- e) <= Zpos m / 2).
      { apply Z.div_le_compat_l; lia. }
      assert (Zpos m / 2 < 2 ^ 52).
      { apply Z.div_lt_upper_bound; [lia|].
        change (2 * 2 ^ 52) with (2 ^ 53). lia. }
      assert (2 ^ 52 < 2 ^ 53) by reflexivity.
      destruct s; cbn; lia.
Qed.

Lemma fmul_bounded (x y : spec_float) : bounded_float (PyFloat.fmul x y).
Proof.
  unfold PyFloat.fmul, SFmul.
  destruct x as [sx|sx| |sx mx ex], y as [sy|sy| |sy my ey]; try exact I.
  apply binary_round_aux_bounded. lia.
Qed.


(** Every speed the sampling loop computes is held exactly by binary64. *)
Lemma measure_speed_binary64 (interval fps : Z) (prev location : Vector.t)
    (speed : Z) :
  measure_speed interval fps prev location = Ok speed -> binary64_int speed.
Proof.
  unfold measure_speed. intros H.
  apply bind_Ok in H as (dx2 & _ & H). apply bind_Ok in H as (dy2 & _ & H).
  apply bind_Ok in H as (dist & _ & H). apply bind_Ok in H as (time & _ & H).
  apply bind_Ok in H as (per & _ & H). apply bind_Ok in H as (hundred & _ & H).
  eapply round_bounded; [apply fmul_bounded | exact H].
Qed.



(** ** The moving average *)

Lemma slice_window {A : Type} (l : list A) (w : Z) (i : nat) :
  1 <= w -> (i < length l)%nat ->
  slice l (Z.max 0 (Z.of_nat i - w / 2))
          (Z.min (len l) (Z.of_nat i + w / 2 + 1))
  = take (Nat.min (length l) (i + Z.to_nat (w / 2) + 1) - (i - Z.to_nat (w / 2)))
         (drop (i - Z.to_nat (w / 2)) l).
Proof.
  intros Hw Hi. unfold slice, len.
  assert (Hh : 0 <= w / 2) by (apply Z.div_pos; lia).
  set (a := Z.max 0 (Z.of_nat i - w / 2)).
  set (b := Z.min (Z.of_nat (length l)) (Z.of_nat i + w / 2 + 1)).
  destruct (Z.ltb_spec a 0); [lia|].
  destruct (Z.ltb_spec b 0); [lia|].
  f_equal; [|f_equal]; lia.
Qed.

Lemma sum_cons (a : Z) (l : list Z) : sum (a :: l) = a + sum l.
Proof.
  assert (H : forall l acc, fold_left Z.add l acc = acc + fold_left Z.add l 0).
  { clear. induction l as [|b l IH]; intros acc; simpl; [lia|].
    rewrite (IH (acc + b)), (IH (0 + b)). lia. }
  unfold sum. simpl. rewrite H. lia.
Qed.

Lemma index_lookup {A : Type} (l : list A) (i : nat) (a : A) :
  l !! i = Some a -> index l (Z.of_nat i) = Ok a.
Proof.
  intros H. unfold index. destruct (Z.ltb_spec (Z.of_nat i) 0); [lia|].
  rewrite Nat2Z.id, H. reflexivity.
Qed.

Lemma centered_window_map (h : nat) (rs : list SpeedRecord) (i : nat) :
  map speed_of
    (take (Nat.min (length rs) (i + h + 1) - (i - h)) (drop (i - h) rs))
  = centered_window h (map speed_of rs) i.
Proof.
  unfold centered_window. rewrite length_map.
  rewrite <- firstn_map, <- skipn_map. reflexivity.
Qed.

(** One iteration of the smoothing loop, in terms of the window. *)
Lemma average_at_spec (w : Z) (rs : list SpeedRecord) (i : nat)
    (r : SpeedRecord) :
  1 <= w -> rs !! i = Some r ->
  average_at w rs (Z.of_nat i)
  = (s ← rounded_mean (centered_window (Z.to_nat (w / 2)) (map speed_of rs) i);
     Ok (frameStart r, frameEnd r, s)).
Proof.
  intros Hw Hi. unfold average_at, rounded_mean.
  rewrite slice_window by (eauto using lookup_lt_Some).
  rewrite <- centered_window_map.
  set (window := take _ _).
  replace (len (map speed_of window)) with (len window)
    by (unfold len; rewrite length_map; reflexivity).
  rewrite (index_lookup _ _ _ Hi).
  destruct (PyFloat.int_true_div _ _); reflexivity.
Qed.

Lemma averaging_pass_spec (w : Z) (rs : list SpeedRecord) :
  averaging_pass w rs
  = rmap (fun i : nat => average_at w rs (Z.of_nat i)) (seq 0 (length rs)).
Proof.
  unfold averaging_pass. rewrite for_each_append.
  unfold range1, range2, len. rewrite Z.sub_0_r, Nat2Z.id, rmap_map.
  destruct (rmap _ _); reflexivity.
Qed.

(** A comprehension over the positions of a list. *)
Lemma rmap_seq_lookup {A B : Type} (f : nat -> result B) (l : list A)
    (bs : list B) (k : nat) :
  rmap f (seq k (length l)) = Ok bs ->
  length bs = length l
  /\ forall i a, l !! i = Some a ->
       exists b, bs !! i = Some b /\ f (k + i)%nat = Ok b.
Proof.
  intros H. split; [rewrite (rmap_length _ _ _ H); apply length_seq|].
  intros i a Hi.
  apply (rmap_lookup _ _ _ i (k + i)%nat H).
  apply lookup_seq. split; [reflexivity|]. eauto using lookup_lt_Some.
Qed.

Lemma rmap_seq_id {A : Type} (f : nat -> result A) (l : list A) (k : nat) :
  (forall i a, l !! i = Some a -> f (k + i)%nat = Ok a) ->
  rmap f (seq k (length l)) = Ok l.
Proof.
  revert k. induction l as [|a l IH]; intros k H; simpl; [reflexivity|].
  rewrite <- (Nat.add_0_r k) at 1. rewrite (H 0%nat a) by reflexivity. simpl.
  rewrite IH; [reflexivity|].
  intros i b Hi. replace (S k + i)%nat with (k + S i)%nat by lia.
  apply H. exact Hi.
Qed.

Lemma centered_window_length (h : nat) (speeds : list Z) (i : nat) :
  (i < length speeds)%nat ->
  length (centered_window h speeds i)
  = (Nat.min (length speeds - 1) (i + h) - (i - h) + 1)%nat.
Proof.
  intros Hi. unfold centered_window.
  rewrite length_take, length_drop. lia.
Qed.

Lemma centered_window_single (speeds : list Z) (i : nat) (s : Z) :
  speeds !! i = Some s -> centered_window 0 speeds i = [s].
Proof.
  intros Hi. unfold centered_window.
  pose proof (lookup_lt_Some _ _ _ Hi) as Hlt.
  replace (Nat.min (length speeds) (i + 0 + 1) - (i - 0))%nat with 1%nat by lia.
  rewrite Nat.sub_0_r. rewrite (drop_S _ _ _ Hi). reflexivity.
Qed.

Lemma rounded_mean_single (s : Z) :
  binary64_int s -> rounded_mean [s] = Ok s.
Proof.
  intros H. unfold rounded_mean. rewrite sum_cons. unfold sum, len. simpl.
  rewrite Z.add_0_r. apply int_true_div_one. exact H.
Qed.

(** C3, as the code has it.  With a window of at least 1 the smoothing pass
    keeps the number of records and the two frames of each, and replaces
    the speed at position [i] by [round(sum / len)] over the records at
    positions [i - h] to [i + h] that exist, where [h] is half the window
    rounded down: the window is clamped to the list, and away from the
    edges it is [averaging_window] records wide when that is odd and one
    more when it is even.  A window of 3 over the speeds 10, 20, 30, 40
    gives 15, 20, 30, 35. *)
Theorem averaging_pass_window (w : Z) (rs : list SpeedRecord) :
  1 <= w ->
  let h := Z.to_nat (w / 2) in
  let speeds := map speed_of rs in
  (forall out, averaging_pass w rs = Ok out ->
     length out = length rs
     /\ forall (i : nat) (r : SpeedRecord), rs !! i = Some r ->
          exists s, out !! i = Some (frameStart r, frameEnd r, s)
                    /\ rounded_mean (centered_window h speeds i) = Ok s)
  /\ ((forall i : nat, (i < length rs)%nat ->
         is_ok (rounded_mean (centered_window h speeds i)) = true) ->
      is_ok (averaging_pass w rs) = true)
  /\ (forall i : nat, (i < length rs)%nat ->
        length (centered_window h speeds i)
        = (Nat.min (length rs - 1) (i + h) - (i - h) + 1)%nat)
  /\ Z.of_nat (2 * h + 1) = (if Z.odd w then w else w + 1)
  /\ averaging_pass 3 [(0, 1, 10); (1, 2, 20); (2, 3, 30); (3, 4, 40)]
     = Ok [(0, 1, 15); (1, 2, 20); (2, 3, 30); (3, 4, 35)].
Proof.
  intros Hw h speeds. rewrite averaging_pass_spec.
  split; [|split; [|split; [|split]]].
  - intros out Hout.
    destruct (rmap_seq_lookup _ rs out 0 Hout) as [Hlen Hat].
    split; [exact Hlen|]. intros i r Hi.
    destruct (Hat i r Hi) as (o & Ho & Hav). simpl in Hav.
    rewrite (average_at_spec w rs i r Hw Hi) in Hav.
    apply bind_Ok in Hav as (s & Hs & Hav). injection Hav as <-.
    exists s. split; [exact Ho | exact Hs].
  - intros Hok. rewrite rmap_is_ok. apply forallb_forall. intros i Hi.
    apply in_seq in Hi. destruct (lookup_lt_is_Some_2 rs i) as [r Hr]; [lia|].
    rewrite (average_at_spec w rs i r Hw Hr).
    specialize (Hok i ltac:(lia)). fold h speeds.
    destruct (rounded_mean _); [reflexivity | discriminate].
  - intros i Hi. rewrite centered_window_length; unfold speeds;
      rewrite length_map; [reflexivity | exact Hi].
  - unfold h. pose proof (Z.div2_odd w) as Hodd. rewrite Z.div2_div in Hodd.
    assert (0 <= w / 2) by (apply Z.div_pos; lia).
    destruct (Z.odd w); simpl Z.b2z in Hodd; lia.
  - vm_compute. reflexivity.
Qed.

Lemma averaging_pass_window_witness :
  length [(0, 1, 15); (1, 2, 30); (2, 3, 40)]
  = length [(0, 1, 10); (1, 2, 20); (2, 3, 60)].
Proof.
  apply (proj1 (averaging_pass_window 2 [(0, 1, 10); (1, 2, 20); (2, 3, 60)]
                  ltac:(lia))).
  vm_compute. reflexivity.
Defined.

(** C3 as claimed fails for an even window: with a window of 2 the middle
    record of 10, 20, 60 becomes 30, the mean of all three speeds, which no
    run of at most two consecutive speeds averages to. *)
Lemma averaging_window_two_counterexample :
  averaging_pass 2 [(0, 1, 10); (1, 2, 20); (2, 3, 60)]
  = Ok [(0, 1, 15); (1, 2, 30); (2, 3, 40)]
  /\ forall lo n : nat, (n <= 2)%nat ->
       rounded_mean (take n (drop lo [10; 20; 60])) <> Ok 30.
Proof.
  split; [vm_compute; reflexivity|].
  intros lo n Hn.
  destruct lo as [|[|[|lo]]];
    [| | | replace (drop (S (S (S lo))) [10; 20; 60]) with (@nil Z)
             by (destruct lo; reflexivity)];
    destruct n as [|[|[|n]]]; try lia; vm_compute; discriminate.
Qed.

(** The speeds in the state of the sampling loop stay integers that
    binary64 holds exactly. *)
Lemma sample_frames_binary64 (interval fps : Z) (location_at : Z -> Vector.t)
    (frames : list Z) (current : Z) (acc acc' : Sampling) :
  Forall (fun r => binary64_int (speed_of r)) (speed_data acc) ->
  (sample_frames interval fps location_at frames current acc).1 = Ok acc' ->
  Forall (fun r => binary64_int (speed_of r)) (speed_data acc').
Proof.
  revert current acc. induction frames as [|f rest IH]; intros current acc Hacc;
    cbn [sample_frames].
  - intros [= <-]. exact Hacc.
  - destruct (sample_frame interval fps location_at f acc) as [acc1|e] eqn:E;
      [|discriminate].
    apply IH. unfold sample_frame in E.
    apply bind_Ok in E as (data & Hdata & E). injection E as <-.
    cbn [speed_data]. destruct (prev_location acc) as [prev|].
    + apply bind_Ok in Hdata as (speed & Hspeed & Hdata).
      injection Hdata as <-. apply Forall_app. split; [exact Hacc|].
      apply Forall_singleton. apply (measure_speed_binary64 _ _ _ _ _ Hspeed).
    + injection Hdata as <-. exact Hacc.
Qed.

Lemma sampling_pass_binary64 (start stop interval fps : Z)
    (location_at : Z -> Vector.t) (current : Z) (rs : list SpeedRecord) :
  (sampling_pass start stop interval fps location_at current).1 = Ok rs ->
  Forall (fun r => binary64_int (speed_of r)) rs.
Proof.
  unfold sampling_pass.
  destruct (sampled_frames start stop interval) as [frames|e]; [|discriminate].
  pose proof (sample_frames_binary64 interval fps location_at frames current
                {| prev_location := None; speed_data := [] |}) as H.
  destruct (sample_frames _ _ _ _ _ _) as [[acc|e] current']; [|discriminate].
  intros [= <-]. apply H; [apply Forall_nil_2 | reflexivity].
Qed.

Lemma rmap_Forall {A B : Type} (f : A -> result B) (P : B -> Prop)
    (l : list A) (bs : list B) :
  (forall a b, f a = Ok b -> P b) -> rmap f l = Ok bs -> Forall P bs.
Proof.
  intros Hf. revert bs. induction l as [|a l IH]; intros bs H; simpl in H.
  - injection H as <-. apply Forall_nil_2.
  - apply bind_Ok in H as (b & Hb & H). apply bind_Ok in H as (bs' & Hbs & H).
    injection H as <-. apply Forall_cons. split; [eapply Hf; exact Hb|].
    apply IH. exact Hbs.
Qed.


(** C4. Smoothing with a window of 1 returns its input: on every sequence
    of records whose speeds binary64 holds exactly, hence on every sequence
    the sampling pass produces, so that a run with a window of 1 computes
    the records of its sampling pass whether smoothing is on or off. *)
Theorem averaging_window_one_identity :
  (forall rs : list SpeedRecord,
     Forall (fun r => binary64_int (speed_of r)) rs ->
     averaging_pass 1 rs = Ok rs)
  /\ (forall start stop interval fps location_at current rs,
        (sampling_pass start stop interval fps location_at current).1 = Ok rs ->
        averaging_pass 1 rs = Ok rs)
  /\ (forall (b : bpy) (obj : Object.t),
        averaging_window (speed_data_processor b) = 1 ->
        computed_records b obj
        = (sampling_pass (frame_start b) (frame_end b)
             (stride (speed_data_processor b)) (fps b) (Object.location obj)
             (frame_current b)).1).
Proof.
  assert (Hid : forall rs : list SpeedRecord,
            Forall (fun r => binary64_int (speed_of r)) rs ->
            averaging_pass 1 rs = Ok rs).
  { intros rs Hrep. rewrite averaging_pass_spec. apply rmap_seq_id.
    intros i r Hi. simpl.
    rewrite (average_at_spec 1 rs i r ltac:(lia) Hi).
    change (Z.to_nat (1 / 2)) with 0%nat.
    rewrite (centered_window_single _ i (speed_of r))
      by (rewrite list_lookup_fmap, Hi; reflexivity).
    rewrite rounded_mean_single.
    - destruct r as [[a b] c]. reflexivity.
    - exact (Forall_lookup_1 _ _ _ _ Hrep Hi). }
  split; [exact Hid|]. split.
  - intros start stop interval fps location_at current rs Hrs.
    apply Hid. eapply sampling_pass_binary64. exact Hrs.
  - intros b obj Hw. unfold computed_records. rewrite Hw.
    destruct (sampling_pass _ _ _ _ _ _).1 as [rs|e] eqn:E; [|reflexivity].
    cbn [mbind result_bind].
    destruct (apply_averaging (speed_data_processor b)); [|reflexivity].
    apply Hid. eapply sampling_pass_binary64. exact E.
Qed.

Lemma averaging_window_one_identity_witness :
  averaging_pass 1 [(0, 1, 240000); (1, 2, -7)]
  = Ok [(0, 1, 240000); (1, 2, -7)].
Proof.
  apply (proj1 averaging_window_one_identity).
  repeat constructor; apply binary64_int_small; vm_compute; reflexivity.
Defined.

(** ** Strings of integers *)

Lemma append_cons (x : ascii) (a b : string) :
  String x a +:+ b = String x (a +:+ b).
Proof. reflexivity. Qed.

Lemma append_nil_l (a : string) : "" +:+ a = a.
Proof. reflexivity. Qed.

Ltac sapp := rewrite ?append_cons, ?append_nil_l.

Lemma append_assoc (a b c : string) : (a +:+ b) +:+ c = a +:+ (b +:+ c).
Proof.
  induction a as [|x a IH]; sapp; [reflexivity | f_equal; exact IH].
Qed.

Lemma append_nil_r (a : string) : a +:+ "" = a.
Proof.
  induction a as [|x a IH]; sapp; [reflexivity | f_equal; exact IH].
Qed.

Lemma string_forall_app (P : ascii -> bool) (a b : string) :
  string_forall P (a +:+ b) = string_forall P a && string_forall P b.
Proof.
  induction a as [|x a IH]; sapp; simpl; [reflexivity|].
  rewrite IH, andb_assoc. reflexivity.
Qed.

Lemma string_forall_impl (P Q : ascii -> bool) (s : string) :
  (forall c, P c = true -> Q c = true) ->
  string_forall P s = true -> string_forall Q s = true.
Proof.
  intros HPQ. induction s as [|x s IH]; simpl; [reflexivity|].
  intros [Hx Hs]%andb_prop. rewrite (HPQ x Hx), (IH Hs). reflexivity.
Qed.

Lemma rstrip_app (s t : string) :
  PyStr.rstrip (s +:+ t)
  = match PyStr.rstrip t with
    | EmptyString => PyStr.rstrip s
    | String _ _ => s +:+ PyStr.rstrip t
    end.
Proof.
  induction s as [|c s IH]; sapp; simpl.
  - destruct (PyStr.rstrip t); reflexivity.
  - rewrite IH. destruct (PyStr.rstrip t) as [|c' r]; [reflexivity|].
    destruct s; reflexivity.
Qed.

Lemma rstrip_id (s : string) :
  string_forall (fun c => negb (PyStr.is_space c)) s = true ->
  PyStr.rstrip s = s.
Proof.
  induction s as [|c s IH]; simpl; [reflexivity|].
  intros [Hc Hs]%andb_prop. rewrite (IH Hs).
  destruct s; [|reflexivity].
  destruct (PyStr.is_space c); [discriminate | reflexivity].
Qed.

Lemma split_app_sep (sep : ascii) (s t : string) :
  string_forall (fun c => negb (Ascii.eqb c sep)) s = true ->
  PyStr.split sep (s +:+ String sep t) = s :: PyStr.split sep t.
Proof.
  induction s as [|c s IH]; sapp; simpl.
  - intros _. rewrite Ascii.eqb_refl. reflexivity.
  - intros [Hc Hs]%andb_prop. rewrite (IH Hs).
    destruct (Ascii.eqb c sep); [discriminate | reflexivity].
Qed.

Lemma split_none (sep : ascii) (s : string) :
  string_forall (fun c => negb (Ascii.eqb c sep)) s = true ->
  PyStr.split sep s = [s].
Proof.
  induction s as [|c s IH]; simpl; [reflexivity|].
  intros [Hc Hs]%andb_prop. rewrite (IH Hs).
  destruct (Ascii.eqb c sep); [discriminate | reflexivity].
Qed.

Lemma is_int_char_facts (c : ascii) :
  is_int_char c = true ->
  PyStr.is_space c = false /\ Ascii.eqb c "," = false
  /\ Ascii.eqb c newline = false.
Proof.
  destruct c as [[] [] [] [] [] [] [] []]; vm_compute; intros H;
    try discriminate H; repeat split.
Qed.

Lemma string_of_uint_chars (d : Decimal.uint) :
  string_forall is_int_char (NilEmpty.string_of_uint d) = true.
Proof. induction d; simpl; try rewrite IHd; reflexivity. Qed.

Lemma str_of_int_chars (z : Z) :
  string_forall is_int_char (str_of_int z) = true.
Proof.
  unfold str_of_int, NilZero.string_of_int, NilZero.string_of_uint.
  destruct (Z.to_int z) as [d|d]; destruct d;
    try reflexivity; simpl; apply string_of_uint_chars.
Qed.

Lemma digits_tail_uint (d : Decimal.uint) (acc n : Z) :
  PyStr.digits_tail acc n (NilEmpty.string_of_uint d)
  = (uint_value acc d, n + Z.of_nat (Decimal.nb_digits d), EmptyString).
Proof.
  revert acc n.
  induction d; intros acc n; cbn [NilEmpty.string_of_uint];
    cbn [PyStr.digits_tail uint_value Decimal.nb_digits];
    [f_equal; f_equal; lia | ..];
    match goal with
    | |- context [PyStr.digit_value ?c] =>
        let v := eval vm_compute in (PyStr.digit_value c) in
        change (PyStr.digit_value c) with v
    end;
    cbv iota beta; rewrite IHd; f_equal; f_equal; lia.
Qed.

Lemma of_uint_acc_value (d : Decimal.uint) (acc : positive) :
  Zpos (Pos.of_uint_acc d acc) = uint_value (Zpos acc) d.
Proof.
  revert acc. induction d; intros acc; simpl; try reflexivity;
    rewrite IHd; f_equal; lia.
Qed.

Lemma of_uint_value (d : Decimal.uint) :
  Z.of_N (Pos.of_uint d) = uint_value 0 d.
Proof.
  induction d; simpl; try reflexivity; try exact IHd;
    rewrite of_uint_acc_value; reflexivity.
Qed.

Lemma uint_value_to_uint (p : positive) :
  uint_value 0 (Pos.to_uint p) = Zpos p.
Proof. rewrite <- of_uint_value, DecimalPos.Unsigned.of_to. reflexivity. Qed.

Lemma lstrip_id (s : string) :
  string_forall (fun c => negb (PyStr.is_space c)) s = true ->
  PyStr.lstrip s = s.
Proof.
  destruct s as [|c s]; simpl; [reflexivity|].
  intros [Hc _]%andb_prop. destruct (PyStr.is_space c); [discriminate|reflexivity].
Qed.

Lemma strip_id (s : string) :
  string_forall (fun c => negb (PyStr.is_space c)) s = true ->
  PyStr.strip s = s.
Proof. intros H. unfold PyStr.strip. rewrite lstrip_id, rstrip_id; auto. Qed.

Lemma int_chars_nonspace (s : string) :
  string_forall is_int_char s = true ->
  string_forall (fun c => negb (PyStr.is_space c)) s = true.
Proof.
  apply string_forall_impl. intros c Hc.
  destruct (is_int_char_facts c Hc) as (-> & _). reflexivity.
Qed.

Lemma nb_digits_pos (d : Decimal.uint) :
  d <> Decimal.Nil -> (0 < Decimal.nb_digits d)%nat.
Proof. destruct d; simpl; try lia. congruence. Qed.

Lemma digitpart_uint (d : Decimal.uint) (acc : Z) :
  d <> Decimal.Nil ->
  PyStr.digitpart acc (NilEmpty.string_of_uint d)
  = Some (uint_value acc d, Z.of_nat (Decimal.nb_digits d), EmptyString).
Proof.
  intros Hd. destruct d; [congruence | ..];
    cbn [NilEmpty.string_of_uint PyStr.digitpart uint_value Decimal.nb_digits];
    match goal with
    | |- context [PyStr.digit_value ?c] =>
        let v := eval vm_compute in (PyStr.digit_value c) in
        change (PyStr.digit_value c) with v
    end;
    cbv iota beta; rewrite digits_tail_uint; do 3 f_equal; lia.
Qed.

(** What the parsers see of the digits of a positive number. *)
Lemma uint_string_shape (d : Decimal.uint) :
  d <> Decimal.Nil ->
  let s := NilEmpty.string_of_uint d in
  PyStr.sign s = (false, s)
  /\ (PyStr.lowercase s =? "inf")%string = false
  /\ (PyStr.lowercase s =? "infinity")%string = false
  /\ (PyStr.lowercase s =? "nan")%string = false.
Proof.
  intros Hd. destruct d; [congruence | ..]; repeat split.
Qed.

Lemma str_of_int_pos (p : positive) :
  str_of_int (Zpos p) = NilEmpty.string_of_uint (Pos.to_uint p).
Proof.
  unfold str_of_int. cbn [Z.to_int NilZero.string_of_int].
  unfold NilZero.string_of_uint.
  pose proof (DecimalPos.Unsigned.to_uint_nonnil p) as H.
  destruct (Pos.to_uint p); [congruence | reflexivity ..].
Qed.

Lemma str_of_int_neg (p : positive) :
  str_of_int (Zneg p) = String "-" (NilEmpty.string_of_uint (Pos.to_uint p)).
Proof.
  unfold str_of_int. cbn [Z.to_int NilZero.string_of_int].
  unfold NilZero.string_of_uint.
  pose proof (DecimalPos.Unsigned.to_uint_nonnil p) as H.
  destruct (Pos.to_uint p); [congruence | reflexivity ..].
Qed.

(** [int(str(z)) == z]. *)
Lemma int_of_str_of_int (z : Z) : PyStr.int_of_str (str_of_int z) = Ok z.
Proof.
  unfold PyStr.int_of_str.
  rewrite strip_id by apply int_chars_nonspace, str_of_int_chars.
  destruct z as [|p|p].
  - reflexivity.
  - rewrite str_of_int_pos.
    pose proof (DecimalPos.Unsigned.to_uint_nonnil p) as Hd.
    rewrite (proj1 (uint_string_shape _ Hd)).
    rewrite digitpart_uint by exact Hd. rewrite uint_value_to_uint.
    reflexivity.
  - rewrite str_of_int_neg.
    pose proof (DecimalPos.Unsigned.to_uint_nonnil p) as Hd.
    cbn [PyStr.sign].
    rewrite digitpart_uint by exact Hd. rewrite uint_value_to_uint.
    reflexivity.
Qed.

(** [float(str(z))] is the float nearest to [z]. *)
Lemma float_of_str_of_int (z : Z) :
  PyStr.float_of_str (str_of_int z) = Ok (nearest_float z).
Proof.
  unfold PyStr.float_of_str.
  rewrite strip_id by apply int_chars_nonspace, str_of_int_chars.
  destruct z as [|p|p].
  - reflexivity.
  - rewrite str_of_int_pos.
    pose proof (DecimalPos.Unsigned.to_uint_nonnil p) as Hd.
    destruct (uint_string_shape _ Hd) as (-> & -> & -> & ->).
    rewrite digitpart_uint by exact Hd. rewrite uint_value_to_uint.
    cbn [orb PyStr.exponent].
    pose proof (nb_digits_pos _ Hd) as Hn.
    destruct (Z.eqb_spec (Z.of_nat (Decimal.nb_digits (Pos.to_uint p)) + 0) 0);
      [lia|].
    unfold PyStr.decimal_value. cbn [Z.sub Z.opp Z.add Z.leb Z.compare].
    rewrite Z.pow_0_r, Z.mul_1_r. reflexivity.
  - rewrite str_of_int_neg.
    pose proof (DecimalPos.Unsigned.to_uint_nonnil p) as Hd.
    cbn [PyStr.sign].
    destruct (uint_string_shape _ Hd) as (_ & -> & -> & ->).
    rewrite digitpart_uint by exact Hd. rewrite uint_value_to_uint.
    cbn [orb PyStr.exponent].
    pose proof (nb_digits_pos _ Hd) as Hn.
    destruct (Z.eqb_spec (Z.of_nat (Decimal.nb_digits (Pos.to_uint p)) + 0) 0);
      [lia|].
    unfold PyStr.decimal_value. cbn [Z.sub Z.opp Z.add Z.leb Z.compare].
    rewrite Z.pow_0_r, Z.mul_1_r. reflexivity.
Qed.

(** ** The text of a run *)

Lemma write_records_app (rs : list SpeedRecord) (t : string) :
  write_records rs t = t +:+ write_records rs "".
Proof.
  unfold write_records. revert t.
  induction rs as [|r rs IH]; intros t; simpl.
  - rewrite append_nil_r. reflexivity.
  - rewrite IH, (IH ("" +:+ format_record r)), append_nil_l, append_assoc.
    reflexivity.
Qed.

Lemma write_records_cons (r : SpeedRecord) (rs : list SpeedRecord) :
  write_records (r :: rs) ""
  = record_line r +:+ String newline (write_records rs "").
Proof.
  unfold write_records at 1. simpl. fold (write_records rs ("" +:+ format_record r)).
  rewrite write_records_app, append_nil_l.
  unfold format_record, record_line. rewrite !append_assoc. reflexivity.
Qed.

Lemma str_of_int_head (z : Z) :
  exists c s, str_of_int z = String c s /\ PyStr.is_space c = false.
Proof.
  pose proof (str_of_int_chars z) as H.
  assert (Hne : str_of_int z <> EmptyString).
  { destruct z as [|p|p]; [discriminate | |rewrite str_of_int_neg; discriminate].
    rewrite str_of_int_pos.
    pose proof (DecimalPos.Unsigned.to_uint_nonnil p).
    destruct (Pos.to_uint p); [congruence | discriminate ..]. }
  destruct (str_of_int z) as [|c s]; [congruence|].
  exists c, s. split; [reflexivity|].
  simpl in H. apply andb_prop in H as [Hc _].
  apply (is_int_char_facts c Hc).
Qed.

Lemma record_line_chars (r : SpeedRecord) :
  string_forall line_char (record_line r) = true.
Proof.
  assert (Hint : forall z, string_forall line_char (str_of_int z) = true).
  { intros z. apply (string_forall_impl is_int_char); [|apply str_of_int_chars].
    intros c Hc. unfold line_char. rewrite Hc. reflexivity. }
  unfold record_line. rewrite !string_forall_app, !Hint. reflexivity.
Qed.

Lemma line_char_facts (c : ascii) :
  line_char c = true ->
  PyStr.is_space c = false /\ Ascii.eqb c newline = false.
Proof.
  destruct c as [[] [] [] [] [] [] [] []]; vm_compute; intros H;
    try discriminate H; repeat split.
Qed.

Lemma record_line_head (r : SpeedRecord) :
  exists c s, record_line r = String c s /\ PyStr.is_space c = false.
Proof.
  destruct (str_of_int_head (frameStart r)) as (c & s & Hs & Hc).
  unfold record_line. rewrite Hs. sapp. eauto.
Qed.

Lemma joined_cons (l : string) (ls : list string) :
  ls <> [] -> joined (l :: ls) = l +:+ String newline (joined ls).
Proof. destruct ls; [congruence | reflexivity]. Qed.

Lemma joined_nonempty (r : SpeedRecord) (rs : list SpeedRecord) :
  exists c s, joined (map record_line (r :: rs)) = String c s.
Proof.
  destruct (record_line_head r) as (c & s & Hs & _).
  destruct rs as [|r' rs]; simpl; rewrite Hs; sapp; eauto.
Qed.

(** Stripping the text of a run removes its last newline only. *)
Lemma strip_write_records (rs : list SpeedRecord) :
  rs <> [] ->
  PyStr.strip (write_records rs "") = joined (map record_line rs).
Proof.
  intros Hne. unfold PyStr.strip.
  assert (Hl : PyStr.lstrip (write_records rs "") = write_records rs "").
  { destruct rs as [|r rs]; [congruence|]. rewrite write_records_cons.
    destruct (record_line_head r) as (c & s & -> & Hc). sapp. simpl.
    rewrite Hc. reflexivity. }
  rewrite Hl. clear Hl.
  induction rs as [|r rs IH]; [congruence|].
  rewrite write_records_cons, rstrip_app.
  assert (Hr : PyStr.rstrip (record_line r) = record_line r).
  { apply rstrip_id. apply (string_forall_impl line_char);
      [|apply record_line_chars].
    intros c Hc. destruct (line_char_facts c Hc) as [-> _]. reflexivity. }
  destruct rs as [|r' rs].
  - simpl. exact Hr.
  - cbn [map]. rewrite joined_cons by discriminate.
    change (record_line r' :: map record_line rs)
      with (map record_line (r' :: rs)).
    cbn [PyStr.rstrip]. rewrite IH by discriminate.
    destruct (joined_nonempty r' rs) as (c & s & ->). reflexivity.
Qed.

Lemma split_joined (rs : list SpeedRecord) :
  rs <> [] ->
  PyStr.split newline (joined (map record_line rs)) = map record_line rs.
Proof.
  intros Hne.
  assert (Hnl : forall r,
            string_forall (fun c => negb (Ascii.eqb c newline)) (record_line r)
            = true).
  { intros r. apply (string_forall_impl line_char); [|apply record_line_chars].
    intros c Hc. destruct (line_char_facts c Hc) as [_ ->]. reflexivity. }
  induction rs as [|r rs IH]; [congruence|].
  destruct rs as [|r' rs].
  - simpl. apply split_none, Hnl.
  - cbn [map]. rewrite joined_cons by discriminate.
    rewrite split_app_sep by apply Hnl.
    change (record_line r' :: map record_line rs)
      with (map record_line (r' :: rs)).
    rewrite IH by discriminate. reflexivity.
Qed.

Lemma split_record_line (r : SpeedRecord) :
  PyStr.split "," (record_line r)
  = [str_of_int (frameStart r); str_of_int (frameEnd r);
     str_of_int (speed_of r)].
Proof.
  assert (Hc : forall z,
            string_forall (fun c => negb (Ascii.eqb c ",")) (str_of_int z)
            = true).
  { intros z. apply (string_forall_impl is_int_char); [|apply str_of_int_chars].
    intros c Hc. destruct (is_int_char_facts c Hc) as (_ & -> & _).
    reflexivity. }
  unfold record_line. sapp.
  rewrite split_app_sep by apply Hc. rewrite split_app_sep by apply Hc.
  rewrite split_none by apply Hc. reflexivity.
Qed.

(** The lines the readers see in the text of a non-empty run. *)
Lemma lines_of_records (rs : list SpeedRecord) :
  rs <> [] ->
  PyStr.split newline (PyStr.strip (write_records rs ""))
  = map record_line rs.
Proof. intros H. rewrite strip_write_records, split_joined; auto. Qed.

Lemma rmap_ok_map {A B : Type} (f : A -> result B) (g : A -> B) (l : list A) :
  (forall a, In a l -> f a = Ok (g a)) -> rmap f l = Ok (map g l).
Proof.
  induction l as [|a l IH]; intros H; simpl; [reflexivity|].
  rewrite (H a) by (left; reflexivity). simpl.
  rewrite IH by (intros; apply H; right; assumption). reflexivity.
Qed.

Lemma read_series_records (rs : list SpeedRecord) :
  rs <> [] ->
  read_series (write_records rs "")
  = Ok (map frameEnd rs, map (fun r => nearest_float (speed_of r)) rs).
Proof.
  intros Hne. unfold read_series, frame_data_of.
  rewrite lines_of_records by exact Hne. rewrite map_map.
  unfold frame_numbers_of, speeds_of. rewrite !rmap_map.
  rewrite (rmap_ok_map _ frameEnd).
  2:{ intros r _. rewrite split_record_line. cbn.
      apply int_of_str_of_int. }
  rewrite (rmap_ok_map _ (fun r => nearest_float (speed_of r))).
  2:{ intros r _. rewrite split_record_line. cbn.
      apply float_of_str_of_int. }
  reflexivity.
Qed.

Lemma holds_int_round (f : spec_float) (z : Z) :
  holds_int f z -> PyFloat.round f = Ok z /\ PyFloat.to_int f = Ok z.
Proof.
  destruct f as [s|s| |s m e]; simpl; try contradiction.
  - intros ->. split; reflexivity.
  - intros H. destruct (Z.leb_spec 0 e) as [He|He].
    + rewrite Z.max_r in H by lia. replace (Z.max 0 (- e)) with 0 in H by lia.
      rewrite Z.pow_0_r, Z.mul_1_r in H. subst z.
      destruct s; simpl; split; f_equal; lia.
    + rewrite Z.max_l, Z.pow_0_r, Z.mul_1_r in H by lia.
      replace (Z.max 0 (- e)) with (- e) in H by lia.
      assert (Hq : 0 < 2 ^ (- e)) by (apply Z.pow_pos_nonneg; lia).
      assert (Hm : Zpos m = PyFloat.cond_opp s z * 2 ^ (- e))
        by (destruct s; simpl in *; lia).
      rewrite Hm. unfold PyFloat.round_half_even.
      rewrite Z.div_mul, Z.mod_mul by lia.
      replace (2 * 0 ?= 2 ^ (- e)) with Lt
        by (symmetry; apply Z.compare_lt_iff; lia).
      destruct s; simpl; split; f_equal; lia.
Qed.

Lemma nearest_float_holds (z : Z) :
  binary64_int z -> holds_int (nearest_float z) z.
Proof.
  intros Hrep. unfold nearest_float.
  assert (Hpos : forall sx p, binary64_int (Zpos p) ->
            holds_int (binary_round PyFloat.prec PyFloat.emax sx p 0)
              (PyFloat.cond_opp sx (Zpos p))).
  { clear. intros sx p Hrep.
    destruct (binary64_int_pos p Hrep) as (m0 & e0 & Hp & Hm0 & He0).
    unfold binary_round, shl_align. rewrite Z.add_0_r.
    change (Zpos (digits2_pos p)) with (Zdigits2 (Zpos p)).
    set (e := fexp PyFloat.prec PyFloat.emax (Zdigits2 (Zpos p))).
    destruct (binary_round_aux_exact sx p (Z.max 0 (- e)) m0 e0 Hp Hm0 He0)
      as (e1 & He1 & Hee0 & Heq); [lia | fold e; lia |].
    fold e in He1. subst e1.
    assert (Hgoal : binary_round_aux PyFloat.prec PyFloat.emax sx
                      (Zpos p * 2 ^ Z.max 0 (- e)) (- Z.max 0 (- e)) loc_Exact
                    = let '(mz, ez) :=
                        match e - 0 with
                        | Zneg d => (Pos.iter xO p d, e)
                        | _ => (p, 0)
                        end in
                      binary_round_aux PyFloat.prec PyFloat.emax sx (Zpos mz) ez
                        loc_Exact).
    { destruct (e - 0) as [|q|q] eqn:E.
      - replace (Z.max 0 (- e)) with 0 by lia.
        rewrite Z.pow_0_r, Z.mul_1_r. reflexivity.
      - replace (Z.max 0 (- e)) with 0 by lia.
        rewrite Z.pow_0_r, Z.mul_1_r. reflexivity.
      - replace (Z.max 0 (- e)) with (Zpos q) by lia.
        rewrite pos_iter_xO. replace (- Zpos q) with e by lia. reflexivity. }
    cbv zeta. rewrite <- Hgoal, Heq. clear Hgoal Heq.
    assert (HM : 0 < m0 * 2 ^ (e0 - e))
      by (apply Z.mul_pos_pos; [lia | apply Z.pow_pos_nonneg; lia]).
    unfold holds_int. rewrite Z2Pos.id by exact HM.
    assert (Hv : m0 * 2 ^ (e0 - e) * 2 ^ Z.max 0 e
                 = Zpos p * 2 ^ Z.max 0 (- e)).
    { rewrite Hp, <- !Z.mul_assoc, <- !Z.pow_add_r by lia.
      do 2 f_equal. lia. }
    destruct sx; simpl PyFloat.cond_opp; lia. }
  destruct z as [|p|p]; cbn [binary_normalize].
  - reflexivity.
  - apply (Hpos false p Hrep).
  - apply binary64_int_opp in Hrep. apply (Hpos true p Hrep).
Qed.

Lemma parse_line_record (r : SpeedRecord) :
  binary64_int (frameStart r) -> binary64_int (frameEnd r) ->
  parse_line (record_line r)
  = Ok (frameStart r, frameEnd r, nearest_float (speed_of r)).
Proof.
  intros Ha Hb. unfold parse_line. rewrite split_record_line.
  cbn [take rmap]. rewrite !float_of_str_of_int. cbn.
  rewrite (proj2 (holds_int_round _ _ (nearest_float_holds _ Ha))).
  rewrite (proj2 (holds_int_round _ _ (nearest_float_holds _ Hb))).
  reflexivity.
Qed.

(** ** Reading a text back *)

Lemma parse_lines_rmap (lines : list string) (ts : list (Z * Z * spec_float))
    (d : gmap Z Z) :
  rmap parse_line lines = Ok ts ->
  parse_lines lines d = for_each expand_record ts d.
Proof.
  unfold parse_lines. revert ts d.
  induction lines as [|line lines IH]; intros ts d H; simpl in H.
  - injection H as <-. reflexivity.
  - apply bind_Ok in H as (t & Ht & H). apply bind_Ok in H as (ts' & Hts & H).
    injection H as <-. simpl. rewrite Ht. simpl.
    destruct (expand_record t d); simpl; [apply IH; exact Hts | reflexivity].
Qed.

Lemma parse_lines_Ok (lines : list string) (d0 d : gmap Z Z) :
  parse_lines lines d0 = Ok d ->
  exists ts, rmap parse_line lines = Ok ts
             /\ for_each expand_record ts d0 = Ok d.
Proof.
  unfold parse_lines. revert d0.
  induction lines as [|line lines IH]; intros d0 H; simpl in H.
  - exists []. split; [reflexivity | exact H].
  - apply bind_Ok in H as (d1 & Hd1 & H).
    apply bind_Ok in Hd1 as (t & Ht & Hd1).
    destruct (IH d1 H) as (ts & Hts & Hfor).
    exists (t :: ts). simpl. rewrite Ht, Hts. simpl. rewrite Hd1. simpl.
    split; [reflexivity | exact Hfor].
Qed.








(** C5, as the code has it.  For a non-empty sequence of records whose
    integers binary64 holds exactly, as the speeds of a run and frame
    numbers below 2^53 are, writing one line per record and reading the text back gives the
    original triples in order: [parse_speed_data] unpacks each line to the
    record's two frames and a float that is exactly its speed, and goes on
    to build its dictionary from these; the transfer operators read each
    record's end frame and that same float. *)
Theorem series_roundtrip (rs : list SpeedRecord) :
  rs <> [] -> Forall binary64_record rs ->
  let text := write_records rs "" in
  let speed_float r := nearest_float (speed_of r) in
  rmap parse_line (PyStr.split newline (PyStr.strip text))
  = Ok (map (fun r => (frameStart r, frameEnd r, speed_float r)) rs)
  /\ (forall name texts, texts !! name = Some text ->
        parse_speed_data name texts
        = for_each expand_record
            (map (fun r => (frameStart r, frameEnd r, speed_float r)) rs) ∅)
  /\ read_series text = Ok (map frameEnd rs, map speed_float rs)
  /\ Forall (fun r => holds_int (speed_float r) (speed_of r)
                      /\ PyFloat.round (speed_float r) = Ok (speed_of r)) rs.
Proof.
  intros Hne Hrep text speed_float. unfold text.
  assert (Hlines :
            rmap parse_line
              (PyStr.split newline (PyStr.strip (write_records rs "")))
            = Ok (map (fun r => (frameStart r, frameEnd r, speed_float r)) rs)).
  { rewrite lines_of_records by exact Hne. rewrite rmap_map.
    apply rmap_ok_map. intros r Hr.
    apply list_elem_of_In in Hr.
    rewrite Forall_forall in Hrep. destruct (Hrep r Hr) as (Ha & Hb & _).
    apply parse_line_record; assumption. }
  split; [exact Hlines|]. split; [|split].
  - intros name texts Ht. unfold parse_speed_data. rewrite Ht.
    apply parse_lines_rmap. exact Hlines.
  - apply read_series_records. exact Hne.
  - eapply Forall_impl; [exact Hrep|]. intros r (_ & _ & Hc).
    pose proof (nearest_float_holds _ Hc) as Hh.
    split; [exact Hh | apply (holds_int_round _ _ Hh)].
Qed.

Lemma series_roundtrip_witness :
  read_series (write_records [(0, 1, 240000); (1, 2, -7)] "")
  = Ok ([1; 2], [nearest_float 240000; nearest_float (-7)]).
Proof.
  apply (proj1 (proj2 (proj2 (series_roundtrip [(0, 1, 240000); (1, 2, -7)]
                         ltac:(discriminate)
                         ltac:(repeat constructor; apply binary64_int_small;
                               vm_compute; reflexivity))))).
Defined.

(** C5 as claimed fails on the empty sequence: nothing is written, and the
    empty text is read as one empty line, on which every reader raises. *)
Lemma empty_series_counterexample :
  write_records [] "" = ""
  /\ read_series (write_records [] "") = Raise IndexError
  /\ rmap parse_line (PyStr.split newline (PyStr.strip (write_records [] "")))
     = Raise ValueError
  /\ parse_speed_data "speed_data" {["speed_data" := write_records [] ""]}
     = Raise ValueError.
Proof. repeat split. Qed.




(** ** [OBJECT_OT_GetSpeed] as a whole *)







(** ** The overlay *)

Lemma in_range2 (start stop frame : Z) :
  In frame (range2 start stop) <-> start <= frame < stop.
Proof.
  unfold range2. rewrite in_map_iff. split.
  - intros (i & <- & Hi). apply in_seq in Hi. lia.
  - intros H. exists (Z.to_nat (frame - start)). split; [lia|].
    apply in_seq. lia.
Qed.

Lemma insert_rounded_lookup (s : spec_float) (frames : list Z)
    (d0 d : gmap Z Z) (frame : Z) :
  for_each (fun f d' => rounded ← PyFloat.round s; Ok (<[f := rounded]> d'))
    frames d0 = Ok d ->
  (In frame frames ->
   exists v, PyFloat.round s = Ok v /\ d !! frame = Some v)
  /\ (~ In frame frames -> d !! frame = d0 !! frame).
Proof.
  revert d0. induction frames as [|f frames IH]; intros d0 H; simpl in H.
  - injection H as <-. split; [intros [] | reflexivity].
  - apply bind_Ok in H as (d1 & Hd1 & H).
    apply bind_Ok in Hd1 as (v & Hv & Hd1). injection Hd1 as <-.
    destruct (IH _ H) as [IHin IHout].
    destruct (in_dec Z.eq_dec frame frames) as [Hin|Hnin].
    + split; [intros _; apply IHin; exact Hin|].
      intros Hn. exfalso. apply Hn. right. exact Hin.
    + split.
      * intros [->|Hin]; [|contradiction].
        exists v. split; [exact Hv|].
        rewrite (IHout Hnin). apply lookup_insert_eq.
      * intros Hn. rewrite (IHout Hnin).
        apply lookup_insert_ne. intros ->. apply Hn. left. reflexivity.
Qed.

Lemma expand_record_lookup (t : Z * Z * spec_float) (d0 d : gmap Z Z)
    (frame : Z) :
  expand_record t d0 = Ok d ->
  (covers t frame ->
   exists v, PyFloat.round t.2 = Ok v /\ d !! frame = Some v)
  /\ (~ covers t frame -> d !! frame = d0 !! frame).
Proof.
  destruct t as [[a b] s]. unfold expand_record, covers. cbn [fst snd].
  intros H. destruct (insert_rounded_lookup s _ d0 d frame H) as [Hin Hout].
  split.
  - intros Hc. apply Hin. apply in_range2. lia.
  - intros Hc. apply Hout. rewrite in_range2. lia.
Qed.

Lemma expand_series_lookup (ts : list (Z * Z * spec_float)) (d0 d : gmap Z Z)
    (frame : Z) :
  for_each expand_record ts d0 = Ok d ->
  (forall pre t post, ts = pre ++ t :: post -> covers t frame ->
     Forall (fun t' => ~ covers t' frame) post ->
     exists v, PyFloat.round t.2 = Ok v /\ d !! frame = Some v)
  /\ (Forall (fun t' => ~ covers t' frame) ts -> d !! frame = d0 !! frame).
Proof.
  revert d0. induction ts as [|t0 ts IH]; intros d0 H; simpl in H.
  - injection H as <-. split; [|reflexivity].
    intros [|? ?] ? ? Heq; discriminate Heq.
  - apply bind_Ok in H as (d1 & Hd1 & H).
    destruct (IH _ H) as [IHlast IHnone].
    destruct (expand_record_lookup t0 d0 d1 frame Hd1) as [Hin Hout].
    split.
    + intros [|t' pre] t post Heq Hc Hpost; simpl in Heq;
        injection Heq as -> ->.
      * destruct (Hin Hc) as (v & Hv & Hd).
        exists v. split; [exact Hv|]. rewrite (IHnone Hpost). exact Hd.
      * eapply IHlast; eauto.
    + intros Hall. apply Forall_cons in Hall as [Hc Hall].
      rewrite (IHnone Hall). apply Hout. exact Hc.
Qed.

(** C9. When [parse_speed_data] returns a dictionary, the lines of the text
    block parse to a series of records, and for every frame: if a record
    covers the frame in its inclusive range and no later record does, the
    lookup gives that record's rounded speed; if no record covers it, the
    lookup gives the default 0. *)
Theorem overlay_lookup (name : string) (texts : gmap string string)
    (speed_data : gmap Z Z) :
  parse_speed_data name texts = Ok speed_data ->
  exists series,
    match texts !! name with
    | Some text =>
        rmap parse_line (PyStr.split newline (PyStr.strip text)) = Ok series
    | None => series = []
    end
    /\ forall frame,
         (forall pre frame_start frame_end speed post,
            series = pre ++ (frame_start, frame_end, speed) :: post ->
            frame_start <= frame <= frame_end ->
            Forall (fun later => ~ covers later frame) post ->
            PyFloat.round speed = Ok (lookup_speed speed_data frame))
         /\ (Forall (fun r => ~ covers r frame) series ->
             lookup_speed speed_data frame = 0).
Proof.
  unfold parse_speed_data. intros H.
  assert (Hseries : exists series,
            match texts !! name with
            | Some text =>
                rmap parse_line (PyStr.split newline (PyStr.strip text))
                = Ok series
            | None => series = []
            end
            /\ for_each expand_record series ∅ = Ok speed_data).
  { destruct (texts !! name) as [text|].
    - apply parse_lines_Ok in H as (ts & Hts & Hfor). eauto.
    - exists []. split; [reflexivity | exact H]. }
  destruct Hseries as (series & Hseries & Hfor).
  exists series. split; [exact Hseries|]. intros frame.
  destruct (expand_series_lookup series ∅ speed_data frame Hfor)
    as [Hlast Hnone].
  unfold lookup_speed. split.
  - intros pre a b s post Heq Hc Hpost.
    destruct (Hlast pre (a, b, s) post Heq Hc Hpost) as (v & Hv & Hd).
    rewrite Hd. exact Hv.
  - intros Hall. rewrite (Hnone Hall), lookup_empty. reflexivity.
Qed.

Lemma overlay_lookup_witness :
  let texts : gmap string string :=
    {["speed_data" := write_records [(0, 2, 10); (2, 4, 20)] ""]} in
  let speed_data : gmap Z Z :=
    list_to_map [(0, 10); (1, 10); (2, 20); (3, 20); (4, 20)] in
  parse_speed_data "speed_data" texts = Ok speed_data
  /\ map (lookup_speed speed_data) [0; 1; 2; 3; 4; 5] = [10; 10; 20; 20; 20; 0]
  /\ exists series : list (Z * Z * spec_float), length series = 2%nat.
Proof.
  intros texts speed_data.
  assert (E : parse_speed_data "speed_data" texts = Ok speed_data)
    by (vm_compute; reflexivity).
  split; [exact E|]. split; [vm_compute; reflexivity|].
  destruct (overlay_lookup "speed_data" texts speed_data E)
    as (series & Hseries & _).
  exists series. unfold texts in Hseries.
  rewrite lookup_singleton_eq in Hseries.
  apply rmap_length in Hseries. rewrite Hseries. vm_compute. reflexivity.
Defined.

(** C10, as the code has it.  When the text block is missing, or is read
    without an exception, the operator finishes and the frame-change list
    holds exactly one handler, the new [update_text], whatever it held
    before; when reading the block raises, the exception escapes before
    the list is touched. *)
Theorem DisplaySpeed_handlers (b : bpy) :
  let out := DisplaySpeed_execute b in
  let name := text_block_name (speed_data_processor b) in
  (forall speed_data, parse_speed_data name (texts b) = Ok speed_data ->
     returned out = Ok FINISHED
     /\ frame_change_post (host out) = [update_text speed_data])
  /\ (forall e, parse_speed_data name (texts b) = Raise e ->
        returned out = Raise e
        /\ frame_change_post (host out) = frame_change_post b).
Proof.
  intros out name. unfold out, DisplaySpeed_execute. fold name.
  set (b1 := match objects b !! "SpeedText" with
             | None => _
             | Some _ => b
             end).
  assert (Ht : texts b1 = texts b)
    by (unfold b1; destruct (objects b !! "SpeedText"); reflexivity).
  assert (Hh : frame_change_post b1 = frame_change_post b)
    by (unfold b1; destruct (objects b !! "SpeedText"); reflexivity).
  rewrite Ht. split.
  - intros speed_data ->. split; reflexivity.
  - intros e ->. split; [reflexivity | exact Hh].
Qed.

Lemma DisplaySpeed_handlers_witness :
  let b := host (GetSpeed_execute (example_host 0 2 24)) in
  length (frame_change_post b) = 2%nat
  /\ length (frame_change_post (host (DisplaySpeed_execute b))) = 1%nat.
Proof.
  intros b. split; [reflexivity|].
  destruct (parse_speed_data "speed_data" (texts b)) as [speed_data|e] eqn:E;
    [|vm_compute in E; discriminate E].
  rewrite (proj2 (proj1 (DisplaySpeed_handlers b) speed_data E)).
  reflexivity.
Defined.

(** C10 as claimed fails when reading the text block raises: after a run
    over a single frame the block is empty, the operator raises
    [ValueError], and the two handlers of other add-ons are still there. *)
Lemma DisplaySpeed_handlers_counterexample :
  let b := host (GetSpeed_execute (example_host 3 3 24)) in
  let out := DisplaySpeed_execute b in
  returned (GetSpeed_execute (example_host 3 3 24)) = Ok FINISHED
  /\ texts b !! "speed_data" = Some ""
  /\ returned out = Raise ValueError
  /\ frame_change_post (host out) = [foreign_handler 1; foreign_handler 2].
Proof. vm_compute. repeat split. Qed.

(** ** The transfer operators *)

Lemma insert_keyframes_spec (frame_numbers : list Z) (speeds : list spec_float) :
  insert_keyframes frame_numbers speeds
  = zip_with constant_key frame_numbers speeds.
Proof.
  unfold insert_keyframes.
  assert (H : forall (l : list (Z * spec_float)) (points : list Keyframe),
            fold_left (fun points '(frame, speed) =>
                         points ++ [{| key_frame := frame; key_value := speed;
                                       key_interpolation := "CONSTANT" |}])
              l points
            = points ++ (uncurry constant_key <$> l)).
  { induction l as [|[frame speed] l IH]; intros points; simpl.
    - rewrite app_nil_r. reflexivity.
    - rewrite IH, <- app_assoc. reflexivity. }
  rewrite H. symmetry. apply zip_with_zip.
Qed.

Lemma read_series_fields (text : string) (frame_numbers : list Z)
    (speeds : list spec_float) :
  read_series text = Ok (frame_numbers, speeds) ->
  let lines := PyStr.split newline (PyStr.strip text) in
  length frame_numbers = length lines /\ length speeds = length lines
  /\ forall (i : nat) (line : string), lines !! i = Some line ->
       exists f0 f1 f2 rest frame speed,
         PyStr.split "," line = f0 :: f1 :: f2 :: rest
         /\ PyStr.int_of_str f1 = Ok frame /\ frame_numbers !! i = Some frame
         /\ PyStr.float_of_str f2 = Ok speed /\ speeds !! i = Some speed.
Proof.
  intros H lines. revert H.
  unfold read_series, frame_data_of, frame_numbers_of, speeds_of.
  rewrite !rmap_map. fold lines. intros H.
  apply bind_Ok in H as (fn & Hfn & H). apply bind_Ok in H as (sp & Hsp & H).
  injection H as <- <-.
  split; [apply (rmap_length _ _ _ Hfn)|].
  split; [apply (rmap_length _ _ _ Hsp)|].
  intros i line Hi.
  destruct (rmap_lookup _ _ _ i line Hfn Hi) as (frame & Hframe & Hint).
  destruct (rmap_lookup _ _ _ i line Hsp Hi) as (speed & Hspeed & Hfloat).
  cbv beta in Hint, Hfloat.
  destruct (PyStr.split "," line) as [|f0 [|f1 [|f2 rest]]];
    try discriminate Hint; try discriminate Hfloat.
  exists f0, f1, f2, rest, frame, speed. auto 10.
Qed.

Lemma animate_value_node_spec (unique_name : list string -> string -> string)
    (new_action_name : string) (frame_numbers : list Z)
    (speeds : list spec_float) (tree : NodeTree) (acts : list Action) :
  exists value_node curve id,
    animate_value_node unique_name new_action_name frame_numbers speeds
      tree acts
    = (with_value_node tree value_node id,
       (animate_value_node unique_name new_action_name frame_numbers speeds
          tree acts).2)
    /\ Node.type value_node = "ShaderNodeValue"
    /\ data_path curve = value_data_path (Node.name value_node)
    /\ keyframe_points curve = zip_with constant_key frame_numbers speeds
    /\ curve_added new_action_name curve tree id acts
         (animate_value_node unique_name new_action_name frame_numbers speeds
            tree acts).2.
Proof.
  unfold animate_value_node, curve_added, with_value_node.
  set (value_node := {| Node.type := "ShaderNodeValue";
                        Node.name := _; Node.label := _;
                        Node.location := _ |}).
  set (curve := {| data_path := _; keyframe_points := _ |}).
  assert (Haction : action match animation_data tree with
                           | Some a => a
                           | None => {| action := None |}
                           end = tree_action tree).
  { unfold tree_action. destruct (animation_data tree); reflexivity. }
  rewrite Haction.
  destruct (tree_action tree) as [old|] eqn:E.
  - exists value_node, curve, old. cbn [snd]. repeat split.
    + apply insert_keyframes_spec.
    + apply length_alter.
    + intros a Ha. rewrite list_lookup_alter_eq, Ha. reflexivity.
    + intros j Hj. apply list_lookup_alter_ne. congruence.
  - exists value_node, curve, (length acts). repeat split.
    + apply insert_keyframes_spec.
    + cbn [snd]. rewrite alter_app_r_alt by lia.
      rewrite Nat.sub_diag. reflexivity.
Qed.

Lemma active_object_store (b : bpy) (obj obj' : Object.t) :
  active_object b = Some obj ->
  active_object (store_object (context_object b) obj' b) = Some obj'.
Proof.
  unfold active_object, store_object.
  destruct (context_object b) as [name|] eqn:E; [|discriminate].
  intros _. cbn [set_objects context_object objects]. rewrite E.
  cbn. apply lookup_insert_eq.
Qed.



(** * Further properties of the operators *)

(** ** The records of a run *)

Lemma average_at_frames (w : Z) (rs : list SpeedRecord) (i : Z)
    (r : SpeedRecord) :
  average_at w rs i = Ok r ->
  exists d, index rs i = Ok d
            /\ frameStart r = frameStart d /\ frameEnd r = frameEnd d.
Proof.
  unfold average_at. intros H.
  apply bind_Ok in H as (avg & _ & H).
  apply bind_Ok in H as (d & Hd & H).
  apply bind_Ok in H as (s & _ & H).
  exists d. injection H as <-. auto.
Qed.

Lemma averaging_pass_frames (w : Z) (rs out : list SpeedRecord) :
  averaging_pass w rs = Ok out ->
  length out = length rs
  /\ forall (i : nat) (r : SpeedRecord), rs !! i = Some r ->
       exists s, out !! i = Some (frameStart r, frameEnd r, s).
Proof.
  rewrite averaging_pass_spec. intros H.
  apply rmap_seq_lookup in H as [Hlen H]. split; [exact Hlen|].
  intros i r Hi. destruct (H i r Hi) as (r' & Hr' & Hav).
  apply average_at_frames in Hav as (d & Hd & Hs & He).
  cbn in Hd. rewrite (index_lookup _ _ _ Hi) in Hd. injection Hd as <-.
  exists (speed_of r'). etrans; [exact Hr'|]. f_equal.
  destruct r' as [[a c] s]. unfold frameStart, frameEnd, speed_of in *.
  cbn in *. congruence.
Qed.

Lemma record_at_frames (interval fps : Z) (location_at : Z -> Vector.t)
    (frame : Z) (r : SpeedRecord) :
  record_at interval fps location_at frame = Ok r ->
  frameStart r = frame - interval /\ frameEnd r = frame.
Proof.
  unfold record_at. intros H. apply bind_Ok in H as (s & _ & H).
  injection H as <-. auto.
Qed.

(** The frames of the records of a run, smoothed or not. *)
Lemma computed_records_frames (b : bpy) (obj : Object.t)
    (rs : list SpeedRecord) :
  let k := stride (speed_data_processor b) in
  1 <= k -> computed_records b obj = Ok rs ->
  length rs = record_count (frame_start b) (frame_end b) k
  /\ forall (i : nat) (r : SpeedRecord), rs !! i = Some r ->
       frameStart r = frame_start b + Z.of_nat i * k
       /\ frameEnd r = frame_start b + Z.of_nat (S i) * k.
Proof.
  intros k Hk. unfold computed_records. fold k.
  rewrite (sampling_pass_spec _ _ _ _ _ _ Hk). intros H.
  apply bind_Ok in H as (sampled & Hs & H).
  assert (Hsampled : length sampled
                     = record_count (frame_start b) (frame_end b) k
            /\ forall (i : nat) (r : SpeedRecord), sampled !! i = Some r ->
                 frameStart r = frame_start b + Z.of_nat i * k
                 /\ frameEnd r = frame_start b + Z.of_nat (S i) * k).
  { split.
    - rewrite (rmap_length _ _ _ Hs). apply length_seq.
    - intros i r Hi.
      assert (Hlt : (i < record_count (frame_start b) (frame_end b) k)%nat).
      { pose proof (lookup_lt_Some _ _ _ Hi) as Hlt.
        rewrite (rmap_length _ _ _ Hs), length_seq in Hlt. exact Hlt. }
      destruct (rmap_lookup _ _ _ i i Hs) as (r' & Hr' & Hrec).
      { apply lookup_seq. lia. }
      rewrite Hi in Hr'. injection Hr' as <-.
      apply record_at_frames in Hrec as [-> ->]. lia. }
  destruct (apply_averaging (speed_data_processor b)).
  - apply averaging_pass_frames in H as [Hlen H].
    destruct Hsampled as [Hn Hf]. split; [congruence|].
    intros i r Hi.
    assert (Hlt : (i < length sampled)%nat).
    { rewrite <- Hlen. eapply lookup_lt_Some, Hi. }
    apply lookup_lt_is_Some in Hlt as [r0 Hr0].
    destruct (H i r0 Hr0) as (s & Hout).
    pose proof (eq_trans (eq_sym Hi) Hout) as E. injection E as ->.
    apply (Hf i r0 Hr0).
  - injection H as <-. exact Hsampled.
Qed.

(** X1. The records of a finished run tile the frame range: the first
    starts at the scene's first frame, each starts where the one before
    ends and is one stride long, and the last ends less than a stride
    before the scene's last frame.  Smoothing does not change this. *)
Theorem records_tile_the_range (b : bpy) (obj : Object.t)
    (rs : list SpeedRecord) :
  let k := stride (speed_data_processor b) in
  1 <= k -> computed_records b obj = Ok rs ->
  (forall r, head rs = Some r -> frameStart r = frame_start b)
  /\ (forall r, In r rs -> frameEnd r = frameStart r + k)
  /\ (forall (i : nat) r r', rs !! i = Some r -> rs !! S i = Some r' ->
        frameStart r' = frameEnd r)
  /\ (forall r, last rs = Some r ->
        frame_end b - k < frameEnd r <= frame_end b).
Proof.
  intros k Hk Hrs.
  destruct (computed_records_frames b obj rs Hk Hrs) as [Hlen Hf].
  fold k in Hlen, Hf. split; [|split; [|split]].
  - intros r Hr. rewrite head_lookup in Hr.
    destruct (Hf 0%nat r Hr) as [-> _]. lia.
  - intros r Hr.
    apply list_elem_of_In, list_elem_of_lookup in Hr as [i Hi].
    destruct (Hf i r Hi) as [-> ->]. lia.
  - intros i r r' Hr Hr'.
    destruct (Hf i r Hr) as [_ ->]. destruct (Hf (S i) r' Hr') as [-> _].
    reflexivity.
  - intros r Hr. rewrite last_lookup in Hr.
    destruct (Hf _ r Hr) as [_ ->].
    apply lookup_lt_Some in Hr. rewrite Hlen in *.
    unfold record_count in *.
    set (q := (frame_end b - frame_start b) / k) in *.
    pose proof (Z.mod_pos_bound (frame_end b - frame_start b) k ltac:(lia)).
    pose proof (Z.div_mod (frame_end b - frame_start b) k ltac:(lia)).
    fold q in H0.
    replace (Z.of_nat (S (Init.Nat.pred (Z.to_nat (Z.max 0 q))))) with q
      by lia.
    nia.
Qed.

Lemma records_tile_the_range_witness :
  frameStart (0, 1, 240000) = frame_start (example_host 0 3 24)
  /\ frameStart (1, 2, 240000) = frameEnd (0, 1, 240000).
Proof.
  pose proof (records_tile_the_range (example_host 0 3 24) runner
                [(0, 1, 240000); (1, 2, 240000); (2, 3, 240000)]
                ltac:(cbn; lia) ltac:(vm_compute; reflexivity))
    as (Hfirst & _ & Hnext & _).
  split.
  - exact (Hfirst _ eq_refl).
  - exact (Hnext 0%nat _ _ eq_refl eq_refl).
Defined.

(** ** What a run leaves behind *)

Lemma sample_frames_last (interval fps : Z) (location_at : Z -> Vector.t)
    (frames : list Z) (current : Z) (acc acc' : Sampling) :
  (sample_frames interval fps location_at frames current acc).1 = Ok acc' ->
  (sample_frames interval fps location_at frames current acc).2
  = default current (last frames).
Proof.
  revert current acc.
  induction frames as [|f rest IH]; intros current acc; cbn [sample_frames].
  - reflexivity.
  - destruct (sample_frame interval fps location_at f acc) as [a|e];
      [|discriminate].
    intros H. rewrite (IH _ _ H), last_cons.
    destruct (last rest); reflexivity.
Qed.


Lemma last_map_seq (g : nat -> Z) (n : nat) :
  last (map g (seq 0 (S n))) = Some (g n).
Proof.
  rewrite last_lookup, length_map, length_seq. cbn [Init.Nat.pred].
  rewrite list_lookup_fmap, lookup_seq_lt by lia. reflexivity.
Qed.

Lemma sampling_pass_last (start stop interval fps : Z)
    (location_at : Z -> Vector.t) (current : Z) (rs : list SpeedRecord) :
  1 <= interval ->
  (sampling_pass start stop interval fps location_at current).1 = Ok rs ->
  (sampling_pass start stop interval fps location_at current).2
  = if start <=? stop
    then start + interval * ((stop - start) / interval)
    else current.
Proof.
  intros Hk. unfold sampling_pass.
  rewrite (sampled_frames_eq _ _ _ Hk).
  destruct (Z.leb_spec start stop) as [Hle|Hlt].
  - set (frames := map _ _).
    pose proof (sample_frames_last interval fps location_at frames current
                  {| prev_location := None; speed_data := [] |}) as Hlast.
    destruct (sample_frames _ _ _ frames _ _) as [r c]. cbn [fst snd] in *.
    destruct r as [acc|e]; [|discriminate]. intros _.
    rewrite (Hlast acc eq_refl). unfold frames. rewrite last_map_seq.
    cbn [default]. unfold record_count.
    pose proof (Z.div_pos (stop - start) interval ltac:(lia) ltac:(lia)).
    rewrite Z2Nat.id by lia. rewrite Z.max_r by lia. unfold id. ring.
  - cbn. reflexivity.
Qed.

(** [execute] on a selected object, in one piece. *)
Lemma GetSpeed_execute_run (b : bpy) (obj : Object.t) :
  active_object b = Some obj ->
  let props := speed_data_processor b in
  let name := text_block_name props in
  let current :=
    (sampling_pass (frame_start b) (frame_end b) (stride props) (fps b)
       (Object.location obj) (frame_current b)).2 in
  GetSpeed_execute b
  = match computed_records b obj with
    | Ok speed_data =>
        {| returned := Ok FINISHED;
           reported := [(INFO, "Speed data recorded")];
           host := set_texts (<[name := write_records speed_data ""]> (texts b))
                     (set_frame_current current b) |}
    | Raise e =>
        {| returned := Raise e; reported := [];
           host := set_texts (<[name := ""]> (texts b))
                     (set_frame_current current b) |}
    end.
Proof.
  intros Hobj props name current.
  unfold current, GetSpeed_execute, computed_records, stride.
  rewrite Hobj. fold props. fold name.
  set (b1 := match texts b !! name with
             | Some _ => set_texts (<[name := ""]> (texts b)) b
             | None => set_texts (<[name := ""]> (texts b)) b
             end).
  assert (Hb1 : b1 = set_texts (<[name := ""]> (texts b)) b)
    by (unfold b1; destruct (texts b !! name); reflexivity).
  rewrite Hb1. clear b1 Hb1. cbn [frame_current set_texts].
  destruct (sampling_pass _ _ _ _ _ _) as [sampled c]. cbn [fst snd].
  destruct sampled as [speed_data|e]; cbn [mbind result_bind].
  - destruct (if apply_averaging props
              then averaging_pass _ speed_data else Ok speed_data)
      as [sd|e]; cbn.
    + rewrite alter_insert_eq. reflexivity.
    + reflexivity.
  - cbn. reflexivity.
Qed.

(** X2. A run that finishes leaves the scene at the last frame it sampled:
    the last frame of the progression that does not pass the scene's last
    frame.  On an empty range the current frame is not changed. *)
Theorem GetSpeed_leaves_last_frame (b : bpy) (obj : Object.t) :
  let k := stride (speed_data_processor b) in
  active_object b = Some obj -> 1 <= k ->
  returned (GetSpeed_execute b) = Ok FINISHED ->
  frame_current (host (GetSpeed_execute b))
  = if frame_start b <=? frame_end b
    then frame_start b + k * ((frame_end b - frame_start b) / k)
    else frame_current b.
Proof.
  intros k Hobj Hk. rewrite (GetSpeed_execute_run b obj Hobj).
  unfold computed_records. fold k.
  destruct (sampling_pass (frame_start b) (frame_end b) k (fps b)
              (Object.location obj) (frame_current b)).1 as [rs|e] eqn:Hpass;
    cbn [mbind result_bind].
  - intros _.
    pose proof (sampling_pass_last _ _ _ _ _ _ _ Hk Hpass) as Hlast.
    destruct (if apply_averaging _ then _ else _); cbn; exact Hlast.
  - cbn. discriminate.
Qed.

Lemma GetSpeed_leaves_last_frame_witness :
  frame_current (host (GetSpeed_execute strided_host)) = 4.
Proof.
  exact (GetSpeed_leaves_last_frame strided_host runner
           ltac:(reflexivity) ltac:(cbn; lia)
           ltac:(vm_compute; reflexivity)).
Defined.





(** ** The exceptions of a run *)

Lemma bind_Raise {A B : Type} (r : result A) (k : A -> result B) (e : exn) :
  r ≫= k = Raise e -> r = Raise e \/ exists a, r = Ok a /\ k a = Raise e.
Proof.
  destruct r as [a|e']; cbn; intros H; [right; exists a; auto|left; congruence].
Qed.

Lemma rmap_Raise {A B : Type} (f : A -> result B) (l : list A) (e : exn) :
  rmap f l = Raise e -> exists a, In a l /\ f a = Raise e.
Proof.
  induction l as [|a l IH]; cbn [rmap]; [discriminate|]. intros H.
  apply bind_Raise in H as [H|(y & _ & H)]; [exists a; cbn; auto|].
  apply bind_Raise in H as [H|(ys & _ & H)]; [|discriminate].
  destruct (IH H) as (a' & Hin & Ha'). exists a'. cbn. auto.
Qed.

Ltac arithmetic_raise H :=
  unfold PyFloat.square, PyFloat.math_sqrt, PyFloat.int_true_div,
    PyFloat.true_div, PyFloat.of_int, PyFloat.round in H;
  repeat match type of H with
         | context [match ?x with _ => _ end] => destruct x
         end;
  first [discriminate H
        | injection H as <-; unfold arithmetic_exn; auto].

Lemma measure_speed_raises (interval fps : Z) (prev location : Vector.t)
    (e : exn) :
  measure_speed interval fps prev location = Raise e -> arithmetic_exn e.
Proof.
  unfold measure_speed. intros H.
  apply bind_Raise in H as [H|(dx2 & _ & H)]; [arithmetic_raise H|].
  apply bind_Raise in H as [H|(dy2 & _ & H)]; [arithmetic_raise H|].
  apply bind_Raise in H as [H|(d & _ & H)]; [arithmetic_raise H|].
  apply bind_Raise in H as [H|(time & _ & H)]; [arithmetic_raise H|].
  apply bind_Raise in H as [H|(v & _ & H)]; [arithmetic_raise H|].
  apply bind_Raise in H as [H|(hundred & _ & H)]; [arithmetic_raise H|].
  arithmetic_raise H.
Qed.

Lemma sample_frames_raises (interval fps : Z) (location_at : Z -> Vector.t)
    (frames : list Z) (current : Z) (acc : Sampling) (e : exn) :
  (sample_frames interval fps location_at frames current acc).1 = Raise e ->
  arithmetic_exn e.
Proof.
  revert current acc.
  induction frames as [|f rest IH]; intros current acc; cbn [sample_frames].
  - discriminate.
  - destruct (sample_frame interval fps location_at f acc) as [a|e'] eqn:Hf.
    + apply IH.
    + cbn. intros H. injection H as ->. unfold sample_frame in Hf.
      apply bind_Raise in Hf as [Hf|(data & _ & Hf)]; [|discriminate].
      destruct (prev_location acc); [|discriminate].
      apply bind_Raise in Hf as [Hf|(s & _ & Hf)]; [|discriminate].
      eapply measure_speed_raises, Hf.
Qed.

Lemma averaging_pass_raises (w : Z) (rs : list SpeedRecord) (e : exn) :
  averaging_pass w rs = Raise e -> arithmetic_exn e.
Proof.
  rewrite averaging_pass_spec. intros H.
  apply rmap_Raise in H as (i & Hi & H).
  apply in_seq in Hi. unfold average_at in H.
  apply bind_Raise in H as [H|(avg & _ & H)]; [arithmetic_raise H|].
  destruct (lookup_lt_is_Some_2 rs i ltac:(lia)) as [r Hr].
  rewrite (index_lookup _ _ _ Hr) in H. cbn [mbind result_bind] in H.
  apply bind_Raise in H as [H|(s & _ & H)]; [arithmetic_raise H|discriminate].
Qed.

Lemma computed_records_raises (b : bpy) (obj : Object.t) (e : exn) :
  computed_records b obj = Raise e -> arithmetic_exn e.
Proof.
  unfold computed_records. intros H.
  apply bind_Raise in H as [H|(rs & _ & H)].
  - unfold sampling_pass, sampled_frames, range3 in H.
    destruct (_ =? 0); [injection H as <-; left; reflexivity|].
    pose proof (sample_frames_raises (stride (speed_data_processor b)) (fps b)
                  (Object.location obj)
                  (map (fun i : nat =>
                          frame_start b
                          + Z.of_nat i * stride (speed_data_processor b))
                     (seq 0 (Z.to_nat
                               (range_len (frame_start b) (frame_end b + 1)
                                  (stride (speed_data_processor b))))))
                  (frame_current b)
                  {| prev_location := None; speed_data := [] |}) as Hs.
    destruct (sample_frames _ _ _ _ _ _) as [r c]. cbn [fst] in *.
    destruct r as [acc|e']; [discriminate|]. injection H as ->. auto.
  - destruct (apply_averaging _); [|discriminate].
    eapply averaging_pass_raises, H.
Qed.

(** X5. The only exceptions that escape a run are those of its arithmetic:
    [ValueError] (a stride of zero, a speed that is not a number),
    [ZeroDivisionError] (a frame rate or frame time of zero) and
    [OverflowError].  When one does, nothing is reported and the named text
    block is left empty, whatever it held before. *)
Theorem GetSpeed_exceptions (b : bpy) (e : exn) :
  let out := GetSpeed_execute b in
  returned out = Raise e ->
  arithmetic_exn e
  /\ reported out = []
  /\ texts (host out) !! text_block_name (speed_data_processor b) = Some "".
Proof.
  intros out. unfold out.
  destruct (active_object b) as [obj|] eqn:Hobj;
    [|unfold GetSpeed_execute; rewrite Hobj; discriminate].
  rewrite (GetSpeed_execute_run b obj Hobj).
  destruct (computed_records b obj) as [rs|e'] eqn:Hrs; [discriminate|].
  cbn. intros H. injection H as ->. split; [|split].
  - eapply computed_records_raises, Hrs.
  - reflexivity.
  - apply lookup_insert_eq.
Qed.

Lemma GetSpeed_exceptions_witness :
  texts (host (GetSpeed_execute (example_host 0 2 0))) !! "speed_data"
  = Some "".
Proof.
  exact (proj2 (proj2 (GetSpeed_exceptions (example_host 0 2 0)
                         ZeroDivisionError ltac:(vm_compute; reflexivity)))).
Defined.

(** ** Motion off the plane *)

(** Two paths give the same run when the speed of a step cannot tell them
    apart. *)
Lemma sample_frames_related (R : Vector.t -> Vector.t -> Prop)
    (interval fps : Z) (at1 at2 : Z -> Vector.t)
    (frames : list Z) (current : Z) (acc1 acc2 : Sampling) :
  (forall p1 p2 l1 l2, R p1 p2 -> R l1 l2 ->
     measure_speed interval fps p1 l1 = measure_speed interval fps p2 l2) ->
  (forall frame, R (at1 frame) (at2 frame)) ->
  speed_data acc1 = speed_data acc2 ->
  option_Forall2 R (prev_location acc1) (prev_location acc2) ->
  let run1 := sample_frames interval fps at1 frames current acc1 in
  let run2 := sample_frames interval fps at2 frames current acc2 in
  (acc ← run1.1; Ok (speed_data acc)) = (acc ← run2.1; Ok (speed_data acc))
  /\ run1.2 = run2.2.
Proof.
  intros HR Hat. revert current acc1 acc2.
  induction frames as [|f rest IH]; intros current acc1 acc2 Hdata Hprev;
    cbn [sample_frames].
  - cbn. rewrite Hdata. auto.
  - unfold sample_frame.
    assert (Hstep :
      match prev_location acc1 with
      | None => Ok (speed_data acc1)
      | Some prev =>
          speed ← measure_speed interval fps prev (at1 f);
          Ok (speed_data acc1 ++ [(f - interval, f, speed)])
      end
      = match prev_location acc2 with
        | None => Ok (speed_data acc2)
        | Some prev =>
            speed ← measure_speed interval fps prev (at2 f);
            Ok (speed_data acc2 ++ [(f - interval, f, speed)])
        end).
    { destruct Hprev as [p1 p2 Hp|]; [|congruence].
      rewrite (HR p1 p2 (at1 f) (at2 f) Hp (Hat f)), Hdata. reflexivity. }
    rewrite Hstep.
    destruct (match prev_location acc2 with None => _ | Some _ => _ end)
      as [data|e]; cbn [mbind result_bind].
    + apply IH; cbn; [reflexivity|]. constructor. apply Hat.
    + cbn. auto.
Qed.

Lemma sampling_pass_related (R : Vector.t -> Vector.t -> Prop)
    (start_frame end_frame interval fps : Z) (at1 at2 : Z -> Vector.t)
    (current : Z) :
  (forall p1 p2 l1 l2, R p1 p2 -> R l1 l2 ->
     measure_speed interval fps p1 l1 = measure_speed interval fps p2 l2) ->
  (forall frame, R (at1 frame) (at2 frame)) ->
  sampling_pass start_frame end_frame interval fps at1 current
  = sampling_pass start_frame end_frame interval fps at2 current.
Proof.
  intros HR Hat. unfold sampling_pass.
  destruct (sampled_frames start_frame end_frame interval) as [frames|e];
    [|reflexivity].
  destruct (sample_frames_related R interval fps at1 at2 frames current
              {| prev_location := None; speed_data := [] |}
              {| prev_location := None; speed_data := [] |}
              HR Hat eq_refl ltac:(constructor)) as [H1 H2].
  destruct (sample_frames _ _ at1 _ _ _) as [r1 c1].
  destruct (sample_frames _ _ at2 _ _ _) as [r2 c2].
  cbn [fst snd] in H1, H2. rewrite H1, H2. reflexivity.
Qed.

Lemma measure_speed_plane (interval fps : Z) (p1 p2 l1 l2 : Vector.t) :
  same_plane p1 p2 -> same_plane l1 l2 ->
  measure_speed interval fps p1 l1 = measure_speed interval fps p2 l2.
Proof.
  intros [Hx Hy] [Hx' Hy']. unfold measure_speed.
  rewrite Hx, Hy, Hx', Hy'. reflexivity.
Qed.

(** X6. Only the x and y coordinates are read: two objects whose positions
    differ in z alone give the same records, and the same exception when
    there is one, and leave the scene at the same frame. *)
Theorem speed_ignores_height (obj obj' : Object.t) :
  (forall frame,
     same_plane (Object.location obj frame) (Object.location obj' frame)) ->
  (forall start_frame end_frame interval fps current,
     sampling_pass start_frame end_frame interval fps (Object.location obj)
       current
     = sampling_pass start_frame end_frame interval fps (Object.location obj')
         current)
  /\ forall b, computed_records b obj = computed_records b obj'.
Proof.
  intros Hat.
  assert (Hpass : forall start_frame end_frame interval fps current,
     sampling_pass start_frame end_frame interval fps (Object.location obj)
       current
     = sampling_pass start_frame end_frame interval fps (Object.location obj')
         current).
  { intros. apply (sampling_pass_related same_plane); [|exact Hat].
    intros p1 p2 l1 l2. apply measure_speed_plane. }
  split; [exact Hpass|].
  intros b. unfold computed_records. rewrite Hpass. reflexivity.
Qed.

Lemma speed_ignores_height_witness :
  computed_records strided_host runner = computed_records strided_host climber.
Proof.
  exact (proj2 (speed_ignores_height runner climber
                  ltac:(intros frame; split; reflexivity)) strided_host).
Defined.

(** ** Signs *)

Lemma binary_round_aux_sign (sx : bool) (mx ex : Z) (lx : location) :
  0 <= mx ->
  has_sign sx (binary_round_aux PyFloat.prec PyFloat.emax sx mx ex lx).
Proof.
  intros Hmx. unfold binary_round_aux.
  pose proof (shr_fexp_bounded mx ex lx Hmx) as H1.
  destruct (shr_fexp PyFloat.prec PyFloat.emax mx ex lx) as [mrs' e'].
  cbn [fst] in H1.
  set (m'' := round_nearest_even (shr_m mrs') (loc_of_shr_record mrs')).
  assert (Hm'' : 0 <= m'').
  { unfold m'', round_nearest_even.
    destruct (loc_of_shr_record mrs') as [|[]]; try lia.
    destruct (Z.even (shr_m mrs')); lia. }
  pose proof (shr_fexp_bounded m'' e' loc_Exact Hm'') as H2.
  destruct (shr_fexp PyFloat.prec PyFloat.emax m'' e' loc_Exact) as [mrs'' e''].
  cbn [fst] in H2.
  destruct (shr_m mrs'') as [|m|m]; cbn; [reflexivity| |lia].
  destruct (_ <=? _); reflexivity.
Qed.

Lemma has_sign_not_negative (f : spec_float) :
  has_sign false f -> not_negative f.
Proof. destruct f; cbn; auto. Qed.

Lemma fmul_not_negative (x y : spec_float) :
  not_negative x -> not_negative y -> not_negative (PyFloat.fmul x y).
Proof.
  unfold PyFloat.fmul, SFmul.
  destruct x as [sx|sx| |sx mx ex], y as [sy|sy| |sy my ey]; cbn;
    try (intros -> ->; reflexivity); try exact (fun _ _ => I).
  intros -> ->. apply has_sign_not_negative, binary_round_aux_sign. lia.
Qed.

Lemma fmul_self_not_negative (x : spec_float) :
  not_negative (PyFloat.fmul x x).
Proof.
  unfold PyFloat.fmul, SFmul.
  destruct x as [sx|sx| |sx mx ex]; cbn; try apply xorb_nilpotent;
    try exact I.
  rewrite xorb_nilpotent.
  apply has_sign_not_negative, binary_round_aux_sign. lia.
Qed.

Lemma fadd_not_negative (x y : spec_float) :
  not_negative x -> not_negative y -> not_negative (PyFloat.fadd x y).
Proof.
  unfold PyFloat.fadd, SFadd.
  destruct x as [sx|sx| |sx mx ex], y as [sy|sy| |sy my ey]; cbn;
    try (intros -> ->; reflexivity); try exact (fun _ _ => I).
  intros -> ->. cbn [cond_Zopp]. unfold binary_normalize.
  match goal with
  | |- context [Zpos ?a + Zpos ?b] =>
      change (Zpos a + Zpos b) with (Zpos (a + b))
  end.
  unfold binary_round. destruct (shl_align _ _ _) as [mz ez].
  apply has_sign_not_negative, binary_round_aux_sign. lia.
Qed.

Lemma fsqrt_not_negative (x : spec_float) :
  not_negative x -> not_negative (PyFloat.fsqrt x).
Proof.
  unfold PyFloat.fsqrt, SFsqrt.
  destruct x as [sx|sx| |sx mx ex]; cbn; try (intros ->; reflexivity);
    try exact (fun _ => I).
  intros ->.
  destruct (SFsqrt_core_binary _ _ _ _) as [[mz ez] lz] eqn:E.
  apply has_sign_not_negative, binary_round_aux_sign.
  unfold SFsqrt_core_binary in E.
  destruct (Z.sqrtrem _) as [q r] eqn:Esqrt in E. injection E as <- _ _.
  match type of Esqrt with
  | Z.sqrtrem ?a = _ =>
      replace q with (Z.sqrt a)
        by (rewrite <- Z.sqrtrem_sqrt, Esqrt; reflexivity)
  end.
  apply Z.sqrt_nonneg.
Qed.

Lemma div_core_nonneg (mx my : positive) (ex ey mz ez : Z) (lz : location) :
  SFdiv_core_binary PyFloat.prec PyFloat.emax (Zpos mx) ex (Zpos my) ey
  = (mz, ez, lz) ->
  0 <= mz.
Proof.
  unfold SFdiv_core_binary. intros E.
  destruct (Z.div_eucl _ _) as [q r] eqn:Ediv in E. injection E as <- _ _.
  match type of Ediv with
  | Z.div_eucl ?a ?b = _ =>
      assert (Hq : q = a / b) by (unfold Z.div; rewrite Ediv; reflexivity);
      assert (Ha : 0 <= a)
  end.
  { destruct (_ - _ - _) as [|k|k]; try lia.
    rewrite Z.shiftl_mul_pow2 by lia.
    apply Z.mul_nonneg_nonneg; [lia | apply Z.pow_nonneg; lia]. }
  rewrite Hq. apply Z.div_pos; lia.
Qed.

Lemma fdiv_not_negative (x y : spec_float) :
  not_negative x -> not_negative y -> not_negative (PyFloat.fdiv x y).
Proof.
  unfold PyFloat.fdiv, SFdiv.
  destruct x as [sx|sx| |sx mx ex], y as [sy|sy| |sy my ey]; cbn;
    try (intros -> ->; reflexivity); try exact (fun _ _ => I).
  intros -> ->.
  destruct (SFdiv_core_binary _ _ _ _ _ _) as [[mz ez] lz] eqn:E.
  apply has_sign_not_negative, binary_round_aux_sign.
  eapply div_core_nonneg, E.
Qed.

Lemma exact_int_not_negative (z : Z) :
  0 <= z -> not_negative (PyFloat.exact_int z).
Proof. destruct z; cbn; auto; lia. Qed.

Lemma int_true_div_not_negative (a b : Z) (f : spec_float) :
  0 <= a -> 0 <= b -> PyFloat.int_true_div a b = Ok f -> not_negative f.
Proof.
  intros Ha Hb. unfold PyFloat.int_true_div. destruct (b =? 0); [discriminate|].
  pose proof (fdiv_not_negative _ _ (exact_int_not_negative a Ha)
                (exact_int_not_negative b Hb)) as Hq.
  destruct (PyFloat.fdiv _ _); try discriminate; intros [= <-]; exact Hq.
Qed.

Lemma round_not_negative (f : spec_float) (z : Z) :
  not_negative f -> PyFloat.round f = Ok z -> 0 <= z.
Proof.
  destruct f as [s|s| |s m e]; cbn; try discriminate.
  - intros _ [= <-]. lia.
  - intros -> [= <-]. cbn [PyFloat.cond_opp].
    destruct (Z.leb_spec 0 e) as [He|He].
    + apply Z.mul_nonneg_nonneg; [lia | apply Z.pow_nonneg; lia].
    + apply round_half_even_bound; [lia | apply Z.pow_pos_nonneg; lia].
Qed.

Lemma measure_speed_not_negative (interval fps : Z) (prev location : Vector.t)
    (speed : Z) :
  0 <= interval -> 0 <= fps ->
  measure_speed interval fps prev location = Ok speed -> 0 <= speed.
Proof.
  intros Hk Hfps. unfold measure_speed. intros H.
  apply bind_Ok in H as (dx2 & Hdx & H). apply bind_Ok in H as (dy2 & Hdy & H).
  apply bind_Ok in H as (dist & Hdist & H).
  apply bind_Ok in H as (time & Htime & H).
  apply bind_Ok in H as (per & Hper & H).
  apply bind_Ok in H as (hundred & Hhundred & H).
  assert (H2 : forall d y, PyFloat.square d = Ok y -> not_negative y).
  { intros d y. unfold PyFloat.square. destruct (_ && _); [discriminate|].
    intros [= <-]. apply fmul_self_not_negative. }
  assert (Hd : not_negative dist).
  { unfold PyFloat.math_sqrt in Hdist.
    pose proof (fsqrt_not_negative _ (fadd_not_negative _ _ (H2 _ _ Hdx)
                                        (H2 _ _ Hdy))) as Hs.
    destruct (PyFloat.fadd dx2 dy2) as [s|[]| |[] m e]; try discriminate;
      injection Hdist as <-; exact Hs. }
  assert (Hp : not_negative per).
  { unfold PyFloat.true_div in Hper. destruct (PyFloat.is_zero time);
      [discriminate|]. injection Hper as <-.
    apply fdiv_not_negative; [exact Hd|].
    eapply int_true_div_not_negative; [| |exact Htime]; lia. }
  assert (Hh : not_negative hundred).
  { vm_compute in Hhundred. injection Hhundred as <-. reflexivity. }
  eapply round_not_negative; [|exact H].
  apply fmul_not_negative; assumption.
Qed.

Lemma sum_nonneg (l : list Z) : Forall (fun z => 0 <= z) l -> 0 <= sum l.
Proof.
  induction 1 as [|z l Hz _ IH]; [reflexivity|]. rewrite sum_cons. lia.
Qed.

Lemma average_at_not_negative (w : Z) (rs : list SpeedRecord) (i : Z)
    (r : SpeedRecord) :
  Forall (fun r => 0 <= speed_of r) rs ->
  average_at w rs i = Ok r -> 0 <= speed_of r.
Proof.
  intros Hrs. unfold average_at. intros H.
  apply bind_Ok in H as (avg & Havg & H). apply bind_Ok in H as (d & _ & H).
  apply bind_Ok in H as (rounded & Hr & H). injection H as <-.
  eapply round_not_negative; [|exact Hr].
  eapply int_true_div_not_negative; [| |exact Havg].
  - apply sum_nonneg, Forall_map. unfold slice.
    apply Forall_take, Forall_drop, Hrs.
  - unfold len. lia.
Qed.

Lemma sample_frames_not_negative (interval fps : Z)
    (location_at : Z -> Vector.t) (frames : list Z) (current : Z)
    (acc acc' : Sampling) :
  0 <= interval -> 0 <= fps ->
  Forall (fun r => 0 <= speed_of r) (speed_data acc) ->
  (sample_frames interval fps location_at frames current acc).1 = Ok acc' ->
  Forall (fun r => 0 <= speed_of r) (speed_data acc').
Proof.
  intros Hk Hfps. revert current acc.
  induction frames as [|f rest IH]; intros current acc Hacc;
    cbn [sample_frames].
  - intros [= <-]. exact Hacc.
  - destruct (sample_frame interval fps location_at f acc) as [a|e] eqn:Hf;
      [|discriminate].
    apply IH. unfold sample_frame in Hf.
    apply bind_Ok in Hf as (data & Hdata & Hf). injection Hf as <-. cbn.
    destruct (prev_location acc); [|injection Hdata as <-; exact Hacc].
    apply bind_Ok in Hdata as (s & Hs & Hdata). injection Hdata as <-.
    apply Forall_app. split; [exact Hacc|]. constructor; [|constructor].
    eapply measure_speed_not_negative; [| |exact Hs]; assumption.
Qed.

(** X7. At a stride and a frame rate that are not negative no speed of a
    run is negative, smoothed or not. *)
Theorem speeds_not_negative (b : bpy) (obj : Object.t)
    (rs : list SpeedRecord) :
  0 <= stride (speed_data_processor b) -> 0 <= fps b ->
  computed_records b obj = Ok rs ->
  Forall (fun r => 0 <= speed_of r) rs.
Proof.
  intros Hk Hfps. unfold computed_records. intros H.
  apply bind_Ok in H as (sampled & Hs & H).
  assert (Hsampled : Forall (fun r => 0 <= speed_of r) sampled).
  { unfold sampling_pass in Hs.
    destruct (sampled_frames _ _ _) as [frames|e]; [|discriminate].
    pose proof (sample_frames_not_negative
                  (stride (speed_data_processor b)) (fps b)
                  (Object.location obj) frames (frame_current b)
                  {| prev_location := None; speed_data := [] |}) as Hf.
    destruct (sample_frames _ _ _ _ _ _) as [r c]. cbn [fst] in *.
    destruct r as [acc|e]; [|discriminate]. injection Hs as <-.
    apply (Hf acc Hk Hfps); [constructor|reflexivity]. }
  destruct (apply_averaging _); [|injection H as <-; exact Hsampled].
  rewrite averaging_pass_spec in H.
  eapply rmap_Forall; [|exact H].
  intros i r. apply average_at_not_negative, Hsampled.
Qed.

Lemma speeds_not_negative_witness :
  Forall (fun r => 0 <= speed_of r)
    [(0, 2, 240000); (2, 4, 240000)].
Proof.
  exact (speeds_not_negative strided_host runner
           [(0, 2, 240000); (2, 4, 240000)]
           ltac:(cbn; lia) ltac:(cbn; lia) ltac:(vm_compute; reflexivity)).
Defined.

(** ** Quotients in the normal range *)

Lemma Zdigits2_bounds (m : Z) :
  0 < m -> 2 ^ (Zdigits2 m - 1) <= m < 2 ^ Zdigits2 m /\ 1 <= Zdigits2 m.
Proof.
  intros Hm. rewrite (Zdigits2_log2 m Hm).
  pose proof (Z.log2_spec m Hm). pose proof (Z.log2_nonneg m).
  replace (Z.log2 m + 1 - 1) with (Z.log2 m) by lia.
  replace (Z.log2 m + 1) with (Z.succ (Z.log2 m)) by lia. lia.
Qed.

Lemma Zdigits2_between (m k : Z) :
  0 <= k -> 2 ^ k <= m < 2 ^ (k + 2) -> k + 1 <= Zdigits2 m <= k + 2.
Proof.
  intros Hk [Hlo Hhi].
  assert (Hm : 0 < m) by (pose proof (Z.pow_pos_nonneg 2 k); lia).
  rewrite (Zdigits2_log2 m Hm).
  apply Z.log2_le_pow2 in Hlo; [|exact Hm].
  apply Z.log2_lt_pow2 in Hhi; [|exact Hm]. lia.
Qed.

Lemma Zdigits2_nonneg (m : Z) : 0 <= Zdigits2 m.
Proof. destruct m; cbn; lia. Qed.

Lemma Zdigits2_le_pow2 (m k : Z) :
  0 < m -> 0 <= k -> (Zdigits2 m <= k <-> m < 2 ^ k).
Proof.
  intros Hm Hk. rewrite (Zdigits2_log2 m Hm).
  rewrite (Z.log2_lt_pow2 m k Hm). lia.
Qed.

Lemma Zdigits2_mono (a b : Z) : 0 < a <= b -> Zdigits2 a <= Zdigits2 b.
Proof.
  intros [Ha Hab]. rewrite (Zdigits2_log2 a), (Zdigits2_log2 b) by lia.
  pose proof (Z.log2_le_mono a b Hab). lia.
Qed.

Lemma Zdigits2_succ (m : Z) :
  0 <= m -> Zdigits2 (m + 1) <= Z.max (Zdigits2 m) 1 + 1.
Proof.
  intros Hm. destruct (Z.eq_dec m 0) as [->|Hne];
    [change (Zdigits2 (0 + 1)) with 1; change (Zdigits2 0) with 0; lia|].
  assert (Hpos : 0 < m) by lia.
  destruct (Zdigits2_bounds m Hpos) as [[_ Hhi] Hd].
  apply (Zdigits2_le_pow2 (m + 1)); [lia|lia|].
  replace (Z.max (Zdigits2 m) 1 + 1) with (Z.succ (Zdigits2 m)) by lia.
  rewrite Z.pow_succ_r by lia. lia.
Qed.

Lemma Zdigits2_mul_pow2 (m k : Z) :
  0 < m -> 0 <= k -> Zdigits2 (m * 2 ^ k) = Zdigits2 m + k.
Proof.
  intros Hm Hk.
  assert (0 < m * 2 ^ k)
    by (apply Z.mul_pos_pos; [lia|apply Z.pow_pos_nonneg; lia]).
  rewrite !Zdigits2_log2 by lia. rewrite Z.log2_mul_pow2 by lia. lia.
Qed.

Lemma Zdigits2_div_pow2 (m n : Z) :
  0 < m -> 0 <= n -> 0 < m / 2 ^ n -> Zdigits2 (m / 2 ^ n) + n <= Zdigits2 m.
Proof.
  intros Hm Hn Hq.
  destruct (Zdigits2_bounds m Hm) as [[_ Hhi] Hd].
  pose proof (Z.pow_pos_nonneg 2 n ltac:(lia) Hn) as Hpow.
  destruct (Z.le_gt_cases n (Zdigits2 m)) as [Hle|Hgt].
  - cut (Zdigits2 (m / 2 ^ n) <= Zdigits2 m - n); [lia|].
    apply Zdigits2_le_pow2; [exact Hq|lia|].
    apply Z.div_lt_upper_bound; [lia|].
    rewrite <- Z.pow_add_r by lia.
    replace (n + (Zdigits2 m - n)) with (Zdigits2 m) by lia. exact Hhi.
  - assert (m < 2 ^ n).
    { eapply Z.lt_le_trans; [exact Hhi|]. apply Z.pow_le_mono_r; lia. }
    rewrite Z.div_small in Hq by lia. lia.
Qed.

(** The first shift of a rounding, away from the subnormal range. *)
Lemma shr_fexp_normal (m e : Z) (l : location) :
  0 < m -> -1074 <= Zdigits2 m + e - 53 ->
  let r := shr_fexp PyFloat.prec PyFloat.emax m e l in
  (Zdigits2 m <= 53 -> shr_m r.1 = m /\ r.2 = e)
  /\ (53 < Zdigits2 m ->
      2 ^ 52 <= shr_m r.1 < 2 ^ 53 /\ r.2 = Zdigits2 m + e - 53).
Proof.
  intros Hm Hn. cbn zeta. unfold shr_fexp, shr. rewrite fexp_eq.
  rewrite Z.max_l by lia.
  destruct (Zdigits2_bounds m Hm) as [[Hlo Hhi] Hd].
  destruct (Zdigits2 m + e - 53 - e) as [|n|n] eqn:E; cbn [fst snd];
    rewrite ?shr_record_of_loc_m; (split; [intros Hle|intros Hgt]);
    try lia; try (split; [reflexivity|lia]).
  rewrite iter_pos_shr_m, shr_record_of_loc_m
    by (rewrite shr_record_of_loc_m; lia).
  split; [|lia].
  assert (Hd53 : Zdigits2 m = 53 + Zpos n) by lia.
  rewrite Hd53 in Hlo, Hhi.
  replace (53 + Zpos n - 1) with (52 + Zpos n) in Hlo by lia.
  rewrite Z.pow_add_r in Hlo, Hhi by lia.
  pose proof (Z.pow_pos_nonneg 2 (Zpos n) ltac:(lia) ltac:(lia)) as Hpow.
  split.
  - apply Z.div_le_lower_bound; lia.
  - apply Z.div_lt_upper_bound; lia.
Qed.

(** A rounding away from the subnormal range keeps or raises the
    magnitude. *)
Lemma binary_round_aux_above (sx : bool) (m e : Z) (l : location) :
  0 < m -> -1074 <= Zdigits2 m + e - 53 -> Zdigits2 m + e <= 1023 ->
  e <= 970 ->
  exists m' e',
    binary_round_aux PyFloat.prec PyFloat.emax sx m e l = S754_finite sx m' e'
    /\ Zdigits2 m + e <= Zdigits2 (Zpos m') + e'.
Proof.
  intros Hm Hlo Hhi He. unfold binary_round_aux.
  pose proof (shr_fexp_normal m e l Hm Hlo) as H1. cbn zeta in H1.
  destruct (shr_fexp PyFloat.prec PyFloat.emax m e l) as [mrs' e'].
  cbn [fst snd] in H1.
  set (m1 := round_nearest_even (shr_m mrs') (loc_of_shr_record mrs')).
  assert (Hm1 : shr_m mrs' <= m1 <= shr_m mrs' + 1).
  { unfold m1, round_nearest_even.
    destruct (loc_of_shr_record mrs') as [|[]]; try lia.
    destruct (Z.even (shr_m mrs')); lia. }
  destruct (Zdigits2_bounds m Hm) as [[Hmlo Hmhi] Hd].
  assert (Hcase : 0 < m1 <= 2 ^ 53 /\ e <= e' <= 970
                  /\ Zdigits2 m + e <= Zdigits2 m1 + e'
                  /\ (53 < Zdigits2 m1 -> m1 = 2 ^ 53)).
  { destruct (Z.le_gt_cases (Zdigits2 m) 53) as [Hle|Hgt].
    - destruct H1 as [H1 _]. destruct (H1 Hle) as [Hsm ->].
      rewrite Hsm in Hm1.
      assert (Hm53 : m < 2 ^ 53).
      { eapply Z.lt_le_trans; [exact Hmhi|].
        apply Z.pow_le_mono_r; lia. }
      assert (Hpos : 0 < m1) by lia.
      destruct (Zdigits2_bounds m1 Hpos) as [[H1lo H1hi] H1d].
      pose proof (Zdigits2_mono m m1 ltac:(lia)) as Hmono.
      split; [lia|]. split; [lia|]. split; [lia|].
      intros Hgt.
      assert (2 ^ 53 <= 2 ^ (Zdigits2 m1 - 1))
        by (apply Z.pow_le_mono_r; lia).
      lia.
    - destruct H1 as [_ H1]. destruct (H1 Hgt) as [Hsm ->].
      assert (Hpos : 0 < m1) by lia.
      assert (Hd1 : 52 + 1 <= Zdigits2 m1 <= 52 + 2).
      { apply Zdigits2_between; [lia|].
        change (2 ^ (52 + 2)) with (2 * 2 ^ 53). lia. }
      split; [lia|]. split; [lia|]. split; [lia|].
      intros Hgt1.
      assert (Hd54 : Zdigits2 m1 = 54) by lia.
      destruct (Zdigits2_bounds m1 Hpos) as [[H1lo _] _].
      rewrite Hd54 in H1lo. change (2 ^ (54 - 1)) with (2 ^ 53) in H1lo.
      lia. }
  destruct Hcase as ((Hpos & H53) & (Hee & He') & Habove & Hbig).
  pose proof (shr_fexp_normal m1 e' loc_Exact Hpos ltac:(lia)) as H2.
  cbn zeta in H2.
  destruct (shr_fexp PyFloat.prec PyFloat.emax m1 e' loc_Exact) as [mrs'' e''].
  cbn [fst snd] in H2.
  assert (Hfinal : 0 < shr_m mrs'' /\ e'' <= 971
                   /\ Zdigits2 m1 + e' <= Zdigits2 (shr_m mrs'') + e'').
  { destruct (Z.le_gt_cases (Zdigits2 m1) 53) as [Hle|Hgt].
    - destruct H2 as [H2 _]. destruct (H2 Hle) as [-> ->]. lia.
    - destruct H2 as [_ H2]. destruct (H2 Hgt) as [Hsm ->].
      pose proof (Hbig Hgt) as Heq.
      assert (Zdigits2 m1 = 54) by (rewrite Heq; reflexivity).
      pose proof (Zdigits2_between (shr_m mrs'') 52 ltac:(lia)
                    ltac:(change (2 ^ (52 + 2)) with (2 * 2 ^ 53); lia)).
      lia. }
  destruct Hfinal as (Hsm & Hexp & Habove').
  destruct (shr_m mrs'') as [|m'|m']; try lia.
  exists m', e''. unfold PyFloat.emax, PyFloat.prec.
  destruct (Z.leb_spec e'' (1024 - 53)); [split; [reflexivity|lia]|lia].
Qed.

Lemma quotient_bounds (a b L1 L2 s : Z) :
  2 ^ L1 <= a < 2 ^ (L1 + 1) -> 2 ^ L2 <= b < 2 ^ (L2 + 1) ->
  0 <= L1 -> 0 <= L2 -> 0 <= s -> 0 <= L1 + s - L2 - 1 ->
  2 ^ (L1 + s - L2 - 1) <= a * 2 ^ s / b < 2 ^ (L1 + s - L2 - 1 + 2).
Proof.
  intros [Ha1 Ha2] [Hb1 Hb2] HL1 HL2 Hs Hk.
  assert (Hb : 0 < b) by (pose proof (Z.pow_pos_nonneg 2 L2); lia).
  pose proof (Z.pow_pos_nonneg 2 s ltac:(lia) Hs) as Hps.
  pose proof (Z.pow_pos_nonneg 2 (L1 + s - L2 - 1) ltac:(lia) Hk) as Hpk.
  split.
  - apply Z.div_le_lower_bound; [exact Hb|].
    apply Z.le_trans with (2 ^ (L2 + 1) * 2 ^ (L1 + s - L2 - 1));
      [apply Z.mul_le_mono_nonneg_r; lia|].
    rewrite <- Z.pow_add_r by lia.
    replace (L2 + 1 + (L1 + s - L2 - 1)) with (L1 + s) by lia.
    rewrite Z.pow_add_r by lia. apply Z.mul_le_mono_nonneg_r; lia.
  - apply Z.div_lt_upper_bound; [exact Hb|].
    apply Z.lt_le_trans with (2 ^ (L1 + 1) * 2 ^ s);
      [apply Z.mul_lt_mono_pos_r; lia|].
    rewrite <- Z.pow_add_r by lia.
    replace (L1 + 1 + s) with (L2 + (L1 + s - L2 - 1 + 2)) by lia.
    rewrite Z.pow_add_r by lia. apply Z.mul_le_mono_nonneg_r; lia.
Qed.

(** [a / b] on positive ints of moderate size is a positive float, not
    below half the quotient of their leading powers of two. *)
Lemma int_true_div_above (a b : Z) :
  1 <= a < 2 ^ 1000 -> 1 <= b < 2 ^ 1000 ->
  exists f, PyFloat.int_true_div a b = Ok f
            /\ positive_above (Z.log2 a - Z.log2 b) f.
Proof.
  intros [Ha Ha'] [Hb Hb']. unfold PyFloat.int_true_div.
  destruct (Z.eqb_spec b 0); [lia|].
  destruct a as [|pa|pa]; try lia. destruct b as [|pb|pb]; try lia.
  cbn [PyFloat.exact_int]. unfold PyFloat.fdiv, SFdiv.
  destruct (SFdiv_core_binary _ _ _ _ _ _) as [[mz ez] lz] eqn:E.
  cbn [xorb].
  cut (exists m e, binary_round_aux PyFloat.prec PyFloat.emax false mz ez lz
                   = S754_finite false m e
                   /\ Z.log2 (Zpos pa) - Z.log2 (Zpos pb)
                      <= Zdigits2 (Zpos m) + e).
  { intros (m & e & -> & Hab). eexists. split; [reflexivity|exact Hab]. }
  unfold SFdiv_core_binary in E. rewrite fexp_eq in E.
  rewrite !Z.add_0_r, Z.sub_0_r in E.
  rewrite (Zdigits2_log2 (Zpos pa)), (Zdigits2_log2 (Zpos pb)) in E by lia.
  pose proof (Z.log2_spec (Zpos pa) ltac:(lia)) as HLa.
  pose proof (Z.log2_spec (Zpos pb) ltac:(lia)) as HLb.
  pose proof (Z.log2_nonneg (Zpos pa)) as HL1.
  pose proof (Z.log2_nonneg (Zpos pb)) as HL2.
  assert (HLa' : Z.log2 (Zpos pa) < 1000)
    by (apply Z.log2_lt_pow2; lia).
  assert (HLb' : Z.log2 (Zpos pb) < 1000)
    by (apply Z.log2_lt_pow2; lia).
  set (L1 := Z.log2 (Zpos pa)) in *. set (L2 := Z.log2 (Zpos pb)) in *.
  set (e' := Z.min (Z.max (L1 + 1 - (L2 + 1) - 53) (-1074)) 0) in E.
  set (s := 0 - e') in E.
  assert (Hs : 0 <= s) by (unfold s, e'; lia).
  assert (Hm' : match s with
                | 0 => Zpos pa
                | Zpos _ => Z.shiftl (Zpos pa) s
                | Zneg _ => 0
                end = Zpos pa * 2 ^ s).
  { destruct s as [|q|q] eqn:Es; [cbn; lia| |lia].
    rewrite Z.shiftl_mul_pow2 by lia. reflexivity. }
  rewrite Hm' in E.
  destruct (Z.div_eucl _ _) as [q r] eqn:Ediv in E. injection E as <- <- _.
  assert (Hq : q = Zpos pa * 2 ^ s / Zpos pb)
    by (unfold Z.div; rewrite Ediv; reflexivity).
  assert (Hk : 52 <= L1 + s - L2 - 1) by (unfold s, e'; lia).
  pose proof (quotient_bounds (Zpos pa) (Zpos pb) L1 L2 s
                ltac:(replace (L1 + 1) with (Z.succ L1) by lia; exact HLa)
                ltac:(replace (L2 + 1) with (Z.succ L2) by lia; exact HLb)
                HL1 HL2 Hs ltac:(lia)) as Hbounds.
  rewrite <- Hq in Hbounds.
  pose proof (Zdigits2_between q (L1 + s - L2 - 1) ltac:(lia) Hbounds)
    as Hdq.
  assert (Hqpos : 0 < q).
  { pose proof (Z.pow_pos_nonneg 2 (L1 + s - L2 - 1) ltac:(lia) ltac:(lia)).
    lia. }
  destruct (binary_round_aux_above false q e' lz Hqpos)
    as (m & e & Hr & Hab); try (unfold s, e' in *; lia).
  exists m, e. split; [exact Hr|]. unfold s in *. lia.
Qed.

(** ** An object at rest *)

Lemma fsub_self (x : spec_float) :
  PyFloat.is_finite x = true -> PyFloat.fsub x x = S754_zero false.
Proof.
  unfold PyFloat.fsub, SFsub. destruct x as [s|s| |s m e]; try discriminate.
  - destruct s; reflexivity.
  - intros _. cbn zeta. rewrite Z.sub_diag. reflexivity.
Qed.

Lemma measure_speed_at_rest (interval fps : Z) (prev location : Vector.t) :
  1 <= interval < 2 ^ 1000 -> 1 <= fps < 2 ^ 1000 ->
  same_plane prev location ->
  PyFloat.is_finite (Vector.x location) = true ->
  PyFloat.is_finite (Vector.y location) = true ->
  measure_speed interval fps prev location = Ok 0.
Proof.
  intros Hk Hfps [Hx Hy] Hfx Hfy. unfold measure_speed.
  rewrite Hx, Hy, (fsub_self _ Hfx), (fsub_self _ Hfy).
  destruct (int_true_div_above interval fps Hk Hfps) as (time & -> & Htime).
  destruct time as [| | |[] m e]; try contradiction. reflexivity.
Qed.

Lemma rounded_mean_zeros (l : list Z) :
  l <> [] -> Forall (fun z => z = 0) l -> rounded_mean l = Ok 0.
Proof.
  intros Hne Hl. unfold rounded_mean.
  assert (Hsum : sum l = 0).
  { clear Hne. induction Hl as [|z l -> _ IH]; [reflexivity|].
    rewrite sum_cons. lia. }
  rewrite Hsum. unfold len. destruct l as [|z l]; [congruence|].
  cbn [length]. unfold PyFloat.int_true_div.
  destruct (Z.of_nat (S (length l))) as [|p|p] eqn:E; try lia. reflexivity.
Qed.

Lemma averaging_pass_zeros (w : Z) (rs : list SpeedRecord) :
  1 <= w -> Forall (fun r => speed_of r = 0) rs -> averaging_pass w rs = Ok rs.
Proof.
  intros Hw Hrs. rewrite averaging_pass_spec. apply rmap_seq_id.
  intros i r Hi. cbn [Nat.add]. rewrite (average_at_spec w rs i r Hw Hi).
  assert (Hlt : (i < length (map speed_of rs))%nat).
  { rewrite length_map. eapply lookup_lt_Some, Hi. }
  rewrite rounded_mean_zeros.
  - cbn. destruct r as [[a c] s].
    pose proof (proj1 (Forall_lookup _ _) Hrs i _ Hi) as Hs. cbn in Hs.
    rewrite Hs. reflexivity.
  - intros Hnil. pose proof (centered_window_length (Z.to_nat (w / 2)) _ i Hlt)
      as Hlen. rewrite Hnil in Hlen. cbn in Hlen. lia.
  - unfold centered_window. apply Forall_take, Forall_drop, Forall_map.
    exact Hrs.
Qed.

(** The records of a run on an object that stays over one point. *)
Lemma computed_records_at_rest (b : bpy) (obj : Object.t) :
  let props := speed_data_processor b in
  let k := stride props in
  1 <= k < 2 ^ 1000 -> 1 <= fps b < 2 ^ 1000 ->
  1 <= averaging_window props ->
  PyFloat.is_finite (Vector.x (Object.location obj (frame_start b))) = true ->
  PyFloat.is_finite (Vector.y (Object.location obj (frame_start b))) = true ->
  (forall frame, same_plane (Object.location obj frame)
                   (Object.location obj (frame_start b))) ->
  computed_records b obj
  = Ok (map (fun i : nat => (frame_start b + Z.of_nat i * k,
                             frame_start b + Z.of_nat (S i) * k, 0))
          (seq 0 (record_count (frame_start b) (frame_end b) k))).
Proof.
  intros props k Hk Hfps Hw Hfx Hfy Hrest. unfold computed_records.
  fold props. fold k.
  rewrite (sampling_pass_spec _ _ _ _ _ _ (proj1 Hk)).
  rewrite (rmap_ok_map _
             (fun i : nat => (frame_start b + Z.of_nat i * k,
                              frame_start b + Z.of_nat (S i) * k, 0))).
  - cbn [mbind result_bind].
    destruct (apply_averaging props); [|reflexivity].
    apply averaging_pass_zeros; [exact Hw|].
    apply Forall_map, Forall_forall. intros i _. reflexivity.
  - intros i _. unfold record_at.
    destruct (Hrest (frame_start b + Z.of_nat (S i) * k - k)) as [Hx Hy].
    destruct (Hrest (frame_start b + Z.of_nat (S i) * k)) as [Hx' Hy'].
    rewrite measure_speed_at_rest; try assumption.
    + cbn. do 2 f_equal. f_equal. lia.
    + split; congruence.
    + rewrite Hx'. exact Hfx.
    + rewrite Hy'. exact Hfy.
Qed.

(** X8. While the object stays over one point of the ground plane, a run
    finishes and every speed is 0: there is one record per stride, each of
    speed 0, smoothed or not.  Motion in z makes no difference. *)
Theorem object_at_rest (b : bpy) (obj : Object.t) :
  let props := speed_data_processor b in
  let k := stride props in
  active_object b = Some obj ->
  1 <= k < 2 ^ 1000 -> 1 <= fps b < 2 ^ 1000 ->
  1 <= averaging_window props ->
  PyFloat.is_finite (Vector.x (Object.location obj (frame_start b))) = true ->
  PyFloat.is_finite (Vector.y (Object.location obj (frame_start b))) = true ->
  (forall frame, same_plane (Object.location obj frame)
                   (Object.location obj (frame_start b))) ->
  let rs := map (fun i : nat => (frame_start b + Z.of_nat i * k,
                                 frame_start b + Z.of_nat (S i) * k, 0))
              (seq 0 (record_count (frame_start b) (frame_end b) k)) in
  computed_records b obj = Ok rs
  /\ returned (GetSpeed_execute b) = Ok FINISHED
  /\ texts (host (GetSpeed_execute b)) !! text_block_name props
     = Some (write_records rs "").
Proof.
  intros props k Hobj Hk Hfps Hw Hfx Hfy Hrest rs.
  pose proof (computed_records_at_rest b obj Hk Hfps Hw Hfx Hfy Hrest) as Hrs.
  fold props k rs in Hrs. split; [exact Hrs|].
  rewrite (GetSpeed_execute_run b obj Hobj), Hrs. cbn.
  split; [reflexivity|apply lookup_insert_eq].
Qed.

Lemma object_at_rest_witness :
  computed_records (host (DisplaySpeed_execute strided_host)) new_speed_text
  = Ok [(0, 2, 0); (2, 4, 0)].
Proof.
  exact (proj1 (object_at_rest (host (DisplaySpeed_execute strided_host))
                  new_speed_text
                  ltac:(vm_compute; reflexivity)
                  ltac:(vm_compute; split; [discriminate|reflexivity])
                  ltac:(vm_compute; split; [discriminate|reflexivity])
                  ltac:(vm_compute; discriminate)
                  ltac:(reflexivity) ltac:(reflexivity)
                  ltac:(intros frame; split; reflexivity))).
Defined.

(** ** The transfer operators, case by case *)

Section Transfer.

Variable unique_name : list string -> string -> string.
Variable default_node_tree : NodeTree.

(** [execute] once the text block, the object and its material are there. *)
Lemma TransferToShaderEditor_run (b : bpy) (text : string) (obj : Object.t)
    (material : Material) :
  texts b !! text_block_name (speed_data_processor b) = Some text ->
  active_object b = Some obj ->
  Object.active_material obj = Some material ->
  let tree := default default_node_tree (node_tree material) in
  let with_nodes t :=
    store_object (context_object b)
      (set_active_material {| use_nodes := true; node_tree := Some t |} obj)
      b in
  TransferToShaderEditor_execute unique_name default_node_tree b
  = match read_series text with
    | Raise e =>
        {| returned := Raise e; reported := []; host := with_nodes tree |}
    | Ok (frame_numbers, speeds) =>
        let '(tree', acts) :=
          animate_value_node unique_name "SpeedAction" frame_numbers speeds
            tree (actions b) in
        {| returned := Ok FINISHED;
           reported := [(INFO, "Speed data transferred to Shader Editor")];
           host := set_actions acts (with_nodes tree') |}
    end.
Proof.
  intros Htext Hobj Hmat. unfold TransferToShaderEditor_execute.
  rewrite Htext, Hobj, Hmat. reflexivity.
Qed.

Lemma TransferToGeoNodes_run (b : bpy) (text : string) (obj : Object.t)
    (i : nat) (modifier : Modifier) (tree : NodeTree) :
  texts b !! text_block_name (speed_data_processor b) = Some text ->
  active_object b = Some obj ->
  find_nodes_modifier 0 (Object.modifiers obj) = Some (i, modifier) ->
  node_group modifier = Some tree ->
  TransferToGeoNodes_execute unique_name b
  = match read_series text with
    | Raise e => {| returned := Raise e; reported := []; host := b |}
    | Ok (frame_numbers, speeds) =>
        let '(tree', acts) :=
          animate_value_node unique_name "GeoNodesSpeedAction" frame_numbers
            speeds tree (actions b) in
        {| returned := Ok FINISHED;
           reported := [(INFO, "Speed data transferred to Geometry Nodes")];
           host :=
             set_actions acts
               (store_object (context_object b)
                  (set_modifiers
                     (<[i := {| modifier_type := modifier_type modifier;
                                node_group := Some tree' |}]>
                        (Object.modifiers obj))
                     obj) b) |}
    end.
Proof.
  intros Htext Hobj Hmod Htree. unfold TransferToGeoNodes_execute.
  rewrite Htext, Hobj, Hmod, Htree. reflexivity.
Qed.

Lemma find_nodes_modifier_None (i : nat) (ms : list Modifier) :
  find_nodes_modifier i ms = None
  <-> Forall (fun m => modifier_type m <> "NODES") ms.
Proof.
  revert i. induction ms as [|m ms IH]; intros i; cbn [find_nodes_modifier].
  - split; [constructor|reflexivity].
  - destruct (String.eqb_spec (modifier_type m) "NODES") as [E|E].
    + split; [discriminate|]. intros H. inversion H. contradiction.
    + rewrite IH. split; [intros H; constructor; assumption|].
      intros H. inversion H. assumption.
Qed.

(** The modifier found is the first of type [NODES]. *)
Lemma find_nodes_modifier_Some (ms : list Modifier) (i : nat)
    (modifier : Modifier) :
  find_nodes_modifier 0 ms = Some (i, modifier) ->
  ms !! i = Some modifier /\ modifier_type modifier = "NODES"
  /\ forall (j : nat) m, (j < i)%nat -> ms !! j = Some m ->
       modifier_type m <> "NODES".
Proof.
  assert (H : forall k,
    find_nodes_modifier k ms = Some (i, modifier) ->
    (k <= i)%nat /\ ms !! (i - k)%nat = Some modifier
    /\ modifier_type modifier = "NODES"
    /\ forall (j : nat) m, (j < i - k)%nat -> ms !! j = Some m ->
         modifier_type m <> "NODES").
  { induction ms as [|m ms IH]; intros k; cbn [find_nodes_modifier];
      [discriminate|].
    destruct (String.eqb_spec (modifier_type m) "NODES") as [E|E].
    - intros [= <- <-]. rewrite Nat.sub_diag. repeat split; auto. lia.
    - intros Hf. destruct (IH _ Hf) as (Hle & Hi & Ht & Hbefore).
      replace (i - k)%nat with (S (i - S k)) by lia.
      repeat split; auto; [lia|].
      intros [|j] m' Hj Hm'; cbn in Hm'.
      + injection Hm' as <-. exact E.
      + apply (Hbefore j m'); [lia|exact Hm']. }
  intros Hf. destruct (H 0%nat Hf) as (_ & Hi & Ht & Hbefore).
  rewrite Nat.sub_0_r in *. auto.
Qed.

(** X9. A transfer is cancelled in two cases only: the named text block is
    missing, or the active object has no material (for the shader editor)
    or no geometry-nodes modifier (for geometry nodes).  It then reports
    one error and leaves the host as it was. *)
Theorem transfer_cancelled (b : bpy) :
  let name := text_block_name (speed_data_processor b) in
  let shader := TransferToShaderEditor_execute unique_name default_node_tree b in
  let geo := TransferToGeoNodes_execute unique_name b in
  (returned shader = Ok CANCELLED
   <-> texts b !! name = None
       \/ exists obj, active_object b = Some obj
                      /\ Object.active_material obj = None)
  /\ (returned geo = Ok CANCELLED
      <-> texts b !! name = None
          \/ exists obj, active_object b = Some obj /\ no_nodes_modifier obj)
  /\ (returned shader = Ok CANCELLED ->
      host shader = b /\ exists msg, reported shader = [(ERROR, msg)])
  /\ (returned geo = Ok CANCELLED ->
      host geo = b /\ exists msg, reported geo = [(ERROR, msg)]).
Proof.
  intros name shader geo.
  unfold shader, geo, TransferToShaderEditor_execute,
    TransferToGeoNodes_execute, no_nodes_modifier.
  fold name.
  destruct (texts b !! name) as [text|] eqn:Htext.
  2: { cbn. repeat split; eauto. }
  destruct (active_object b) as [obj|] eqn:Hobj.
  2: { cbn. repeat split; try discriminate;
         intros [H|(obj & H & _)]; discriminate. }
  split; [|split; [|split]].
  - destruct (Object.active_material obj) as [material|] eqn:Hmat.
    + split.
      * destruct (_ ≫= _) as [[fn sp]|e]; [|discriminate].
        destruct (animate_value_node _ _ _ _ _ _). discriminate.
      * intros [H|(obj' & [= <-] & H)]; congruence.
    + cbn. split; [|reflexivity]. intros _. right. eauto.
  - destruct (find_nodes_modifier 0 (Object.modifiers obj))
      as [[i modifier]|] eqn:Hmod.
    + split.
      * destruct (node_group modifier); [|discriminate].
        destruct (_ ≫= _) as [[fn sp]|e]; [|discriminate].
        destruct (animate_value_node _ _ _ _ _ _). discriminate.
      * intros [H|(obj' & [= <-] & H)]; [discriminate|].
        apply (proj2 (find_nodes_modifier_None 0 _)) in H. congruence.
    + cbn. split; [|reflexivity]. intros _. right. exists obj.
      split; [reflexivity|].
      exact (proj1 (find_nodes_modifier_None 0 _) Hmod).
  - destruct (Object.active_material obj) as [material|]; [|cbn; eauto].
    destruct (_ ≫= _) as [[fn sp]|e]; [|discriminate].
    destruct (animate_value_node _ _ _ _ _ _). discriminate.
  - destruct (find_nodes_modifier 0 (Object.modifiers obj))
      as [[i modifier]|]; [|cbn; eauto].
    destruct (node_group modifier); [|discriminate].
    destruct (_ ≫= _) as [[fn sp]|e]; [|discriminate].
    destruct (animate_value_node _ _ _ _ _ _). discriminate.
Qed.


(** X10. When the text block cannot be read, the exception escapes and no
    node, action or curve is made.  The shader operator has by then
    switched the material's nodes on, and that stays; the geometry-nodes
    operator leaves the host untouched. *)
Theorem transfer_of_malformed_text (b : bpy) (text : string) (obj : Object.t)
    (e : exn) :
  texts b !! text_block_name (speed_data_processor b) = Some text ->
  read_series text = Raise e ->
  active_object b = Some obj ->
  (forall material, Object.active_material obj = Some material ->
     let out := TransferToShaderEditor_execute unique_name default_node_tree b in
     returned out = Raise e /\ reported out = []
     /\ actions (host out) = actions b
     /\ active_object (host out)
        = Some (set_active_material
                  {| use_nodes := true;
                     node_tree :=
                       Some (default default_node_tree (node_tree material)) |}
                  obj))
  /\ (forall i modifier tree,
        find_nodes_modifier 0 (Object.modifiers obj) = Some (i, modifier) ->
        node_group modifier = Some tree ->
        TransferToGeoNodes_execute unique_name b
        = {| returned := Raise e; reported := []; host := b |}).
Proof.
  intros Htext Hread Hobj. split.
  - intros material Hmat.
    rewrite (TransferToShaderEditor_run b text obj material Htext Hobj Hmat).
    rewrite Hread. cbn [returned reported host]. repeat split.
    + unfold store_object. destruct (context_object b); reflexivity.
    + apply (active_object_store b obj), Hobj.
  - intros i modifier tree Hmod Htree.
    rewrite (TransferToGeoNodes_run b text obj i modifier tree Htext Hobj
               Hmod Htree).
    rewrite Hread. reflexivity.
Qed.

Lemma animate_value_node_extends (new_action_name : string)
    (frame_numbers : list Z) (speeds : list spec_float) (tree : NodeTree)
    (acts : list Action) :
  actions_extended acts
    (animate_value_node unique_name new_action_name frame_numbers speeds tree
       acts).2.
Proof.
  destruct (animate_value_node_spec unique_name new_action_name frame_numbers
              speeds tree acts) as (value_node & curve & id & _ & _ & _ & _ & H).
  unfold curve_added in H. set (acts' := (animate_value_node _ _ _ _ _ _).2) in *.
  destruct (tree_action tree) as [old|].
  - destruct H as (_ & Hlen & Hold & Hother). split; [lia|].
    intros j a Hj. destruct (decide (j = old)) as [->|Hne].
    + exists (add_fcurve curve a). split; [apply Hold, Hj|].
      split; [reflexivity|]. cbn. apply prefix_app_r. reflexivity.
    + exists a. rewrite (Hother j Hne). auto.
  - destruct H as (_ & ->). split; [rewrite length_app; cbn; lia|].
    intros j a Hj. exists a. split; [|auto].
    apply lookup_app_l_Some, Hj.
Qed.

Lemma actions_extended_refl (acts : list Action) : actions_extended acts acts.
Proof. split; [lia|]. intros j a Hj. exists a. auto. Qed.

Lemma store_object_other (b : bpy) (o : Object.t) (name : string) :
  context_object b <> Some name ->
  objects (store_object (context_object b) o b) !! name = objects b !! name.
Proof.
  unfold store_object. destruct (context_object b) as [n|]; [|reflexivity].
  intros Hne. cbn. apply lookup_insert_ne. congruence.
Qed.

Lemma only_animated_refl (b : bpy) : only_animated b b.
Proof.
  unfold only_animated. repeat (split; [done|]). apply actions_extended_refl.
Qed.

Lemma only_animated_store (b : bpy) (o : Object.t) (acts : list Action) :
  actions_extended (actions b) acts ->
  only_animated b (set_actions acts (store_object (context_object b) o b)).
Proof.
  intros Hacts. unfold only_animated.
  assert (Hfields : forall h, h = store_object (context_object b) o b ->
            texts h = texts b /\ context_object h = context_object b
            /\ frame_start h = frame_start b /\ frame_end h = frame_end b
            /\ frame_current h = frame_current b /\ fps h = fps b
            /\ speed_data_processor h = speed_data_processor b
            /\ frame_change_post h = frame_change_post b).
  { intros h ->. unfold store_object.
    destruct (context_object b) eqn:E; cbn; rewrite ?E; repeat split. }
  destruct (Hfields _ eq_refl) as (H1 & H2 & H3 & H4 & H5 & H6 & H7 & H8).
  cbn [set_actions texts context_object frame_start frame_end frame_current
       fps speed_data_processor frame_change_post objects actions].
  repeat (split; [assumption|]). split; [|exact Hacts].
  intros name Hne. apply store_object_other, Hne.
Qed.

(** X11. Whatever its outcome, a transfer changes the active object and
    the actions only: text blocks, selection, frame range, current frame,
    frame rate, properties, handlers and all other objects are as before.
    No action is removed or renamed, none loses a curve, and at most one
    is added. *)
Theorem transfer_only_animates (b : bpy) :
  only_animated b
    (host (TransferToShaderEditor_execute unique_name default_node_tree b))
  /\ only_animated b (host (TransferToGeoNodes_execute unique_name b)).
Proof.
  split.
  - unfold TransferToShaderEditor_execute.
    destruct (texts b !! _) as [text|]; [|apply only_animated_refl].
    destruct (active_object b) as [obj|]; [|apply only_animated_refl].
    destruct (Object.active_material obj) as [material|];
      [|apply only_animated_refl].
    destruct (_ ≫= _) as [[fn sp]|e].
    + pose proof (animate_value_node_extends "SpeedAction" fn sp
                    (default default_node_tree (node_tree material))
                    (actions b)) as Hext.
      destruct (animate_value_node _ _ _ _ _ _) as [tree' acts].
      cbn [host]. apply only_animated_store, Hext.
    + cbn [host].
      assert (Hsame : forall o,
                store_object (context_object b) o b
                = set_actions (actions b) (store_object (context_object b) o b)).
      { intros o. unfold store_object.
        destruct (context_object b); [reflexivity|]. destruct b; reflexivity. }
      rewrite Hsame. apply only_animated_store, actions_extended_refl.
  - unfold TransferToGeoNodes_execute.
    destruct (texts b !! _) as [text|]; [|apply only_animated_refl].
    destruct (active_object b) as [obj|]; [|apply only_animated_refl].
    destruct (find_nodes_modifier 0 _) as [[i modifier]|];
      [|apply only_animated_refl].
    destruct (node_group modifier) as [tree|]; [|apply only_animated_refl].
    destruct (_ ≫= _) as [[fn sp]|e]; [|apply only_animated_refl].
    pose proof (animate_value_node_extends "GeoNodesSpeedAction" fn sp tree
                  (actions b)) as Hext.
    destruct (animate_value_node _ _ _ _ _ _) as [tree' acts].
    cbn [host]. apply only_animated_store, Hext.
Qed.

Lemma animate_value_node_action (new_action_name : string)
    (frame_numbers : list Z) (speeds : list spec_float) (tree : NodeTree)
    (acts : list Action) :
  let r := animate_value_node unique_name new_action_name frame_numbers
             speeds tree acts in
  is_Some (tree_action r.1)
  /\ (is_Some (tree_action tree) -> length r.2 = length acts)
  /\ (length r.2 = length acts \/ length r.2 = S (length acts)).
Proof.
  cbn zeta.
  destruct (animate_value_node_spec unique_name new_action_name frame_numbers
              speeds tree acts)
    as (value_node & curve & id & Heq & _ & _ & _ & H).
  rewrite Heq at 1. cbn [fst]. split; [eexists; reflexivity|].
  unfold curve_added in H. destruct (tree_action tree) as [old|].
  - destruct H as (_ & Hlen & _). auto.
  - destruct H as (_ & ->). rewrite length_app. cbn.
    split; [intros [? [=]]|right; lia].
Qed.

Lemma find_nodes_modifier_insert (ms : list Modifier) (i : nat)
    (modifier modifier' : Modifier) :
  find_nodes_modifier 0 ms = Some (i, modifier) ->
  modifier_type modifier' = modifier_type modifier ->
  find_nodes_modifier 0 (<[i := modifier']> ms) = Some (i, modifier').
Proof.
  intros Hfind Htype. revert Hfind.
  assert (H : forall k,
    find_nodes_modifier k ms = Some (i, modifier) ->
    (k <= i)%nat
    /\ find_nodes_modifier k (<[(i - k)%nat := modifier']> ms)
       = Some (i, modifier')).
  { induction ms as [|m ms IH]; intros k; cbn [find_nodes_modifier];
      [discriminate|].
    destruct (String.eqb_spec (modifier_type m) "NODES") as [E|E].
    - intros [= <- <-]. rewrite Nat.sub_diag. split; [lia|].
      cbn. rewrite Htype, E. reflexivity.
    - intros Hf. destruct (IH _ Hf) as [Hle Hi]. split; [lia|].
      replace (i - k)%nat with (S (i - S k)) by lia. cbn.
      destruct (String.eqb_spec (modifier_type m) "NODES");
        [contradiction|exact Hi]. }
  intros Hfind.
  destruct (H 0%nat Hfind) as [_ Hi]. rewrite Nat.sub_0_r in Hi. exact Hi.
Qed.

Lemma active_object_set_actions (acts : list Action) (h : bpy) :
  active_object (set_actions acts h) = active_object h.
Proof. reflexivity. Qed.

Lemma shader_transfer_step (L : nat) (h : bpy) :
  length (actions h) = L \/ length (actions h) = S L /\ material_animated h ->
  let h' := host (TransferToShaderEditor_execute unique_name
                    default_node_tree h) in
  length (actions h') = L \/ length (actions h') = S L /\ material_animated h'.
Proof.
  intros Hinv. cbn zeta.
  destruct (texts h !! text_block_name (speed_data_processor h))
    as [text|] eqn:Htext;
    [|unfold TransferToShaderEditor_execute; rewrite Htext; exact Hinv].
  destruct (active_object h) as [obj|] eqn:Hobj;
    [|unfold TransferToShaderEditor_execute; rewrite Htext, Hobj; exact Hinv].
  destruct (Object.active_material obj) as [material|] eqn:Hmat;
    [|unfold TransferToShaderEditor_execute; rewrite Htext, Hobj, Hmat;
      exact Hinv].
  rewrite (TransferToShaderEditor_run h text obj material Htext Hobj Hmat).
  set (tree := default default_node_tree (node_tree material)).
  assert (Htree : material_animated h -> is_Some (tree_action tree)).
  { intros (obj0 & m0 & t0 & Ho & Hm & Ht & Ha).
    rewrite Hobj in Ho. injection Ho as <-. rewrite Hmat in Hm.
    injection Hm as <-. unfold tree. rewrite Ht. exact Ha. }
  destruct (read_series text) as [[fn sp]|e].
  - pose proof (animate_value_node_action "SpeedAction" fn sp tree
                  (actions h)) as (Hact & Hsame & Hlen).
    destruct (animate_value_node _ _ _ _ _ _) as [tree' acts].
    cbn [fst snd host] in *.
    assert (Hanim : material_animated
                      (set_actions acts
                         (store_object (context_object h)
                            (set_active_material
                               {| use_nodes := true; node_tree := Some tree' |}
                               obj) h))).
    { eexists _, _, tree'. rewrite active_object_set_actions.
      rewrite (active_object_store h obj _ Hobj). cbn. auto. }
    cbn [set_actions actions].
    destruct Hinv as [HL|[HL Ha]].
    + destruct Hlen as [Hlen|Hlen]; [left; congruence|right].
      split; [congruence|exact Hanim].
    + right. split; [rewrite (Hsame (Htree Ha)); exact HL|exact Hanim].
  - cbn [host].
    assert (Hacts : actions (store_object (context_object h)
                      (set_active_material
                         {| use_nodes := true; node_tree := Some tree |} obj) h)
                    = actions h).
    { unfold store_object. destruct (context_object h); reflexivity. }
    rewrite Hacts. destruct Hinv as [HL|[HL Ha]]; [left; exact HL|right].
    split; [exact HL|]. eexists _, _, tree.
    rewrite (active_object_store h obj _ Hobj). cbn. auto.
Qed.

Lemma geo_transfer_step (L : nat) (h : bpy) :
  length (actions h) = L \/ length (actions h) = S L /\ modifier_animated h ->
  let h' := host (TransferToGeoNodes_execute unique_name h) in
  length (actions h') = L \/ length (actions h') = S L /\ modifier_animated h'.
Proof.
  intros Hinv. cbn zeta.
  destruct (texts h !! text_block_name (speed_data_processor h))
    as [text|] eqn:Htext;
    [|unfold TransferToGeoNodes_execute; rewrite Htext; exact Hinv].
  destruct (active_object h) as [obj|] eqn:Hobj;
    [|unfold TransferToGeoNodes_execute; rewrite Htext, Hobj; exact Hinv].
  destruct (find_nodes_modifier 0 (Object.modifiers obj))
    as [[i modifier]|] eqn:Hmod;
    [|unfold TransferToGeoNodes_execute; rewrite Htext, Hobj, Hmod;
      exact Hinv].
  destruct (node_group modifier) as [tree|] eqn:Hgroup;
    [|unfold TransferToGeoNodes_execute; rewrite Htext, Hobj, Hmod, Hgroup;
      exact Hinv].
  rewrite (TransferToGeoNodes_run h text obj i modifier tree Htext Hobj Hmod
             Hgroup).
  assert (Htree : modifier_animated h -> is_Some (tree_action tree)).
  { intros (obj0 & i0 & m0 & t0 & Ho & Hm & Ht & Ha).
    rewrite Hobj in Ho. injection Ho as <-. rewrite Hmod in Hm.
    injection Hm as <- <-. rewrite Hgroup in Ht. injection Ht as <-.
    exact Ha. }
  destruct (read_series text) as [[fn sp]|e]; [|exact Hinv].
  pose proof (animate_value_node_action "GeoNodesSpeedAction" fn sp tree
                (actions h)) as (Hact & Hsame & Hlen).
  destruct (animate_value_node _ _ _ _ _ _) as [tree' acts].
  cbn [fst snd host] in *.
  set (modifier' := {| modifier_type := modifier_type modifier;
                       node_group := Some tree' |}).
  assert (Hanim : modifier_animated
                    (set_actions acts
                       (store_object (context_object h)
                          (set_modifiers
                             (<[i := modifier']> (Object.modifiers obj)) obj)
                          h))).
  { eexists _, i, modifier', tree'. rewrite active_object_set_actions.
    rewrite (active_object_store h obj _ Hobj). cbn.
    split; [reflexivity|]. split; [|auto].
    apply (find_nodes_modifier_insert _ _ modifier); [exact Hmod|reflexivity]. }
  cbn [set_actions actions].
  destruct Hinv as [HL|[HL Ha]].
  - destruct Hlen as [Hlen|Hlen]; [left; congruence|right].
    split; [congruence|exact Hanim].
  - right. split; [rewrite (Hsame (Htree Ha)); exact HL|exact Hanim].
Qed.

(** X12. However often a transfer operator is run on a host, it makes at
    most one action: from the first run that finishes, the node tree has
    its action, and every later run adds its curve to that one. *)
Theorem repeated_transfers_one_action (b : bpy) (n : nat) :
  (length (actions
             (Nat.iter n
                (fun h => host (TransferToShaderEditor_execute unique_name
                                  default_node_tree h)) b))
   <= length (actions b) + 1)%nat
  /\ (length (actions
                (Nat.iter n
                   (fun h => host (TransferToGeoNodes_execute unique_name h))
                   b))
      <= length (actions b) + 1)%nat.
Proof.
  split.
  - assert (H : let h := Nat.iter n
                  (fun h => host (TransferToShaderEditor_execute unique_name
                                    default_node_tree h)) b in
                length (actions h) = length (actions b)
                \/ length (actions h) = S (length (actions b))
                   /\ material_animated h).
    { induction n as [|n IH]; [left; reflexivity|].
      cbn [Nat.iter]. apply shader_transfer_step, IH. }
    cbn zeta in H. lia.
  - assert (H : let h := Nat.iter n
                  (fun h => host (TransferToGeoNodes_execute unique_name h))
                  b in
                length (actions h) = length (actions b)
                \/ length (actions h) = S (length (actions b))
                   /\ modifier_animated h).
    { induction n as [|n IH]; [left; reflexivity|].
      cbn [Nat.iter]. apply geo_transfer_step, IH. }
    cbn zeta in H. lia.
Qed.



End Transfer.

Lemma transfer_cancelled_witness :
  host (TransferToShaderEditor_execute (fun _ name => name)
          {| nodes := []; animation_data := None |} (example_host 0 4 24))
  = example_host 0 4 24.
Proof.
  exact (proj1 (proj1 (proj2 (proj2
           (transfer_cancelled (fun _ name => name)
              {| nodes := []; animation_data := None |}
              (example_host 0 4 24)))) ltac:(reflexivity))).
Defined.

Lemma transfer_of_malformed_text_witness :
  TransferToGeoNodes_execute (fun _ name => name) unreadable_host
  = {| returned := Raise IndexError; reported := [];
       host := unreadable_host |}.
Proof.
  exact (proj2 (transfer_of_malformed_text (fun _ name => name)
                  {| nodes := []; animation_data := None |}
                  unreadable_host "1,2" painted_runner IndexError
                  ltac:(reflexivity) ltac:(vm_compute; reflexivity)
                  ltac:(reflexivity))
           0%nat _ _ ltac:(reflexivity) ltac:(reflexivity)).
Defined.

Lemma transfer_only_animates_witness :
  only_animated painted_host
    (host (TransferToGeoNodes_execute (fun _ name => name) painted_host)).
Proof.
  exact (proj2 (transfer_only_animates (fun _ name => name)
                  {| nodes := []; animation_data := None |} painted_host)).
Defined.

Lemma repeated_transfers_one_action_witness :
  (length (actions
             (Nat.iter 3
                (fun h => host (TransferToGeoNodes_execute
                                  (fun _ name => name) h))
                painted_host))
   <= 0 + 1)%nat.
Proof.
  exact (proj2 (repeated_transfers_one_action (fun _ name => name)
                  {| nodes := []; animation_data := None |} painted_host 3)).
Defined.


(** ** The overlay operator, case by case *)

(** The host once the text object is there. *)
Lemma DisplaySpeed_execute_run (b : bpy) :
  let b1 := match objects b !! "SpeedText" with
            | None =>
                set_context_object (Some "SpeedText")
                  (set_objects (<["SpeedText" := new_speed_text]> (objects b))
                     b)
            | Some _ => b
            end in
  DisplaySpeed_execute b
  = match parse_speed_data (text_block_name (speed_data_processor b))
            (texts b) with
    | Raise e => {| returned := Raise e; reported := []; host := b1 |}
    | Ok speed_data =>
        {| returned := Ok FINISHED;
           reported :=
             [(INFO, "Text object created and updated with speed data")];
           host := set_frame_change_post [update_text speed_data] b1 |}
    end.
Proof.
  unfold DisplaySpeed_execute. destruct (objects b !! "SpeedText"); reflexivity.
Qed.

(** X14. With the named text block missing the overlay operator still
    finishes: it registers a handler over an empty dictionary, which shows
    0 at every frame.  (The transfer operators are cancelled instead.) *)
Theorem DisplaySpeed_without_block (b : bpy) :
  texts b !! text_block_name (speed_data_processor b) = None ->
  let out := DisplaySpeed_execute b in
  returned out = Ok FINISHED
  /\ frame_change_post (host out) = [update_text ∅]
  /\ forall frame, lookup_speed ∅ frame = 0.
Proof.
  intros Htext. cbn zeta. rewrite DisplaySpeed_execute_run.
  unfold parse_speed_data. rewrite Htext. cbn.
  split; [reflexivity|]. split; [reflexivity|].
  intros frame. unfold lookup_speed. rewrite lookup_empty. reflexivity.
Qed.

Lemma DisplaySpeed_without_block_witness :
  frame_change_post (host (DisplaySpeed_execute (example_host 0 4 24)))
  = [update_text ∅].
Proof.
  exact (proj1 (proj2 (DisplaySpeed_without_block (example_host 0 4 24)
                         ltac:(reflexivity)))).
Defined.

(** X15. Running the overlay operator again after it finished changes
    nothing: the text object is found, the same dictionary is read, and
    the one handler is replaced by an equal one. *)
Theorem DisplaySpeed_rerun (b : bpy) :
  let out := DisplaySpeed_execute b in
  returned out = Ok FINISHED -> DisplaySpeed_execute (host out) = out.
Proof.
  cbn zeta. rewrite (DisplaySpeed_execute_run b).
  destruct (parse_speed_data _ (texts b)) as [d|e] eqn:Hparse; [|discriminate].
  intros _. cbn [host]. rewrite DisplaySpeed_execute_run.
  destruct (objects b !! "SpeedText") as [o|] eqn:Ho.
  - cbn [set_frame_change_post objects texts speed_data_processor].
    rewrite Ho, Hparse. reflexivity.
  - cbn [set_frame_change_post set_context_object set_objects objects texts
         speed_data_processor].
    rewrite lookup_insert_eq, Hparse. reflexivity.
Qed.

Lemma DisplaySpeed_rerun_witness :
  let out := DisplaySpeed_execute (host (GetSpeed_execute strided_host)) in
  DisplaySpeed_execute (host out) = out.
Proof.
  exact (DisplaySpeed_rerun (host (GetSpeed_execute strided_host))
           ltac:(vm_compute; reflexivity)).
Defined.



(** X17. Once the overlay operator has made its text object, that object
    is the selection and the other buttons work on it.  A run of the
    sampler measures the text, which does not move: it finishes with every
    speed 0.  Each transfer is cancelled, for want of the text block or,
    when that is there, of a material or a modifier on the text. *)
Theorem buttons_after_DisplaySpeed
    (unique_name : list string -> string -> string)
    (default_node_tree : NodeTree) (b : bpy) :
  let props := speed_data_processor b in
  let k := stride props in
  objects b !! "SpeedText" = None ->
  let shown := host (DisplaySpeed_execute b) in
  (1 <= k < 2 ^ 1000 -> 1 <= fps b < 2 ^ 1000 ->
   1 <= averaging_window props ->
   let out := GetSpeed_execute shown in
   returned out = Ok FINISHED
   /\ texts (host out) !! text_block_name props
      = Some (write_records
                (map (fun i : nat => (frame_start b + Z.of_nat i * k,
                                      frame_start b + Z.of_nat (S i) * k, 0))
                   (seq 0 (record_count (frame_start b) (frame_end b) k)))
                ""))
  /\ returned (TransferToShaderEditor_execute unique_name default_node_tree
                 shown) = Ok CANCELLED
  /\ returned (TransferToGeoNodes_execute unique_name shown) = Ok CANCELLED.
Proof.
  intros props k Hnone. cbn zeta.
  set (h := host (DisplaySpeed_execute b)).
  assert (Hh : active_object h = Some new_speed_text
               /\ speed_data_processor h = props
               /\ frame_start h = frame_start b /\ frame_end h = frame_end b
               /\ fps h = fps b).
  { unfold h. rewrite DisplaySpeed_execute_run, Hnone.
    destruct (parse_speed_data _ _); cbn; unfold active_object; cbn;
      rewrite lookup_insert_eq; auto. }
  destruct Hh as (Hobj & Hprops & Hstart & Hend & Hfps').
  split; [|split].
  - intros Hk Hfps Hw.
    pose proof (computed_records_at_rest h new_speed_text) as Hrs.
    cbn zeta in Hrs. rewrite Hprops, Hstart, Hend, Hfps' in Hrs.
    specialize (Hrs Hk Hfps Hw eq_refl eq_refl
                  (fun frame => conj eq_refl eq_refl)).
    rewrite (GetSpeed_execute_run h new_speed_text Hobj), Hrs, Hprops. cbn.
    split; [reflexivity|apply lookup_insert_eq].
  - unfold TransferToShaderEditor_execute.
    destruct (texts h !! _); [|reflexivity]. rewrite Hobj. reflexivity.
  - unfold TransferToGeoNodes_execute.
    destruct (texts h !! _); [|reflexivity]. rewrite Hobj. reflexivity.
Qed.

Lemma buttons_after_DisplaySpeed_witness :
  returned (GetSpeed_execute (host (DisplaySpeed_execute strided_host)))
  = Ok FINISHED.
Proof.
  exact (proj1 (proj1 (buttons_after_DisplaySpeed (fun _ name => name)
                         {| nodes := []; animation_data := None |}
                         strided_host ltac:(reflexivity))
                  ltac:(vm_compute; split; [discriminate|reflexivity])
                  ltac:(vm_compute; split; [discriminate|reflexivity])
                  ltac:(vm_compute; discriminate))).
Defined.

(** ** The handler *)



(** ** The overlay of a run *)







(** ** The panel *)

Lemma stride_hidden (props : Properties) (k : Z) :
  use_interval props = false -> stride (set_interval k props) = stride props.
Proof. unfold stride. cbn. intros ->. reflexivity. Qed.

(** X20. The panel shows the field [interval] exactly when [use_interval]
    is set and the field [averaging_window] exactly when [apply_averaging]
    is set, and a field it hides has no effect: whatever value the hidden
    property holds, a run returns the same, writes the same text blocks and
    leaves the same frame.  Each of its buttons calls one of the four
    operators. *)
Theorem panel_hides_unused_fields (b : bpy) :
  let props := speed_data_processor b in
  let shown property := In (layout_prop property) (draw props) in
  let same_run props' :=
    let out := GetSpeed_execute b in
    let out' := GetSpeed_execute (set_speed_data_processor props' b) in
    returned out' = returned out /\ reported out' = reported out
    /\ texts (host out') = texts (host out)
    /\ frame_current (host out') = frame_current (host out) in
  (shown "interval" <-> use_interval props = true)
  /\ (shown "averaging_window" <-> apply_averaging props = true)
  /\ (~ shown "interval" -> forall k, same_run (set_interval k props))
  /\ (~ shown "averaging_window" ->
      forall w, same_run (set_averaging_window w props))
  /\ forall idname text, In (layout_operator idname text) (draw props) ->
       In idname [GetSpeed_bl_idname; TransferToShaderEditor_bl_idname;
                  TransferToGeoNodes_bl_idname; DisplaySpeed_bl_idname].
Proof.
  intros props shown same_run.
  assert (Hinterval : shown "interval" <-> use_interval props = true).
  { unfold shown, draw.
    destruct (apply_averaging props), (use_interval props); cbn;
      intuition congruence. }
  assert (Hwindow : shown "averaging_window" <-> apply_averaging props = true).
  { unfold shown, draw.
    destruct (apply_averaging props), (use_interval props); cbn;
      intuition congruence. }
  assert (Hsame : forall props',
            text_block_name props' = text_block_name props ->
            (forall obj,
               computed_records (set_speed_data_processor props' b) obj
               = computed_records b obj) ->
            stride props' = stride props ->
            same_run props').
  { intros props' Hname Hrecords Hstride. unfold same_run.
    destruct (active_object b) as [obj|] eqn:Hobj.
    - assert (Hobj' : active_object (set_speed_data_processor props' b)
                      = Some obj) by exact Hobj.
      rewrite (GetSpeed_execute_run _ obj Hobj'),
        (GetSpeed_execute_run b obj Hobj), Hrecords.
      cbn [speed_data_processor set_speed_data_processor frame_start
           frame_end fps frame_current texts].
      fold props. rewrite Hname, Hstride.
      destruct (computed_records b obj); cbn; auto.
    - unfold GetSpeed_execute.
      assert (Hobj' : active_object (set_speed_data_processor props' b)
                      = None) by exact Hobj.
      rewrite Hobj, Hobj'. cbn. auto. }
  split; [exact Hinterval|]. split; [exact Hwindow|]. split; [|split].
  - intros Hhidden k.
    assert (Hoff : use_interval props = false).
    { destruct (use_interval props); [|reflexivity].
      exfalso. apply Hhidden, Hinterval. reflexivity. }
    apply Hsame; [reflexivity| |apply stride_hidden, Hoff].
    intros obj. unfold computed_records.
    cbn [speed_data_processor set_speed_data_processor frame_start frame_end
         fps frame_current].
    fold props. rewrite (stride_hidden props k Hoff). reflexivity.
  - intros Hhidden w.
    assert (Hoff : apply_averaging props = false).
    { destruct (apply_averaging props); [|reflexivity].
      exfalso. apply Hhidden, Hwindow. reflexivity. }
    apply Hsame; [reflexivity| |reflexivity].
    intros obj. unfold computed_records.
    cbn [speed_data_processor set_speed_data_processor frame_start frame_end
         fps frame_current apply_averaging set_averaging_window].
    fold props. rewrite Hoff. reflexivity.
  - intros idname text. unfold draw.
    destruct (apply_averaging props), (use_interval props); cbn;
      intros H; repeat (destruct H as [H|H]; [inversion H; auto 10|]);
      contradiction.
Qed.

Lemma panel_hides_unused_fields_witness :
  texts (host (GetSpeed_execute
                 (set_speed_data_processor (set_interval 3 default_props)
                    (example_host 0 4 24))))
  = texts (host (GetSpeed_execute (example_host 0 4 24))).
Proof.
  exact (proj1 (proj2 (proj2
           (proj1 (proj2 (proj2 (panel_hides_unused_fields
                                   (example_host 0 4 24))))
              ltac:(vm_compute; intuition discriminate) 3)))).
Defined.

(** ** A window wider than the run *)

Lemma centered_window_all (h : nat) (speeds : list Z) (i : nat) :
  (i < length speeds)%nat -> (length speeds - 1 <= h)%nat ->
  centered_window h speeds i = speeds.
Proof.
  intros Hi Hh. unfold centered_window.
  replace (i - h)%nat with 0%nat by lia.
  rewrite Nat.min_l by lia. rewrite Nat.sub_0_r. cbn [drop].
  apply firstn_all.
Qed.

Lemma rmap_seq_map {A B : Type} (f : nat -> result B) (g : A -> B)
    (l : list A) (k : nat) :
  (forall (i : nat) a, l !! i = Some a -> f (k + i)%nat = Ok (g a)) ->
  rmap f (seq k (length l)) = Ok (map g l).
Proof.
  revert k. induction l as [|a l IH]; intros k Hk; [reflexivity|].
  cbn [length seq rmap map].
  pose proof (Hk 0%nat a eq_refl) as H0. rewrite Nat.add_0_r in H0.
  rewrite H0. cbn [mbind result_bind]. rewrite IH; [reflexivity|].
  intros i a' Hi. replace (S k + i)%nat with (k + S i)%nat by lia.
  apply Hk. exact Hi.
Qed.

(** X21. A window that reaches past both ends of the run from every
    record replaces every speed by the rounded mean of all the speeds. *)
Theorem averaging_over_whole_run (w : Z) (rs : list SpeedRecord) :
  1 <= w -> rs <> [] -> len rs - 1 <= w / 2 ->
  averaging_pass w rs
  = (mean ← rounded_mean (map speed_of rs);
     Ok (map (fun r => (frameStart r, frameEnd r, mean)) rs)).
Proof.
  intros Hw Hne Hwide. rewrite averaging_pass_spec.
  assert (Hat : forall (i : nat) r, rs !! i = Some r ->
            average_at w rs (Z.of_nat i)
            = (mean ← rounded_mean (map speed_of rs);
               Ok (frameStart r, frameEnd r, mean))).
  { intros i r Hi. rewrite (average_at_spec w rs i r Hw Hi).
    pose proof (lookup_lt_Some _ _ _ Hi) as Hlt.
    rewrite centered_window_all
      by (rewrite length_map; unfold len in Hwide; lia).
    reflexivity. }
  destruct (rounded_mean (map speed_of rs)) as [mean|e] eqn:Hmean;
    cbn [mbind result_bind] in *.
  - apply (rmap_seq_map _ (fun r => (frameStart r, frameEnd r, mean))).
    intros i r Hi. apply Hat, Hi.
  - destruct rs as [|r rs0]; [congruence|].
    cbn [length seq rmap]. rewrite (Hat 0%nat r eq_refl). reflexivity.
Qed.

Lemma averaging_over_whole_run_witness :
  averaging_pass 5 [(0, 1, 10); (1, 2, 20); (2, 3, 60)]
  = Ok [(0, 1, 30); (1, 2, 30); (2, 3, 30)].
Proof.
  exact (averaging_over_whole_run 5 [(0, 1, 10); (1, 2, 20); (2, 3, 60)]
           ltac:(lia) ltac:(discriminate) ltac:(vm_compute; discriminate)).
Defined.

(** ** Direction *)

Lemma binary_round_aux_opp (s : bool) (m e : Z) (l : location) :
  binary_round_aux PyFloat.prec PyFloat.emax (negb s) m e l
  = SFopp (binary_round_aux PyFloat.prec PyFloat.emax s m e l).
Proof.
  unfold binary_round_aux.
  destruct (shr_fexp _ _ m e l) as [mrs' e'].
  destruct (shr_fexp _ _ _ e' loc_Exact) as [mrs'' e''].
  destruct (shr_m mrs''); cbn; try reflexivity.
  destruct (_ <=? _); reflexivity.
Qed.

Lemma binary_normalize_opp (z e : Z) :
  z <> 0 ->
  binary_normalize PyFloat.prec PyFloat.emax (- z) e false
  = SFopp (binary_normalize PyFloat.prec PyFloat.emax z e false).
Proof.
  destruct z as [|p|p]; [congruence| |]; intros _.
  - change (- Z.pos p) with (Z.neg p). unfold binary_normalize, binary_round.
    destruct (shl_align _ _ _) as [mz ez].
    apply (binary_round_aux_opp false).
  - change (- Z.neg p) with (Z.pos p). unfold binary_normalize, binary_round.
    destruct (shl_align _ _ _) as [mz ez].
    rewrite (binary_round_aux_opp false). destruct (binary_round_aux _ _ _ _ _ _);
      cbn; rewrite ?negb_involutive; reflexivity.
Qed.

Lemma fsub_swap (x y : spec_float) :
  opposite_or_zero (PyFloat.fsub x y) (PyFloat.fsub y x).
Proof.
  unfold opposite_or_zero, PyFloat.fsub, SFsub.
  destruct x as [sx|sx| |sx mx ex], y as [sy|sy| |sy my ey];
    try (destruct sx, sy; cbn; auto; fail); try (cbn; auto; fail).
  cbn zeta. rewrite (Z.min_comm ey ex).
  set (X := cond_Zopp sx _). set (Y := cond_Zopp sy _).
  replace (Y - X) with (- (X - Y)) by lia.
  destruct (Z.eq_dec (X - Y) 0) as [->|Hne]; [right; reflexivity|].
  left. apply binary_normalize_opp, Hne.
Qed.

Lemma fsub_opp (x y : spec_float) :
  opposite_or_zero (PyFloat.fsub x y) (PyFloat.fsub (SFopp x) (SFopp y)).
Proof.
  unfold opposite_or_zero, PyFloat.fsub, SFsub.
  destruct x as [sx|sx| |sx mx ex], y as [sy|sy| |sy my ey];
    try (destruct sx, sy; cbn; auto; fail); try (cbn; auto; fail).
  cbn [SFopp]. cbn zeta.
  set (ez := Z.min ex ey).
  replace (cond_Zopp (negb sx) (Zpos (shl_align mx ex ez).1)
           - cond_Zopp (negb sy) (Zpos (shl_align my ey ez).1))
    with (- (cond_Zopp sx (Zpos (shl_align mx ex ez).1)
             - cond_Zopp sy (Zpos (shl_align my ey ez).1)))
    by (destruct sx, sy; cbn; lia).
  set (D := cond_Zopp sx _ - cond_Zopp sy _).
  destruct (Z.eq_dec D 0) as [->|Hne]; [right; reflexivity|].
  left. apply binary_normalize_opp, Hne.
Qed.

Lemma square_opposite (d d' : spec_float) :
  opposite_or_zero d d' -> PyFloat.square d' = PyFloat.square d.
Proof.
  intros [->| ->]; [|reflexivity].
  unfold PyFloat.square, PyFloat.fmul, SFmul.
  destruct d as [s|s| |s m e]; cbn; try reflexivity;
    destruct s; reflexivity.
Qed.

Lemma measure_speed_reflected (flip_x flip_y : bool) (interval fps : Z)
    (p1 p2 l1 l2 : Vector.t) :
  reflected flip_x flip_y p1 p2 -> reflected flip_x flip_y l1 l2 ->
  measure_speed interval fps p1 l1 = measure_speed interval fps p2 l2.
Proof.
  intros [Hx Hy] [Hx' Hy']. unfold measure_speed. rewrite Hx, Hy, Hx', Hy'.
  assert (Hflip : forall (flip : bool) a c,
            PyFloat.square
              (PyFloat.fsub (if flip then SFopp a else a)
                 (if flip then SFopp c else c))
            = PyFloat.square (PyFloat.fsub a c)).
  { intros [] a c; [|reflexivity]. apply square_opposite, fsub_opp. }
  rewrite !Hflip. reflexivity.
Qed.

(** X22. The speed of a step does not depend on its direction: from one
    point to another it is what it is from the other to the one.  Nor
    does a run depend on which way the axes point: an object whose x, or
    y, or both are the negated ones of another's at every frame gives the
    same records. *)
Theorem speed_ignores_direction :
  (forall interval fps prev location,
     measure_speed interval fps prev location
     = measure_speed interval fps location prev)
  /\ forall (flip_x flip_y : bool) (obj obj' : Object.t),
       (forall frame, reflected flip_x flip_y (Object.location obj frame)
                        (Object.location obj' frame)) ->
       forall b, computed_records b obj = computed_records b obj'.
Proof.
  split.
  - intros interval fps prev location. unfold measure_speed.
    rewrite (square_opposite _ _
               (fsub_swap (Vector.x prev) (Vector.x location))).
    rewrite (square_opposite _ _
               (fsub_swap (Vector.y prev) (Vector.y location))).
    reflexivity.
  - intros flip_x flip_y obj obj' Hat b. unfold computed_records.
    rewrite (sampling_pass_related (reflected flip_x flip_y) _ _ _ _
               (Object.location obj) (Object.location obj'));
      [reflexivity| |exact Hat].
    intros p1 p2 l1 l2. apply measure_speed_reflected.
Qed.

Lemma speed_ignores_direction_witness :
  computed_records strided_host runner
  = computed_records strided_host backward_runner.
Proof.
  exact (proj2 speed_ignores_direction true false runner backward_runner
           ltac:(intros frame; split; reflexivity) strided_host).
Defined.

(** ** The speeds a transfer prints *)

Lemma fold_choice_In {A : Type} (choose : A -> A -> bool) (rest : list A)
    (first : A) :
  In (fold_left (fun best item => if choose best item then item else best)
        rest first)
     (first :: rest).
Proof.
  revert first. induction rest as [|a rest IH]; intros first; [left; auto|].
  cbn [fold_left]. destruct (IH (if choose first a then a else first))
    as [H|H].
  - destruct (choose first a); rewrite <- H; cbn; auto.
  - right. right. exact H.
Qed.

(** X23. When a transfer has read the text block it has at least one
    speed, and as many frame numbers: [max(speeds)] and [min(speeds)],
    which it prints, cannot fail, and each is one of the speeds read. *)
Theorem transfer_extremes (text : string) (frame_numbers : list Z)
    (speeds : list spec_float) :
  read_series text = Ok (frame_numbers, speeds) ->
  length frame_numbers = length speeds /\ speeds <> []
  /\ exists max_speed min_speed,
       speed_extremes speeds = Ok (max_speed, min_speed)
       /\ In max_speed speeds /\ In min_speed speeds.
Proof.
  intros Hread.
  destruct (read_series_fields text frame_numbers speeds Hread)
    as (Hfn & Hsp & _).
  assert (Hlines : PyStr.split newline (PyStr.strip text) <> []).
  { destruct (PyStr.strip text) as [|c s]; cbn; [discriminate|].
    destruct (Ascii.eqb c newline); [discriminate|].
    destruct (PyStr.split newline s); discriminate. }
  split; [congruence|].
  destruct speeds as [|first rest].
  { destruct (PyStr.split newline (PyStr.strip text)); [congruence|].
    discriminate. }
  split; [discriminate|].
  unfold speed_extremes, py_max, py_min. cbn [mbind result_bind].
  eexists _, _. split; [reflexivity|]. split.
  - apply (fold_choice_In SFltb).
  - apply (fold_choice_In (fun best item => SFltb item best)).
Qed.

Lemma transfer_extremes_witness :
  exists max_speed min_speed,
    speed_extremes [nearest_float 10; nearest_float 30]
    = Ok (max_speed, min_speed)
    /\ In max_speed [nearest_float 10; nearest_float 30]
    /\ In min_speed [nearest_float 10; nearest_float 30].
Proof.
  exact (proj2 (proj2 (transfer_extremes
                         (write_records [(0, 1, 10); (1, 2, 30)] "")
                         [1; 2] [nearest_float 10; nearest_float 30]
                         ltac:(vm_compute; reflexivity)))).
Defined.

(** ** A run that cannot fail *)

(** One shift of a rounding keeps the magnitude. *)
Lemma shr_fexp_below (m e K : Z) (l : location) :
  0 <= m -> Z.max (Zdigits2 m) 1 + e <= K -> -1073 <= K ->
  let r := shr_fexp PyFloat.prec PyFloat.emax m e l in
  0 <= shr_m r.1 < 2 ^ 53
  /\ (0 < shr_m r.1 -> Zdigits2 (shr_m r.1) + r.2 <= K)
  /\ 1 + r.2 <= K.
Proof.
  intros Hm HK HK0. cbn zeta.
  pose proof (shr_fexp_bounded m e l Hm) as Hb.
  split; [exact Hb|]. clear Hb.
  unfold shr_fexp, shr. rewrite fexp_eq.
  pose proof (Zdigits2_nonneg m) as Hd.
  destruct (Z.max (Zdigits2 m + e - 53) (-1074) - e) as [|n|n] eqn:E;
    cbn [fst snd]; rewrite ?shr_record_of_loc_m.
  - split; lia.
  - rewrite iter_pos_shr_m, shr_record_of_loc_m
      by (rewrite shr_record_of_loc_m; lia).
    split; [|lia].
    intros Hq. assert (Hpos : 0 < m).
    { destruct (Z.eq_dec m 0) as [->|]; [|lia].
      rewrite Z.div_0_l in Hq; [lia|]. apply Z.pow_nonzero; lia. }
    pose proof (Zdigits2_div_pow2 m (Zpos n) Hpos ltac:(lia) Hq). lia.
  - split; lia.
Qed.

(** A rounding of a magnitude below the largest exponent does not
    overflow. *)
Lemma binary_round_aux_below (sx : bool) (m e K : Z) (l : location) :
  0 <= m -> Z.max (Zdigits2 m) 1 + e <= K -> -1073 <= K -> K <= 971 ->
  below (K + 1) (binary_round_aux PyFloat.prec PyFloat.emax sx m e l).
Proof.
  intros Hm HK HK0 HK1. unfold binary_round_aux.
  pose proof (shr_fexp_below m e K l Hm HK HK0) as H1. cbn zeta in H1.
  destruct (shr_fexp PyFloat.prec PyFloat.emax m e l) as [mrs' e'].
  cbn [fst snd] in H1. destruct H1 as (Hm' & Hd' & He').
  set (m1 := round_nearest_even (shr_m mrs') (loc_of_shr_record mrs')).
  assert (Hm1 : shr_m mrs' <= m1 <= shr_m mrs' + 1).
  { unfold m1, round_nearest_even.
    destruct (loc_of_shr_record mrs') as [|[]]; try lia.
    destruct (Z.even (shr_m mrs')); lia. }
  assert (Hd1 : Z.max (Zdigits2 m1) 1 + e' <= K + 1).
  { destruct (Z.eq_dec (shr_m mrs') 0) as [Hz|Hnz].
    - rewrite Hz in Hm1.
      assert (Hm1' : m1 = 0 \/ m1 = 1) by lia.
      destruct Hm1' as [-> | ->]; cbn; lia.
    - assert (Hpos : 0 < shr_m mrs') by lia.
      pose proof (Zdigits2_mono (shr_m mrs') m1 ltac:(lia)).
      pose proof (Zdigits2_mono m1 (shr_m mrs' + 1) ltac:(lia)).
      pose proof (Zdigits2_succ (shr_m mrs') ltac:(lia)).
      pose proof (Hd' Hpos). lia. }
  pose proof (shr_fexp_below m1 e' (K + 1) loc_Exact ltac:(lia) Hd1 ltac:(lia))
    as H2. cbn zeta in H2.
  destruct (shr_fexp PyFloat.prec PyFloat.emax m1 e' loc_Exact)
    as [mrs'' e''].
  cbn [fst snd] in H2. destruct H2 as (Hm'' & Hd'' & He'').
  destruct (shr_m mrs'') as [|m''|m''] eqn:Em; [exact I| |lia].
  specialize (Hd'' ltac:(lia)).
  assert (1 <= Zdigits2 (Zpos m'')) by (cbn; lia).
  unfold PyFloat.emax, PyFloat.prec.
  destruct (Z.leb_spec e'' (1024 - 53)); [exact Hd''|lia].
Qed.

Lemma below_weaken (K K' : Z) (f : spec_float) :
  below K f -> K <= K' -> below K' f.
Proof. destruct f; cbn; auto; lia. Qed.

Lemma fmul_below (K1 K2 K : Z) (x y : spec_float) :
  below K1 x -> below K2 y -> K1 + K2 <= K -> -1073 <= K -> K <= 971 ->
  below (K + 1) (PyFloat.fmul x y).
Proof.
  unfold PyFloat.fmul, SFmul.
  destruct x as [sx|sx| |sx mx ex], y as [sy|sy| |sy my ey]; cbn [below];
    try contradiction; try (intros; exact I).
  intros Hx Hy HK HK0 HK1. apply binary_round_aux_below; try lia.
  destruct (Zdigits2_bounds (Zpos mx) ltac:(lia)) as [[_ Hxhi] Hdx].
  destruct (Zdigits2_bounds (Zpos my) ltac:(lia)) as [[_ Hyhi] Hdy].
  assert (Hprod : Zdigits2 (Zpos (mx * my))
                  <= Zdigits2 (Zpos mx) + Zdigits2 (Zpos my)).
  { apply Zdigits2_le_pow2; [lia|lia|]. rewrite Z.pow_add_r by lia.
    rewrite Pos2Z.inj_mul. apply Z.mul_lt_mono_nonneg; lia. }
  lia.
Qed.

Lemma shl_align_spec (mx : positive) (ex t : Z) :
  let r := shl_align mx ex t in
  r.2 <= ex /\ Zpos r.1 = Zpos mx * 2 ^ (ex - r.2)
  /\ Zdigits2 (Zpos r.1) + r.2 = Zdigits2 (Zpos mx) + ex
  /\ (t <= ex -> r.2 = t).
Proof.
  cbn zeta. unfold shl_align.
  destruct (t - ex) as [|d|d] eqn:E; cbn [fst snd].
  - rewrite Z.sub_diag. cbn. split; [lia|]. split; [lia|]. split; lia.
  - rewrite Z.sub_diag. cbn. split; [lia|]. split; [lia|]. split; lia.
  - rewrite pos_iter_xO. replace (ex - t) with (Zpos d) by lia.
    split; [lia|]. split; [reflexivity|].
    rewrite Zdigits2_mul_pow2 by lia. split; lia.
Qed.

Lemma binary_normalize_below (z e K : Z) :
  Z.max (Zdigits2 z) 1 + e <= K -> -1073 <= K -> K <= 971 ->
  below (K + 1) (binary_normalize PyFloat.prec PyFloat.emax z e false).
Proof.
  intros HK HK0 HK1. unfold binary_normalize.
  destruct z as [|p|p]; [exact I| |]; unfold binary_round;
    pose proof (shl_align_spec p e
                  (fexp PyFloat.prec PyFloat.emax (Zpos (digits2_pos p) + e)))
      as (_ & _ & Hd & _);
    destruct (shl_align _ _ _) as [mz ez]; cbn [fst snd] in Hd;
    apply binary_round_aux_below; try lia;
    change (Zdigits2 (Zneg p)) with (Zdigits2 (Zpos p)) in HK;
    assert (1 <= Zdigits2 (Zpos mz)) by (cbn; lia); lia.
Qed.

(** The two aligned significands of a sum or a difference. *)
Lemma aligned_sum_digits (sx sy : bool) (mx my : positive) (ex ey K : Z)
    (sub : bool) :
  Zdigits2 (Zpos mx) + ex <= K -> Zdigits2 (Zpos my) + ey <= K ->
  let ez := Z.min ex ey in
  let X := cond_Zopp sx (Zpos (shl_align mx ex ez).1) in
  let Y := cond_Zopp sy (Zpos (shl_align my ey ez).1) in
  Z.max (Zdigits2 (if sub then X - Y else X + Y)) 1 + ez <= K + 1.
Proof.
  intros Hx Hy ez X Y.
  pose proof (shl_align_spec mx ex ez) as (_ & _ & Hdx & Hex).
  pose proof (shl_align_spec my ey ez) as (_ & _ & Hdy & Hey).
  cbn zeta in *. rewrite (Hex ltac:(unfold ez; lia)) in Hdx.
  rewrite (Hey ltac:(unfold ez; lia)) in Hdy.
  set (px := (shl_align mx ex ez).1) in *.
  set (py := (shl_align my ey ez).1) in *.
  destruct (Zdigits2_bounds (Zpos px) ltac:(lia)) as [[_ Hxhi] Hdx1].
  destruct (Zdigits2_bounds (Zpos py) ltac:(lia)) as [[_ Hyhi] Hdy1].
  assert (Hbound : forall v, Z.abs v < 2 ^ (K - ez + 1) ->
                     Z.max (Zdigits2 v) 1 + ez <= K + 1).
  { intros v Hv. destruct v as [|p|p];
      [change (Zdigits2 0) with 0; lia| |].
    - assert (Zdigits2 (Zpos p) <= K - ez + 1)
        by (apply Zdigits2_le_pow2; lia).
      lia.
    - change (Zdigits2 (Zneg p)) with (Zdigits2 (Zpos p)).
      assert (Zdigits2 (Zpos p) <= K - ez + 1)
        by (apply Zdigits2_le_pow2; lia).
      lia. }
  apply Hbound.
  assert (Hpx : Zpos px < 2 ^ (K - ez)).
  { eapply Z.lt_le_trans; [exact Hxhi|]. apply Z.pow_le_mono_r; lia. }
  assert (Hpy : Zpos py < 2 ^ (K - ez)).
  { eapply Z.lt_le_trans; [exact Hyhi|]. apply Z.pow_le_mono_r; lia. }
  replace (K - ez + 1) with (Z.succ (K - ez)) by lia.
  rewrite Z.pow_succ_r by lia.
  unfold X, Y. destruct sub, sx, sy; cbn [cond_Zopp]; lia.
Qed.

Lemma fsub_below (K : Z) (x y : spec_float) :
  below K x -> below K y -> -1074 <= K -> K <= 970 ->
  below (K + 2) (PyFloat.fsub x y).
Proof.
  unfold PyFloat.fsub, SFsub.
  destruct x as [sx|sx| |sx mx ex], y as [sy|sy| |sy my ey]; cbn [below];
    try contradiction; intros Hx Hy HK0 HK1.
  - destruct sx, sy; exact I.
  - cbn [below]. lia.
  - cbn [below]. lia.
  - cbn zeta.
    pose proof (aligned_sum_digits sx sy mx my ex ey K true Hx Hy) as Hd.
    cbn zeta in Hd.
    replace (K + 2) with (K + 1 + 1) by lia.
    apply binary_normalize_below; [exact Hd|lia|lia].
Qed.

Lemma fadd_below (K : Z) (x y : spec_float) :
  below K x -> below K y -> -1074 <= K -> K <= 970 ->
  below (K + 2) (PyFloat.fadd x y).
Proof.
  unfold PyFloat.fadd, SFadd.
  destruct x as [sx|sx| |sx mx ex], y as [sy|sy| |sy my ey]; cbn [below];
    try contradiction; intros Hx Hy HK0 HK1.
  - destruct sx, sy; exact I.
  - cbn [below]. lia.
  - cbn [below]. lia.
  - cbn zeta.
    pose proof (aligned_sum_digits sx sy mx my ex ey K false Hx Hy) as Hd.
    cbn zeta in Hd.
    replace (K + 2) with (K + 1 + 1) by lia.
    apply binary_normalize_below; [exact Hd|lia|lia].
Qed.

Lemma fsqrt_below (K K' : Z) (x : spec_float) :
  below K x -> not_negative x -> (K + 1) / 2 <= K' -> -1073 <= K' ->
  K' <= 971 ->
  below (K' + 1) (PyFloat.fsqrt x).
Proof.
  unfold PyFloat.fsqrt, SFsqrt.
  destruct x as [sx|sx| |[] mx ex]; cbn [below not_negative has_sign];
    try contradiction; try discriminate; intros Hx _ HK HK0 HK1;
    [exact I|].
  destruct (SFsqrt_core_binary _ _ _ _) as [[mz ez] lz] eqn:E.
  unfold SFsqrt_core_binary in E. rewrite !Z.div2_div, fexp_eq in E.
  set (d := Zdigits2 (Zpos mx)) in *.
  set (e' := Z.min (Z.max ((d + ex + 1) / 2 - 53) (-1074)) (ex / 2)) in E.
  set (s := ex - 2 * e') in E.
  pose proof (Z.mul_div_le ex 2 ltac:(lia)) as Hhalf.
  assert (Hs : 0 <= s) by (unfold s, e'; lia).
  assert (Hm' : match s with
                | 0 => Zpos mx
                | Zpos _ => Z.shiftl (Zpos mx) s
                | Zneg _ => 0
                end = Zpos mx * 2 ^ s).
  { destruct s as [|q|q] eqn:Es; [cbn; lia| |lia].
    rewrite Z.shiftl_mul_pow2 by lia. reflexivity. }
  rewrite Hm' in E.
  destruct (Z.sqrtrem _) as [q r] eqn:Esqrt in E. injection E as <- <- _.
  assert (Hq : q = Z.sqrt (Zpos mx * 2 ^ s))
    by (rewrite <- Z.sqrtrem_sqrt, Esqrt; reflexivity).
  pose proof (Z.pow_pos_nonneg 2 s ltac:(lia) Hs) as Hps.
  assert (Hmpos : 0 < Zpos mx * 2 ^ s) by lia.
  assert (Hqpos : 0 < q) by (rewrite Hq; apply Z.sqrt_pos; exact Hmpos).
  destruct (Zdigits2_bounds (Zpos mx) ltac:(lia)) as [[_ Hhi] Hd].
  fold d in Hhi, Hd.
  assert (Hsum : (d + s + 1) / 2 + e' <= (K + 1) / 2).
  { replace (d + s + 1) with (d + ex + 1 + - e' * 2) by (unfold s; lia).
    rewrite Z.div_add by lia.
    pose proof (Z.div_le_mono (d + ex + 1) (K + 1) 2 ltac:(lia) ltac:(lia)).
    lia. }
  set (t := (d + s + 1) / 2) in *.
  assert (Ht : 0 <= t /\ d + s <= 2 * t).
  { pose proof (Z.div_mod (d + s + 1) 2 ltac:(lia)).
    pose proof (Z.mod_pos_bound (d + s + 1) 2 ltac:(lia)).
    fold t in H. lia. }
  assert (Hqt : q < 2 ^ t).
  { rewrite Hq. apply Z.sqrt_lt_square; [lia|apply Z.pow_nonneg; lia|].
    rewrite <- Z.pow_add_r by lia.
    apply Z.lt_le_trans with (2 ^ (d + s)).
    - rewrite Z.pow_add_r by lia. apply Z.mul_lt_mono_pos_r; lia.
    - apply Z.pow_le_mono_r; lia. }
  assert (Hdq : Zdigits2 q <= t) by (apply Zdigits2_le_pow2; lia).
  apply binary_round_aux_below; lia.
Qed.

Lemma fdiv_below (K L K' : Z) (x y : spec_float) :
  below K x -> positive_above L y -> K - L + 1 <= K' -> -1073 <= K' ->
  K' <= 971 ->
  below (K' + 1) (PyFloat.fdiv x y).
Proof.
  unfold PyFloat.fdiv, SFdiv.
  destruct x as [sx|sx| |sx mx ex], y as [sy|sy| |[] my ey];
    cbn [below positive_above]; try contradiction;
    intros Hx Hy HK HK0 HK1; [exact I|].
  destruct (SFdiv_core_binary _ _ _ _ _ _) as [[mz ez] lz] eqn:E.
  unfold SFdiv_core_binary in E. rewrite fexp_eq in E.
  set (d1 := Zdigits2 (Zpos mx)) in *. set (d2 := Zdigits2 (Zpos my)) in *.
  set (e' := Z.min (Z.max (d1 + ex - (d2 + ey) - 53) (-1074)) (ex - ey)) in E.
  set (s := ex - ey - e') in E.
  assert (Hs : 0 <= s) by (unfold s, e'; lia).
  assert (Hm' : match s with
                | 0 => Zpos mx
                | Zpos _ => Z.shiftl (Zpos mx) s
                | Zneg _ => 0
                end = Zpos mx * 2 ^ s).
  { destruct s as [|q|q] eqn:Es; [cbn; lia| |lia].
    rewrite Z.shiftl_mul_pow2 by lia. reflexivity. }
  rewrite Hm' in E.
  destruct (Z.div_eucl _ _) as [q r] eqn:Ediv in E. injection E as <- <- _.
  assert (Hq : q = Zpos mx * 2 ^ s / Zpos my)
    by (unfold Z.div; rewrite Ediv; reflexivity).
  pose proof (Z.pow_pos_nonneg 2 s ltac:(lia) Hs) as Hps.
  assert (Hq0 : 0 <= q) by (rewrite Hq; apply Z.div_pos; lia).
  destruct (Zdigits2_bounds (Zpos mx) ltac:(lia)) as [[_ Hxhi] Hdx].
  destruct (Zdigits2_bounds (Zpos my) ltac:(lia)) as [[Hylo _] Hdy].
  fold d1 in Hxhi, Hdx. fold d2 in Hylo, Hdy.
  apply binary_round_aux_below; try lia.
  destruct (Z.eq_dec q 0) as [Hz|Hnz].
  - rewrite Hz. change (Zdigits2 0) with 0. unfold e'. lia.
  - assert (Hqpos : 0 < q) by lia.
    assert (Hexp : 1 <= d1 + s - d2 + 1).
    { destruct (Z.le_gt_cases 1 (d1 + s - d2 + 1)) as [|Hsmall];
        [assumption|].
      assert (Zpos mx * 2 ^ s < Zpos my).
      { apply Z.lt_le_trans with (2 ^ (d1 + s)).
        - rewrite Z.pow_add_r by lia. apply Z.mul_lt_mono_pos_r; lia.
        - eapply Z.le_trans; [|exact Hylo]. apply Z.pow_le_mono_r; lia. }
      rewrite Z.div_small in Hq by lia. lia. }
    assert (Hdq : Zdigits2 q <= d1 + s - d2 + 1).
    { apply Zdigits2_le_pow2; [lia|lia|]. rewrite Hq.
      apply Z.div_lt_upper_bound; [lia|].
      apply Z.lt_le_trans with (2 ^ (d2 - 1) * 2 ^ (d1 + s - d2 + 1)).
      - rewrite <- Z.pow_add_r by lia.
        replace (d2 - 1 + (d1 + s - d2 + 1)) with (d1 + s) by lia.
        rewrite Z.pow_add_r by lia. apply Z.mul_lt_mono_pos_r; lia.
      - apply Z.mul_le_mono_nonneg_r; [apply Z.pow_nonneg; lia|lia]. }
    unfold s in *. lia.
Qed.

Lemma round_below (K : Z) (f : spec_float) :
  below K f -> not_negative f -> 0 <= K ->
  exists z, PyFloat.round f = Ok z /\ 0 <= z <= 2 ^ K.
Proof.
  destruct f as [s|s| |s m e]; cbn [below not_negative has_sign];
    try contradiction; intros Hf Hs HK.
  - exists 0. split; [reflexivity|]. pose proof (Z.pow_pos_nonneg 2 K). lia.
  - subst s. cbn [PyFloat.round PyFloat.cond_opp]. eexists.
    split; [reflexivity|].
    destruct (Zdigits2_bounds (Zpos m) ltac:(lia)) as [[_ Hhi] Hd].
    set (d := Zdigits2 (Zpos m)) in *.
    destruct (Z.leb_spec 0 e) as [He|He].
    + split; [apply Z.mul_nonneg_nonneg; [lia|apply Z.pow_nonneg; lia]|].
      apply Z.lt_le_incl, Z.lt_le_trans with (2 ^ (d + e)).
      * rewrite Z.pow_add_r by lia. apply Z.mul_lt_mono_pos_r;
          [apply Z.pow_pos_nonneg; lia|lia].
      * apply Z.pow_le_mono_r; lia.
    + pose proof (Z.pow_pos_nonneg 2 (- e) ltac:(lia) ltac:(lia)) as Hp.
      pose proof (round_half_even_bound (Zpos m) (2 ^ (- e)) ltac:(lia) Hp)
        as [Hr0 Hr1].
      split; [exact Hr0|].
      destruct (Z.le_gt_cases (d + e) 0) as [Hsmall|Hbig].
      * assert (Zpos m < 2 ^ (- e)).
        { eapply Z.lt_le_trans; [exact Hhi|]. apply Z.pow_le_mono_r; lia. }
        rewrite Z.div_small in Hr1 by lia.
        pose proof (Z.pow_pos_nonneg 2 K ltac:(lia) HK). lia.
      * assert (Zpos m / 2 ^ (- e) < 2 ^ (d + e)).
        { apply Z.div_lt_upper_bound; [lia|].
          rewrite <- Z.pow_add_r by lia.
          replace (- e + (d + e)) with d by lia. exact Hhi. }
        assert (2 ^ (d + e) <= 2 ^ K) by (apply Z.pow_le_mono_r; lia).
        lia.
Qed.

Lemma below_finite (K : Z) (f : spec_float) :
  below K f -> PyFloat.is_finite f = true.
Proof. destruct f; cbn; auto; contradiction. Qed.

Lemma square_below (K : Z) (d : spec_float) :
  below K d -> -1073 <= K + K -> K + K <= 971 ->
  exists y, PyFloat.square d = Ok y /\ below (K + K + 1) y /\ not_negative y.
Proof.
  intros Hd HK0 HK1. unfold PyFloat.square.
  pose proof (fmul_below K K (K + K) d d Hd Hd ltac:(lia) HK0 HK1) as Hy.
  rewrite (below_finite _ _ Hy), andb_false_r.
  eexists. split; [reflexivity|]. split; [exact Hy|].
  apply fmul_self_not_negative.
Qed.

Lemma positive_above_weaken (L L' : Z) (f : spec_float) :
  positive_above L f -> L' <= L -> positive_above L' f.
Proof. destruct f as [| | |[] m e]; cbn; auto; lia. Qed.

(** The speed of a step between positions of moderate size, at a moderate
    stride and frame rate, is computed without an exception. *)
Lemma measure_speed_moderate (interval fps : Z) (prev location : Vector.t) :
  1 <= interval < 2 ^ 31 -> 1 <= fps < 2 ^ 31 ->
  below 400 (Vector.x prev) -> below 400 (Vector.y prev) ->
  below 400 (Vector.x location) -> below 400 (Vector.y location) ->
  exists speed,
    measure_speed interval fps prev location = Ok speed
    /\ 0 <= speed <= 2 ^ 445.
Proof.
  intros Hk Hfps Hpx Hpy Hlx Hly. unfold measure_speed.
  pose proof (fsub_below 400 _ _ Hlx Hpx ltac:(lia) ltac:(lia)) as Hdx.
  pose proof (fsub_below 400 _ _ Hly Hpy ltac:(lia) ltac:(lia)) as Hdy.
  destruct (square_below 402 _ Hdx ltac:(lia) ltac:(lia))
    as (dx2 & -> & Hdx2 & Hdx2').
  destruct (square_below 402 _ Hdy ltac:(lia) ltac:(lia))
    as (dy2 & -> & Hdy2 & Hdy2').
  cbn [mbind result_bind].
  pose proof (fadd_below 805 _ _ Hdx2 Hdy2 ltac:(lia) ltac:(lia)) as Hsum.
  pose proof (fadd_not_negative _ _ Hdx2' Hdy2') as Hsum'.
  set (total := PyFloat.fadd dx2 dy2) in *.
  pose proof (fsqrt_below 807 404 total Hsum Hsum' ltac:(reflexivity)
                ltac:(lia) ltac:(lia)) as Hdist.
  pose proof (fsqrt_not_negative total Hsum') as Hdist'.
  assert (Hsqrt : PyFloat.math_sqrt total = Ok (PyFloat.fsqrt total)).
  { unfold PyFloat.math_sqrt. destruct total as [s|s| |[] m e]; cbn in *;
      try reflexivity; try contradiction; discriminate. }
  rewrite Hsqrt. cbn [mbind result_bind].
  destruct (int_true_div_above interval fps ltac:(lia) ltac:(lia))
    as (time & -> & Htime).
  cbn [mbind result_bind].
  assert (Htime30 : positive_above (-30) time).
  { apply (positive_above_weaken _ _ _ Htime).
    pose proof (Z.log2_nonneg interval).
    assert (Z.log2 fps < 31) by (apply Z.log2_lt_pow2; lia). lia. }
  assert (Htime' : not_negative time /\ PyFloat.is_zero time = false).
  { destruct time as [| | |[] m e]; cbn in *; try contradiction; auto. }
  unfold PyFloat.true_div. rewrite (proj2 Htime'). cbn [mbind result_bind].
  pose proof (fdiv_below 405 (-30) 436 _ _ Hdist Htime30 ltac:(lia)
                ltac:(lia) ltac:(lia)) as Hper.
  pose proof (fdiv_not_negative _ _ Hdist' (proj1 Htime')) as Hper'.
  set (per := PyFloat.fdiv _ time) in *.
  assert (Hhundred : exists hundred,
            PyFloat.of_int 100 = Ok hundred /\ below 7 hundred
            /\ not_negative hundred).
  { eexists. split; [vm_compute; reflexivity|].
    split; [vm_compute; discriminate|reflexivity]. }
  destruct Hhundred as (hundred & -> & Hh & Hh').
  cbn [mbind result_bind].
  apply (round_below 445); [|apply fmul_not_negative; assumption|lia].
  apply (fmul_below 437 7 444); try assumption; lia.
Qed.

Lemma rmap_total {A B : Type} (f : A -> result B) (P : B -> Prop)
    (l : list A) :
  (forall a, In a l -> exists b, f a = Ok b /\ P b) ->
  exists bs, rmap f l = Ok bs /\ Forall P bs.
Proof.
  induction l as [|a l IH]; intros H; [exists []; split; [reflexivity|constructor]|].
  destruct (H a (or_introl eq_refl)) as (b & Hb & HP).
  destruct (IH (fun a' Ha' => H a' (or_intror Ha'))) as (bs & Hbs & HPs).
  exists (b :: bs). cbn [rmap]. rewrite Hb, Hbs. cbn.
  split; [reflexivity|constructor; assumption].
Qed.

Lemma sum_bounds (B : Z) (l : list Z) :
  Forall (fun z => 0 <= z <= B) l -> 0 <= sum l <= len l * B.
Proof.
  unfold len. induction 1 as [|z l Hz _ IH]; [cbn; lia|].
  rewrite sum_cons. cbn [length]. lia.
Qed.

Lemma rounded_mean_moderate (l : list Z) :
  l <> [] -> len l < 2 ^ 31 -> Forall (fun z => 0 <= z <= 2 ^ 445) l ->
  is_ok (rounded_mean l) = true.
Proof.
  intros Hne Hlen Hl. unfold rounded_mean.
  pose proof (sum_bounds _ _ Hl) as [Hs0 Hs1].
  assert (Hpos : 1 <= len l).
  { unfold len. destruct l; [congruence|cbn; lia]. }
  destruct (Z.eq_dec (sum l) 0) as [->|Hnz].
  - unfold PyFloat.int_true_div. destruct (Z.eqb_spec (len l) 0); [lia|].
    destruct (len l) as [|p|p]; try lia. reflexivity.
  - assert (Hbig : sum l < 2 ^ 1000).
    { eapply Z.le_lt_trans; [exact Hs1|].
      apply Z.lt_le_trans with (2 ^ 31 * 2 ^ 445).
      - apply Z.mul_lt_mono_pos_r; [apply Z.pow_pos_nonneg; lia|lia].
      - rewrite <- Z.pow_add_r by lia. apply Z.pow_le_mono_r; lia. }
    assert (Hlen' : len l < 2 ^ 1000).
    { eapply Z.lt_le_trans; [exact Hlen|]. apply Z.pow_le_mono_r; lia. }
    destruct (int_true_div_above (sum l) (len l) ltac:(lia) ltac:(lia))
      as (f & -> & Hf).
    destruct f as [| | |[] m e]; cbn in Hf; try contradiction. reflexivity.
Qed.

Lemma nearest_float_below (z K : Z) :
  Z.abs z < 2 ^ K -> 0 <= K -> K <= 970 -> below (K + 2) (nearest_float z).
Proof.
  intros Hz HK0 HK1. unfold nearest_float.
  replace (K + 2) with (K + 1 + 1) by lia.
  apply binary_normalize_below; try lia.
  destruct z as [|p|p]; [change (Zdigits2 0) with 0; lia| |].
  - assert (Zdigits2 (Zpos p) <= K) by (apply Zdigits2_le_pow2; lia).
    assert (1 <= Zdigits2 (Zpos p)) by (cbn; lia). lia.
  - change (Zdigits2 (Zneg p)) with (Zdigits2 (Zpos p)).
    assert (Zdigits2 (Zpos p) <= K) by (apply Zdigits2_le_pow2; lia).
    assert (1 <= Zdigits2 (Zpos p)) by (cbn; lia). lia.
Qed.

Lemma averaging_pass_moderate (w : Z) (rs : list SpeedRecord) :
  1 <= w -> len rs < 2 ^ 31 ->
  Forall (fun r => 0 <= speed_of r <= 2 ^ 445) rs ->
  is_ok (averaging_pass w rs) = true.
Proof.
  intros Hw Hlen Hrs. rewrite averaging_pass_spec, rmap_is_ok.
  apply forallb_forall. intros i Hi. apply in_seq in Hi.
  destruct (lookup_lt_is_Some_2 rs i ltac:(lia)) as [r Hr].
  rewrite (average_at_spec w rs i r Hw Hr).
  assert (Hlt : (i < length (map speed_of rs))%nat)
    by (rewrite length_map; lia).
  pose proof (centered_window_length (Z.to_nat (w / 2)) _ i Hlt) as Hwlen.
  assert (Hok : is_ok (rounded_mean
                         (centered_window (Z.to_nat (w / 2))
                            (map speed_of rs) i)) = true).
  { apply rounded_mean_moderate.
    - intros Hnil. rewrite Hnil in Hwlen. cbn in Hwlen. lia.
    - unfold len in *. rewrite Hwlen, length_map. lia.
    - unfold centered_window. apply Forall_take, Forall_drop, Forall_map.
      exact Hrs. }
  destruct (rounded_mean _); [reflexivity|discriminate].
Qed.

(** The records of a run on a path of moderate size. *)
Lemma computed_records_moderate (b : bpy) (obj : Object.t) :
  let props := speed_data_processor b in
  1 <= stride props < 2 ^ 31 -> 1 <= fps b < 2 ^ 31 ->
  1 <= averaging_window props -> frame_end b - frame_start b < 2 ^ 31 ->
  moderate_path (frame_start b) (frame_end b) obj ->
  is_ok (computed_records b obj) = true.
Proof.
  intros props Hk Hfps Hw Hrange Hpath. unfold computed_records. fold props.
  rewrite (sampling_pass_spec _ _ _ _ _ _ (proj1 Hk)).
  destruct (rmap_total
              (fun i : nat =>
                 record_at (stride props) (fps b) (Object.location obj)
                   (frame_start b + Z.of_nat (S i) * stride props))
              (fun r => 0 <= speed_of r <= 2 ^ 445)
              (seq 0 (record_count (frame_start b) (frame_end b)
                        (stride props))))
    as (rs & Hrs & Hbound).
  { intros i Hi. apply in_seq in Hi. unfold record_at.
    assert (Hin : Z.of_nat (S i) * stride props
                  <= frame_end b - frame_start b).
    { unfold record_count in Hi.
      pose proof (Z.mul_div_le (frame_end b - frame_start b) (stride props)
                    ltac:(lia)).
      nia. }
    destruct (measure_speed_moderate (stride props) (fps b)
                (Object.location obj
                   (frame_start b + Z.of_nat (S i) * stride props
                    - stride props))
                (Object.location obj
                   (frame_start b + Z.of_nat (S i) * stride props))
                Hk Hfps)
      as (speed & -> & Hspeed); try (apply Hpath; nia).
    eexists. split; [reflexivity|exact Hspeed]. }
  rewrite Hrs. cbn [mbind result_bind].
  destruct (apply_averaging props); [|reflexivity].
  apply averaging_pass_moderate; [exact Hw| |exact Hbound].
  unfold len. rewrite (rmap_length _ _ _ Hrs), length_seq.
  unfold record_count.
  destruct (Z.le_gt_cases (frame_end b - frame_start b) 0) as [Hneg|Hpos].
  - assert ((frame_end b - frame_start b) / stride props <= 0).
    { apply Z.div_le_upper_bound; lia. }
    assert (0 < 2 ^ 31) by reflexivity. lia.
  - assert ((frame_end b - frame_start b) / stride props
            <= frame_end b - frame_start b).
    { apply Z.div_le_upper_bound; [lia|]. nia. }
    pose proof (Z.div_pos (frame_end b - frame_start b) (stride props)
                  ltac:(lia) ltac:(lia)).
    lia.
Qed.

(** X24. On a scene of moderate size the sampler always finishes: with a
    stride and a frame rate from 1 to below [2 ^ 31], a frame range
    shorter than [2 ^ 31], a window of at least 1, and an object whose x
    and y are finite and below [2 ^ 400] in magnitude at every frame of
    the range, no exception escapes, the operator returns FINISHED and
    the text block holds the records it computed. *)
Theorem GetSpeed_finishes (b : bpy) (obj : Object.t) :
  let props := speed_data_processor b in
  active_object b = Some obj ->
  1 <= stride props < 2 ^ 31 -> 1 <= fps b < 2 ^ 31 ->
  1 <= averaging_window props -> frame_end b - frame_start b < 2 ^ 31 ->
  moderate_path (frame_start b) (frame_end b) obj ->
  let out := GetSpeed_execute b in
  returned out = Ok FINISHED
  /\ reported out = [(INFO, "Speed data recorded")]
  /\ exists rs, computed_records b obj = Ok rs
                /\ texts (host out) !! text_block_name props
                   = Some (write_records rs "").
Proof.
  intros props Hobj Hk Hfps Hw Hrange Hpath. cbn zeta.
  pose proof (computed_records_moderate b obj Hk Hfps Hw Hrange Hpath) as Hok.
  rewrite (GetSpeed_execute_run b obj Hobj).
  destruct (computed_records b obj) as [rs|e]; [|discriminate]. cbn.
  split; [reflexivity|]. split; [reflexivity|].
  exists rs. split; [reflexivity|apply lookup_insert_eq].
Qed.

Lemma runner_moderate : moderate_path 0 5 runner.
Proof.
  intros frame Hframe. split; [|exact I].
  apply (below_weaken 12); [|lia].
  apply (nearest_float_below (100 * frame) 10); lia.
Qed.

Lemma GetSpeed_finishes_witness :
  returned (GetSpeed_execute strided_host) = Ok FINISHED.
Proof.
  exact (proj1 (GetSpeed_finishes strided_host runner
                  ltac:(reflexivity)
                  ltac:(vm_compute; split; [discriminate|reflexivity])
                  ltac:(vm_compute; split; [discriminate|reflexivity])
                  ltac:(vm_compute; discriminate)
                  ltac:(vm_compute; reflexivity)
                  runner_moderate)).
Defined.

(** ** The four operators in the order of the panel *)



Section Pipeline.

Variable unique_name : list string -> string -> string.
Variable default_node_tree : NodeTree.





End Pipeline.

